(** * Pet store and pet order services: model and verified properties

    Shallow embedding of the two Flask services
    [multi-service-app/pet-store/app/pet_store.py] and
    [multi-service-app/pet-order/app/pet_order.py].

    Modelling conventions.
    - A MongoDB collection is the list of its documents in natural
      (insertion) order: [insert_one] appends, [find_one], [update_one] and
      [delete_one] act on the first document that matches the filter.
      A call raises when the driver cannot encode a document or a filter
      that it is given ([encodable]); the database is otherwise taken to
      answer.
    - Python strings are Rocq strings of ASCII text; [str.lower] is ASCII
      lowercasing, and a case-insensitive anchored pattern built with
      [re.escape] matches the strings equal to its text up to letter case,
      with or without one final newline ([matches_i]).
    - JSON numbers are integers; a JSON object is the list of its keys,
      which are distinct, with their values.
    - A handler is a function from the state before the request to the
      HTTP response (body, status) and the state after it.  Python
      exceptions are an outcome of the monad [M]; state changes made before
      an exception are kept, as in Python.
    - The network (image downloads, peer stores, the animals service),
      the date parser, the regular expressions of the database and
      [random.choice] are arguments of the handlers that use them.
    - [get_picture] and [kill_container] are not modelled. *)

From Stdlib Require Import ZArith List String Ascii Bool Lia DecimalString DecimalZ.
Import ListNotations.

Open Scope string_scope.
Open Scope list_scope.
Open Scope Z_scope.

(** ** Python values *)

(** [str.lower()] on ASCII text. *)
Definition lower_ascii (c : ascii) : ascii :=
  let n := nat_of_ascii c in
  if (Nat.leb 65 n && Nat.leb n 90)%bool then ascii_of_nat (n + 32) else c.

Fixpoint lower (s : string) : string :=
  match s with
  | EmptyString => EmptyString
  | String c r => String (lower_ascii c) (lower r)
  end.

(** The string of one newline character. *)
Definition newline : string := String (ascii_of_nat 10) EmptyString.

(** The string [e] matches the pattern ["^" + re.escape(text) + "$"] with
    option i: it equals [text] up to letter case, or does so once its one
    final newline is taken off ([$] also matches before a final newline). *)
Definition matches_i (text e : string) : bool :=
  (lower e =? lower text)%string || (lower e =? lower text ++ newline)%string.

(** [str(n)] for an integer [n]. *)
Definition str (n : Z) : string := NilEmpty.string_of_int (Z.to_int n).

(** [p in s] for two strings: [p] occurs in [s]. *)
Fixpoint contains (p s : string) : bool :=
  String.prefix p s ||
  match s with
  | EmptyString => false
  | String _ r => contains p r
  end.

(** A parsed JSON value; [JNull] is Python's [None]. *)
#[warnings="-register-all"]
Inductive json : Type :=
| JNull
| JBool (b : bool)
| JNum (n : Z)
| JStr (s : string)
| JArr (l : list json)
| JObj (kv : list (string * json)).

(** Truth value of a Python object ([if x], [not x]). *)
Definition truthy (j : json) : bool :=
  match j with
  | JNull => false
  | JBool b => b
  | JNum n => negb (n =? 0)
  | JStr s => negb (s =? "")%string
  | JArr l => match l with [] => false | _ => true end
  | JObj kv => match kv with [] => false | _ => true end
  end.

Fixpoint assoc {A : Type} (k : string) (kv : list (string * A)) : option A :=
  match kv with
  | [] => None
  | (k', v) :: r => if (k =? k')%string then Some v else assoc k r
  end.

(** [x == y] on parsed JSON.  [bool] is a subclass of [int] ([True == 1]);
    dictionaries compare by key, whatever the order of the keys. *)
Fixpoint py_eq (x y : json) {struct x} : bool :=
  match x with
  | JNull => match y with JNull => true | _ => false end
  | JBool b =>
      match y with
      | JBool c => Bool.eqb b c
      | JNum n => n =? (if b then 1 else 0)
      | _ => false
      end
  | JNum n =>
      match y with
      | JNum m => n =? m
      | JBool c => n =? (if c then 1 else 0)
      | _ => false
      end
  | JStr s => match y with JStr t => (s =? t)%string | _ => false end
  | JArr l =>
      match y with
      | JArr l' =>
          (fix go (a b : list json) {struct a} : bool :=
             match a, b with
             | [], [] => true
             | u :: a', v :: b' => py_eq u v && go a' b'
             | _, _ => false
             end) l l'
      | _ => false
      end
  | JObj kv =>
      match y with
      | JObj kv' =>
          (Nat.eqb (List.length kv) (List.length kv')) &&
          (fix all (a : list (string * json)) {struct a} : bool :=
             match a with
             | [] => true
             | (k, u) :: a' =>
                 match assoc k kv' with
                 | Some v => py_eq u v && all a'
                 | None => false
                 end
             end) kv
      | _ => false
      end
  end.

(** ** Outcomes, and the monad of handlers *)

Inductive outcome (A : Type) : Type :=
| Val (a : A)
| Exc.
Arguments Val {A} a.
Arguments Exc {A}.

(** A computation on a state [S] that returns a value or raises. *)
Definition M (S A : Type) : Type := S -> outcome A * S.

Definition ret {S A : Type} (a : A) : M S A := fun s => (Val a, s).

Definition raise {S A : Type} : M S A := fun s => (Exc, s).

Definition bind {S A B : Type} (m : M S A) (f : A -> M S B) : M S B :=
  fun s =>
    match m s with
    | (Val a, s') => f a s'
    | (Exc, s') => (Exc, s')
    end.

Definition gets {S A : Type} (f : S -> A) : M S A := fun s => (Val (f s), s).

Definition modify {S : Type} (f : S -> S) : M S unit := fun s => (Val tt, f s).

Definition lift {S A : Type} (o : outcome A) : M S A := fun s => (o, s).

Declare Scope monad_scope.
Delimit Scope monad_scope with monad.
Notation "x <- c1 ;; c2" := (bind c1 (fun x => c2))
  (at level 100, c1 at next level, right associativity) : monad_scope.
Notation "c1 ;; c2" := (bind c1 (fun _ => c2))
  (at level 100, right associativity) : monad_scope.
Open Scope monad_scope.

(** An HTTP response: the JSON body and the status code. *)
Definition Response : Type := (json * Z)%type.

Definition status (r : Response) : Z := snd r.

(** [jsonify({key: msg})] *)
Definition message (key msg : string) : json := JObj [(key, JStr msg)].

(** [try: ... except Exception: return jsonify({"error": "Server error"}), 500] *)
Definition try_except {S : Type} (m : M S Response) : S -> Response * S :=
  fun s =>
    match m s with
    | (Val r, s') => (r, s')
    | (Exc, s') => ((message "error" "Server error", 500), s')
    end.

(** The parts of a Flask request that the handlers read. *)
Record Request : Type := {
  content_type : option string;      (* request.headers.get("Content-Type") *)
  body : option json;                (* the body, [None] when it is not JSON *)
  args : list (string * string);     (* request.args.to_dict() *)
  owner_pc : option string           (* request.headers.get('OwnerPC') *)
}.

(** [request.headers.get("Content-Type") == "application/json"] *)
Definition is_json (req : Request) : bool :=
  match content_type req with
  | Some t => (t =? "application/json")%string
  | None => false
  end.

(** [request.get_json()], called once the content type is known to be
    application/json: a body that does not parse raises (BadRequest). *)
Definition get_json {S : Type} (req : Request) : M S json :=
  match body req with
  | Some j => ret j
  | None => raise
  end.

(** [key in data] *)
Definition py_in (key : string) (data : json) : outcome bool :=
  match data with
  | JObj kv => Val (match assoc key kv with Some _ => true | None => false end)
  | JArr l => Val (existsb (py_eq (JStr key)) l)
  | JStr s => Val (contains key s)
  | _ => Exc
  end.

(** [data[key]] for a string key *)
Definition py_item (key : string) (data : json) : outcome json :=
  match data with
  | JObj kv => match assoc key kv with Some v => Val v | None => Exc end
  | _ => Exc
  end.

(** [data.get(key)] *)
Definition py_get (key : string) (data : json) : outcome json :=
  match data with
  | JObj kv => Val (match assoc key kv with Some v => v | None => JNull end)
  | _ => Exc
  end.

(** [x.lower()]: only a string has the method. *)
Definition py_lower (x : json) : outcome string :=
  match x with
  | JStr s => Val (lower s)
  | _ => Exc
  end.

(** ** What the driver can encode *)

(** An integer that fits in 8 bytes. *)
Definition int64 (n : Z) : bool := (- 2 ^ 63 <=? n) && (n <? 2 ^ 63).

(** A key without the NUL character. *)
Fixpoint no_nul (k : string) : bool :=
  match k with
  | EmptyString => true
  | String c r => negb (Ascii.eqb c zero) && no_nul r
  end.

(** The BSON encoder accepts the value: every integer in it fits in 8
    bytes (the encoder raises OverflowError on another) and no key of an
    object in it holds a NUL character (InvalidDocument). *)
Fixpoint encodable (v : json) : bool :=
  match v with
  | JNum n => int64 n
  | JArr l => forallb encodable l
  | JObj kv => forallb (fun p => no_nul (fst p) && encodable (snd p)) kv
  | _ => true
  end.

(** ** MongoDB primitives on a collection *)

Section Collection.
Context {A : Type}.

(** [find_one(filter)]: the first document that matches *)
Definition find_one (f : A -> bool) (c : list A) : option A := List.find f c.

(** [insert_one(doc)] *)
Definition insert_one (doc : A) (c : list A) : list A := c ++ [doc].

(** [update_one(filter, update)]: the first match is updated *)
Fixpoint update_one (f : A -> bool) (u : A -> A) (c : list A) : list A :=
  match c with
  | [] => []
  | d :: r => if f d then u d :: r else d :: update_one f u r
  end.

(** [delete_one(filter)]: the first match is deleted *)
Fixpoint delete_one (f : A -> bool) (c : list A) : list A :=
  match c with
  | [] => []
  | d :: r => if f d then r else d :: delete_one f r
  end.

End Collection.

(** [find_one_and_update({'_id': key}, {'$inc': {'seq': 1}}, upsert=True,
    return_document=True)['seq']] on a counter document that holds [seq],
    or is absent ([None]): the document after the update is returned. *)
Definition inc_seq (counter : option Z) : Z :=
  match counter with
  | Some seq => seq + 1
  | None => 1
  end.

(** * The pet store service (pet_store.py) *)

Module PetStore.

(** A document of [pet_types_collection]. *)
Record PetType : Type := {
  pt_id : string;                 (* "id" *)
  pt_type : string;               (* "type" *)
  pt_family : string;             (* "family" *)
  pt_genus : string;              (* "genus" *)
  pt_attributes : list string;    (* "attributes" *)
  pt_lifespan : option Z;         (* "lifespan": an integer or None *)
  pt_pets : list string           (* "pets": the denormalized list of names *)
}.

(** A document of [pets_collection]. *)
Record Pet : Type := {
  pet_type_id : string;
  name : string;
  name_lower : string;
  birthdate : json;
  picture : string;
  _picture_url : json
}.

(** The state of one store: its three collections and the files of the
    [images] directory. *)
Record Store : Type := {
  pet_types_collection : list PetType;
  pets_collection : list Pet;
  counters_collection : option Z;      (* 'seq' of the 'pet_type_id' counter *)
  images : list string
}.

Definition with_pet_types (f : list PetType -> list PetType) (s : Store) : Store :=
  {| pet_types_collection := f (pet_types_collection s);
     pets_collection := pets_collection s;
     counters_collection := counters_collection s;
     images := images s |}.

Definition with_pets (f : list Pet -> list Pet) (s : Store) : Store :=
  {| pet_types_collection := pet_types_collection s;
     pets_collection := f (pets_collection s);
     counters_collection := counters_collection s;
     images := images s |}.

Definition with_counter (c : option Z) (s : Store) : Store :=
  {| pet_types_collection := pet_types_collection s;
     pets_collection := pets_collection s;
     counters_collection := c;
     images := images s |}.

Definition with_images (f : list string -> list string) (s : Store) : Store :=
  {| pet_types_collection := pet_types_collection s;
     pets_collection := pets_collection s;
     counters_collection := counters_collection s;
     images := f (images s) |}.

Definition with_pt_pets (f : list string -> list string) (pt : PetType) : PetType :=
  {| pt_id := pt_id pt;
     pt_type := pt_type pt;
     pt_family := pt_family pt;
     pt_genus := pt_genus pt;
     pt_attributes := pt_attributes pt;
     pt_lifespan := pt_lifespan pt;
     pt_pets := f (pt_pets pt) |}.

Definition get_next_pet_type_id : M Store string :=
  fun s =>
    let seq := inc_seq (counters_collection s) in
    (Val (str seq), with_counter (Some seq) s).

Definition clean_pet (p : Pet) : json :=
  JObj [("name", JStr (name p));
        ("birthdate", birthdate p);
        ("picture", JStr (picture p))].

Definition clean_pet_type (ptype : PetType) : json :=
  JObj [("id", JStr (pt_id ptype));
        ("type", JStr (pt_type ptype));
        ("family", JStr (pt_family ptype));
        ("genus", JStr (pt_genus ptype));
        ("attributes", JArr (map JStr (pt_attributes ptype)));
        ("lifespan", match pt_lifespan ptype with Some n => JNum n | None => JNull end);
        ("pets", JArr (map JStr (pt_pets ptype)))].

Definition remove_image_file (filename : string) : M Store unit :=
  if ((filename =? "") || (filename =? "NA"))%string then ret tt
  else modify (with_images (filter (fun f => negb (f =? filename)%string))).

(** The filter [{"id": pet_type_id}] on pet types. *)
Definition has_id (tid : string) (pt : PetType) : bool :=
  (pt_id pt =? tid)%string.

(** The filter [{"pet_type_id": pet_type_id, "name_lower": key}] on pets. *)
Definition pet_named (tid key : string) (p : Pet) : bool :=
  ((pet_type_id p =? tid) && (name_lower p =? key))%string.

(** The filter [{"pet_type_id": pet_type_id}] on pets. *)
Definition of_type (tid : string) (p : Pet) : bool :=
  (pet_type_id p =? tid)%string.

(** [pet["name"]] *)
Definition name_of (p : Pet) : string := name p.

(** The driver can encode the pet document, or the [$set] of its fields:
    the values taken from the request are the birthdate and the picture
    URL. *)
Definition stored (p : Pet) : bool :=
  encodable (birthdate p) && encodable (_picture_url p).

(** The driver can encode the pet type document: its lifespan is the one
    field that is not a string or a list of strings. *)
Definition stored_type (pt : PetType) : bool :=
  match pt_lifespan pt with
  | Some n => int64 n
  | None => true
  end.

Definition not_found : Response := (message "error" "Not found", 404).
Definition malformed : Response := (message "error" "Malformed data", 400).
Definition unsupported : Response :=
  (message "error" "Expected application/json media type", 415).

(** [not data or key not in data] *)
Definition lacks (key : string) (data : json) : outcome bool :=
  if negb (truthy data) then Val true
  else match py_in key data with
       | Val b => Val (negb b)
       | Exc => Exc
       end.

(** *** GET /pet-types *)

(** [ptype.get(key)] followed by [str], for the keys of the filter; [None]
    when the field is None. *)
Definition field_str (key : string) (ptype : PetType) : option string :=
  if (key =? "id")%string then Some (pt_id ptype)
  else if (key =? "type")%string then Some (pt_type ptype)
  else if (key =? "family")%string then Some (pt_family ptype)
  else if (key =? "genus")%string then Some (pt_genus ptype)
  else if (key =? "lifespan")%string then option_map str (pt_lifespan ptype)
  else None.

Definition filter_keys : list string := ["id"; "type"; "family"; "genus"; "lifespan"].

(** The inner loop [for key, val in params.items()]: the value of [ok]
    when the loop ends or breaks. *)
Fixpoint params_loop (ptype : PetType) (params : list (string * string)) : bool :=
  match params with
  | [] => true
  | (key, val) :: rest =>
      if (key =? "hasAttribute")%string then
        if negb (existsb (fun a => (lower val =? lower a)%string) (pt_attributes ptype))
        then false
        else params_loop ptype rest
      else if existsb (String.eqb key) filter_keys then
        match field_str key ptype with
        | None => false
        | Some field_val =>
            if (key =? "lifespan")%string then
              if negb (field_val =? val)%string then false
              else params_loop ptype rest
            else
              if negb (lower field_val =? lower val)%string then false
              else params_loop ptype rest
        end
      else params_loop ptype rest
  end.

(** The outer loop [for ptype in all_types], with the list [out]. *)
Fixpoint types_loop (params : list (string * string)) (all_types : list PetType)
    (out : list json) : list json :=
  match all_types with
  | [] => out
  | ptype :: rest =>
      if params_loop ptype params
      then types_loop params rest (out ++ [clean_pet_type ptype])
      else types_loop params rest out
  end.

Definition get_pet_types (req : Request) (s : Store) : Response * Store :=
  let params := args req in
  let all_types := pet_types_collection s in
  match params with
  | [] => ((JArr (map clean_pet_type all_types), 200), s)
  | _ => ((JArr (types_loop params all_types []), 200), s)
  end.

(** *** GET and DELETE /pet-types/<pet_type_id> *)

Definition get_pet_type_by_id (pet_type_id : string) (s : Store) : Response * Store :=
  match find_one (has_id pet_type_id) (pet_types_collection s) with
  | None => (not_found, s)
  | Some ptype => ((clean_pet_type ptype, 200), s)
  end.

Definition delete_pet_type (pet_type_id : string) (s : Store) : Response * Store :=
  match find_one (has_id pet_type_id) (pet_types_collection s) with
  | None => (not_found, s)
  | Some ptype =>
      match pt_pets ptype with
      | _ :: _ => (malformed, s)
      | [] => ((JStr "", 204), with_pet_types (delete_one (has_id pet_type_id)) s)
      end
  end.

Section Handlers.

(** [datetime.strptime(s.strip(), '%d-%m-%Y')]: the day it denotes, [None]
    when it raises. *)
Variable strptime : string -> option Z.

(** The outcome of fetching a picture: [fetch url = Some fname] when the
    GET of [url] answers 200 and the content is saved as [images/fname]. *)
Variable fetch : string -> option string.

Definition parse_date (date_str : json) : option Z :=
  match date_str with
  | JStr s => strptime s
  | _ => None
  end.

Definition download_image (url : json) : M Store (option string) :=
  match url with
  | JStr u =>
      match fetch u with
      | Some fname => modify (with_images (fun fs => fs ++ [fname])) ;; ret (Some fname)
      | None => ret None
      end
  | _ => ret None
  end.

(** *** POST /pet-types/<pet_type_id>/pets *)

(** [any(n.lower() == name.lower() for n in pets)] *)
Fixpoint any_same_name (pets : list string) (name : json) : outcome bool :=
  match pets with
  | [] => Val false
  | n :: rest =>
      match py_lower name with
      | Exc => Exc
      | Val l => if (lower n =? l)%string then Val true else any_same_name rest name
      end
  end.

(** The picture of a new pet: [picture = "NA"], then the [if pic_url:]
    block of [add_pet]. *)
Definition first_picture (pic_url : json) : M Store string :=
  if truthy pic_url then
    f <- download_image pic_url ;;
    ret (match f with Some f => f | None => "NA" end)
  else ret "NA".

Definition add_pet (pet_type_id : string) (req : Request) : Store -> Response * Store :=
  try_except (
    ptype <- gets (fun s => find_one (has_id pet_type_id) (pet_types_collection s)) ;;
    match ptype with
    | None => ret not_found
    | Some ptype =>
        if negb (is_json req) then ret unsupported else
        data <- get_json req ;;
        missing <- lift (lacks "name" data) ;;
        if (missing : bool) then ret malformed else
        name <- lift (py_item "name" data) ;;
        bd <- lift (py_get "birthdate" data) ;;
        let birthdate := if truthy bd then bd else JStr "NA" in
        pic_url <- lift (py_get "picture-url" data) ;;
        dup <- lift (any_same_name (pt_pets ptype) name) ;;
        if (dup : bool) then ret malformed else
        picture <- first_picture pic_url ;;
        match name with
        | JStr n =>
            let pet_obj :=
              {| pet_type_id := pet_type_id;
                 name := n;
                 name_lower := lower n;
                 birthdate := birthdate;
                 picture := picture;
                 _picture_url := pic_url |} in
            if negb (stored pet_obj) then raise else
            modify (with_pets (insert_one pet_obj)) ;;
            modify (with_pet_types
                      (update_one (has_id pet_type_id)
                                  (with_pt_pets (fun l => l ++ [n])))) ;;
            ret (clean_pet pet_obj, 201)
        | _ => raise
        end
    end).

(** *** GET /pet-types/<pet_type_id>/pets *)

(** The loop over [all_pets_clean] with the list [out]. *)
Fixpoint pets_loop (date_gt date_lt : option Z) (all_pets : list Pet)
    (out : list json) : list json :=
  match all_pets with
  | [] => out
  | p :: rest =>
      let bd := birthdate p in
      if py_eq bd (JStr "NA") then pets_loop date_gt date_lt rest out
      else
        match parse_date bd with
        | None => pets_loop date_gt date_lt rest out
        | Some actual =>
            let ok := true in
            let ok := match date_gt with
                      | Some d => if actual <=? d then false else ok
                      | None => ok
                      end in
            let ok := match date_lt with
                      | Some d => if actual >=? d then false else ok
                      | None => ok
                      end in
            if ok then pets_loop date_gt date_lt rest (out ++ [clean_pet p])
            else pets_loop date_gt date_lt rest out
        end
  end.

(** [parse_date(x) if x else None], then [if x and date is None]: [Exc]
    stands for the 400 answer. *)
Definition bound (x : option string) : outcome (option Z) :=
  match x with
  | None => Val None
  | Some t =>
      if (t =? "")%string then Val None
      else match parse_date (JStr t) with
           | Some d => Val (Some d)
           | None => Exc
           end
  end.

Definition get_pets (pet_type_id : string) (req : Request) (s : Store) : Response * Store :=
  match find_one (has_id pet_type_id) (pet_types_collection s) with
  | None => (not_found, s)
  | Some ptype =>
      let all_pets := filter (of_type pet_type_id) (pets_collection s) in
      let params := args req in
      match params with
      | [] => ((JArr (map clean_pet all_pets), 200), s)
      | _ =>
          match bound (assoc "birthdateGT" params) with
          | Exc => ((message "error" "Invalid date format for birthdateGT", 400), s)
          | Val date_gt =>
              match bound (assoc "birthdateLT" params) with
              | Exc => ((message "error" "Invalid date format for birthdateLT", 400), s)
              | Val date_lt => ((JArr (pets_loop date_gt date_lt all_pets []), 200), s)
              end
          end
      end
  end.

(** *** GET, PUT, DELETE /pet-types/<pet_type_id>/pets/<name> *)

Definition get_pet_by_name (pet_type_id name : string) (s : Store) : Response * Store :=
  match find_one (has_id pet_type_id) (pet_types_collection s) with
  | None => (not_found, s)
  | Some ptype =>
      match find_one (pet_named pet_type_id (lower name)) (pets_collection s) with
      | None => (not_found, s)
      | Some pet => ((clean_pet pet, 200), s)
      end
  end.

(** The [$set] of [update_fields] on a pet document. *)
Definition set_fields (new_name : string) (new_birthdate : json) (cur_pic : string)
    (new_picture_url : json) (p : Pet) : Pet :=
  {| pet_type_id := pet_type_id p;
     name := new_name;
     name_lower := lower new_name;
     birthdate := match new_birthdate with JNull => JStr "NA" | b => b end;
     picture := cur_pic;
     _picture_url := new_picture_url |}.

(** [{"$pull": {"pets": {"$regex": "^" + re.escape(name) + "$", "$options": "i"}}}]:
    the entries that the pattern matches are removed. *)
Definition pull_regex (name : string) (pets : list string) : list string :=
  filter (fun e => negb (matches_i name e)) pets.

(** [{"$pull": {"pets": name}}] *)
Definition pull (name : string) (pets : list string) : list string :=
  filter (fun e => negb (e =? name)%string) pets.

(** [{"$push": {"pets": name}}] *)
Definition push (name : string) (pets : list string) : list string := pets ++ [name].

(** The picture of a pet under update (the [if new_url is None ... elif
    ... else] block of [update_pet]): the new values of [cur_pic] and
    [new_picture_url]. *)
Definition refresh_picture (new_url : json) (pet : Pet) : M Store (string * json) :=
  let cur_url := _picture_url pet in
  let cur_pic := picture pet in
  match new_url with
  | JNull =>
      (if negb (cur_pic =? "NA")%string then remove_image_file cur_pic else ret tt) ;;
      ret ("NA", JNull)
  | _ =>
      if py_eq new_url cur_url then ret (cur_pic, cur_url)
      else
        (if negb (cur_pic =? "NA")%string then remove_image_file cur_pic else ret tt) ;;
        f <- download_image new_url ;;
        ret (match f with Some f => f | None => "NA" end, new_url)
  end.

Definition update_pet (pet_type_id name : string) (req : Request)
    : Store -> Response * Store :=
  try_except (
    ptype <- gets (fun s => find_one (has_id pet_type_id) (pet_types_collection s)) ;;
    match ptype with
    | None => ret not_found
    | Some ptype =>
        if negb (is_json req) then ret unsupported else
        data <- get_json req ;;
        missing <- lift (lacks "name" data) ;;
        if (missing : bool) then ret malformed else
        pet <- gets (fun s => find_one (pet_named pet_type_id (lower name))
                                       (pets_collection s)) ;;
        match pet with
        | None => ret not_found
        | Some pet =>
            new_name <- lift (py_item "name" data) ;;
            new_birthdate <- lift (py_get "birthdate" data) ;;
            new_url <- lift (py_get "picture-url" data) ;;
            pic <- refresh_picture new_url pet ;;
            let cur_pic := fst pic in
            let new_picture_url := snd pic in
            match new_name with
            | JStr new_name =>
                if negb (stored (set_fields new_name new_birthdate cur_pic
                                            new_picture_url pet))
                then raise else
                modify (with_pets
                          (update_one (pet_named pet_type_id (lower name))
                                      (set_fields new_name new_birthdate cur_pic
                                                  new_picture_url))) ;;
                (if negb (lower new_name =? lower name)%string then
                   modify (with_pet_types
                             (update_one (has_id pet_type_id)
                                         (with_pt_pets (pull_regex name)))) ;;
                   modify (with_pet_types
                             (update_one (has_id pet_type_id)
                                         (with_pt_pets (push new_name))))
                 else ret tt) ;;
                updated_pet <- gets (fun s => find_one (pet_named pet_type_id (lower new_name))
                                                       (pets_collection s)) ;;
                match updated_pet with
                | Some u => ret (clean_pet u, 200)
                | None => raise
                end
            | _ => raise
            end
        end
    end).

Definition delete_pet (pet_type_id name : string) (s : Store) : Response * Store :=
  match find_one (has_id pet_type_id) (pet_types_collection s) with
  | None => (not_found, s)
  | Some ptype =>
      match find_one (pet_named pet_type_id (lower name)) (pets_collection s) with
      | None => (not_found, s)
      | Some pet =>
          let s := snd (remove_image_file (picture pet) s) in
          let s := with_pets (delete_one (pet_named pet_type_id (lower name))) s in
          let s := with_pet_types
                     (update_one (has_id pet_type_id)
                                 (with_pt_pets (pull (name_of pet)))) s in
          ((JStr "", 204), s)
      end
  end.

End Handlers.

End PetStore.

(** * The pet order service (pet_order.py) *)

(** [int(val)] for a string of ASCII text: optional white space (tab,
    line feed, vertical tab, form feed, carriage return, space) around an
    optional sign and decimal digits, where single underscores may
    separate digits, and at most [MAX_STR_DIGITS] digits; [None] stands
    for ValueError. *)
Definition is_space (c : ascii) : bool :=
  let n := nat_of_ascii c in
  (Nat.leb 9 n && Nat.leb n 13) || Nat.eqb n 32.

Definition digit_of (c : ascii) : option Z :=
  let n := nat_of_ascii c in
  if (Nat.leb 48 n && Nat.leb n 57)%bool then Some (Z.of_nat n - 48) else None.

Fixpoint all_space (s : string) : bool :=
  match s with
  | EmptyString => true
  | String c r => is_space c && all_space r
  end.

Fixpoint lstrip (s : string) : string :=
  match s with
  | EmptyString => EmptyString
  | String c r => if is_space c then lstrip r else s
  end.

Fixpoint digits (s : string) (acc : Z) (after_digit : bool) : option Z :=
  match s with
  | EmptyString => if after_digit then Some acc else None
  | String c r =>
      match digit_of c with
      | Some d => digits r (10 * acc + d) true
      | None =>
          if negb after_digit then None
          else if Ascii.eqb c "_" then digits r acc false
          else if all_space s then Some acc
          else None
      end
  end.

(** The integer that [val] denotes, whatever the number of its digits. *)
Definition parse_int (val : string) : option Z :=
  match lstrip val with
  | String "-" r => option_map Z.opp (digits r 0 false)
  | String "+" r => digits r 0 false
  | s => digits s 0 false
  end.

(** The number of decimal digits in [s]. *)
Fixpoint count_digits (s : string) : Z :=
  match s with
  | EmptyString => 0
  | String c r =>
      match digit_of c with
      | Some _ => 1 + count_digits r
      | None => count_digits r
      end
  end.

(** The interpreter's limit on the digits of an integer string. *)
Definition MAX_STR_DIGITS : Z := 4300.

Definition py_int (val : string) : option Z :=
  if MAX_STR_DIGITS <? count_digits val then None else parse_int val.

Module PetOrder.

(** The base URLs of the two stores, read from the environment. *)
Inductive url : Type := PET_STORE1_URL | PET_STORE2_URL.

Definition OWNER_PASSWORD : string := "LovesPetsL2M3n4".

(** A document of [transactions_collection]. *)
Record Transaction : Type := {
  purchaser : json;
  pet_type : json;        (* "pet-type" *)
  store : json;
  purchase_id : string    (* "purchase-id" *)
}.

(** The driver can encode the transaction document: the values taken from
    the request are the purchaser, the pet type and the store. *)
Definition stored (t : Transaction) : bool :=
  encodable (purchaser t) && encodable (pet_type t) && encodable (store t).

(** An HTTP request that the service sends to a store. *)
Inductive call : Type :=
| GET_pet_types (u : url)                                    (* GET u/pet-types *)
| GET_pets (u : url) (pet_type_id : string)                  (* GET u/pet-types/id/pets *)
| DELETE_pet (u : url) (pet_type_id : string) (pet_name : string).
                                                  (* DELETE u/pet-types/id/pets/name *)

(** The state of the service: its two collections, and the requests it has
    sent so far, oldest first. *)
Record Order : Type := {
  transactions_collection : list Transaction;
  counters_collection : option Z;      (* 'seq' of the 'purchase_id' counter *)
  calls : list call
}.

Definition with_transactions (f : list Transaction -> list Transaction) (s : Order) : Order :=
  {| transactions_collection := f (transactions_collection s);
     counters_collection := counters_collection s;
     calls := calls s |}.

Definition with_counter (c : option Z) (s : Order) : Order :=
  {| transactions_collection := transactions_collection s;
     counters_collection := c;
     calls := calls s |}.

Definition send (c : call) : M Order unit :=
  modify (fun s =>
    {| transactions_collection := transactions_collection s;
       counters_collection := counters_collection s;
       calls := calls s ++ [c] |}).

(** What the stores answer, and what [random.choice] draws.  An answer
    [None] is a request that raises (no connection, a body that is not
    JSON); otherwise it is the status code and the parsed body: the
    ("type", "id") of each pet type, the "name" of each pet. *)
Record Peers : Type := {
  pet_types_of : url -> option (Z * list (string * string));
  pets_of : url -> string -> option (Z * list string);
  deleted : url -> string -> string -> option Z;
  random_index : nat
}.

Definition get_next_purchase_id : M Order string :=
  fun s =>
    let seq := inc_seq (counters_collection s) in
    (Val (str seq), with_counter (Some seq) s).

Definition get_store_url (store_num : json) : option url :=
  if py_eq store_num (JNum 1) then Some PET_STORE1_URL
  else if py_eq store_num (JNum 2) then Some PET_STORE2_URL
  else None.

Section Purchases.

Variable peers : Peers.

(** The loop [for pt in pet_types] of [find_pet_type_id]; an exception
    ([pet_type_name] is not a string) makes the function return None. *)
Fixpoint types_loop (pet_types : list (string * string)) (pet_type_name : json)
    : option string :=
  match pet_types with
  | [] => None
  | (ty, id) :: rest =>
      match py_lower pet_type_name with
      | Exc => None
      | Val l => if (lower ty =? l)%string then Some id else types_loop rest pet_type_name
      end
  end.

(** With no URL ([None]) the request raises before anything is sent. *)
Definition find_pet_type_id (store_url : option url) (pet_type_name : json)
    : M Order (option string) :=
  match store_url with
  | None => ret None
  | Some u =>
      send (GET_pet_types u) ;;
      match pet_types_of peers u with
      | None => ret None
      | Some (status_code, pet_types) =>
          if negb (status_code =? 200) then ret None
          else ret (types_loop pet_types pet_type_name)
      end
  end.

Definition get_pets_of_type (store_url : option url) (pet_type_id : string)
    : M Order (list string) :=
  match store_url with
  | None => ret []
  | Some u =>
      send (GET_pets u pet_type_id) ;;
      match pets_of peers u pet_type_id with
      | None => ret []
      | Some (status_code, pets) =>
          if negb (status_code =? 200) then ret [] else ret pets
      end
  end.

Definition delete_pet (store_url : option url) (pet_type_id pet_name : string)
    : M Order bool :=
  match store_url with
  | None => ret false
  | Some u =>
      send (DELETE_pet u pet_type_id pet_name) ;;
      match deleted peers u pet_type_id pet_name with
      | None => ret false
      | Some status_code => ret (status_code =? 204)
      end
  end.

(** A result of [find_available_pet]: (store_num, pet_type_id, pet_name). *)
Definition found : Type := (json * string * string)%type.

(** [for pet in pets: if pet.get('name', '').lower() == pet_name.lower(): return ...] *)
Fixpoint names_loop (pets : list string) (pet_name : json) : outcome (option string) :=
  match pets with
  | [] => Val None
  | n :: rest =>
      match py_lower pet_name with
      | Exc => Exc
      | Val l => if (lower n =? l)%string then Val (Some n) else names_loop rest pet_name
      end
  end.

(** The loop [for store_num, store_url in stores_to_check]: [inl] is a
    [return] from inside the loop, [inr] the list [available_pets] when the
    loop ends. *)
Fixpoint stores_loop (stores_to_check : list (json * option url))
    (pet_type_name pet_name : json) (available_pets : list found)
    : M Order (found + list found) :=
  match stores_to_check with
  | [] => ret (inr available_pets)
  | (store_num, store_url) :: rest =>
      pet_type_id <- find_pet_type_id store_url pet_type_name ;;
      match pet_type_id with
      | None => stores_loop rest pet_type_name pet_name available_pets
      | Some pet_type_id =>
          if (pet_type_id =? "")%string
          then stores_loop rest pet_type_name pet_name available_pets
          else
            pets <- get_pets_of_type store_url pet_type_id ;;
            match pets with
            | [] => stores_loop rest pet_type_name pet_name available_pets
            | _ =>
                match pet_name with
                | JNull =>
                    stores_loop rest pet_type_name pet_name
                      (available_pets ++ map (fun n => (store_num, pet_type_id, n)) pets)
                | _ =>
                    hit <- lift (names_loop pets pet_name) ;;
                    match hit with
                    | Some n => ret (inl (store_num, pet_type_id, n))
                    | None => stores_loop rest pet_type_name pet_name available_pets
                    end
                end
            end
      end
  end.

(** [random.choice(l)] *)
Definition random_choice {A : Type} (l : list A) : option A :=
  nth_error l (Nat.modulo (random_index peers) (List.length l)).

Definition find_available_pet (pet_type_name store pet_name : json)
    : M Order (option found) :=
  let stores_to_check :=
    match store with
    | JNull => [(JNum 1, Some PET_STORE1_URL); (JNum 2, Some PET_STORE2_URL)]
    | _ => [(store, get_store_url store)]
    end in
  r <- stores_loop stores_to_check pet_type_name pet_name [] ;;
  match r with
  | inl hit => ret (Some hit)
  | inr available_pets =>
      match pet_name with
      | JNull =>
          match available_pets with
          | [] => ret None
          | _ => ret (random_choice available_pets)
          end
      | _ => ret None
      end
  end.

Definition malformed : Response := (message "error" "Malformed data", 400).
Definition unavailable : Response :=
  (message "error" "No pet of this type is available", 400).

Definition allowed_fields : list string := ["purchaser"; "pet-type"; "store"; "pet-name"].

(** [set(data.keys()).issubset(allowed_fields)] *)
Definition keys_allowed (data : json) : outcome bool :=
  match data with
  | JObj kv => Val (forallb (fun k => existsb (String.eqb k) allowed_fields) (map fst kv))
  | _ => Exc
  end.

(** *** POST /purchases *)

Definition create_purchase (req : Request) : Order -> Response * Order :=
  try_except (
    if negb (is_json req)
    then ret (message "error" "Expected application/json media type", 415) else
    data <- get_json req ;;
    if negb (truthy data) then ret malformed else
    has_purchaser <- lift (py_in "purchaser" data) ;;
    has_type <- (if (has_purchaser : bool) then lift (py_in "pet-type" data) else ret false) ;;
    if negb has_purchaser || negb has_type then ret malformed else
    allowed <- lift (keys_allowed data) ;;
    if negb allowed then ret malformed else
    purchaser <- lift (py_item "purchaser" data) ;;
    pet_type <- lift (py_item "pet-type" data) ;;
    store <- lift (py_get "store" data) ;;
    pet_name <- lift (py_get "pet-name" data) ;;
    let store_is_none := match store with JNull => true | _ => false end in
    let pet_name_is_none := match pet_name with JNull => true | _ => false end in
    if negb store_is_none && negb (py_eq store (JNum 1) || py_eq store (JNum 2))
    then ret malformed else
    if negb pet_name_is_none && store_is_none then ret malformed else
    result <- find_available_pet pet_type store pet_name ;;
    match result with
    | None => ret unavailable
    | Some (chosen_store, pet_type_id, chosen_pet_name) =>
        let store_url := get_store_url chosen_store in
        ok <- delete_pet store_url pet_type_id chosen_pet_name ;;
        if negb ok then ret unavailable else
        purchase_id <- get_next_purchase_id ;;
        let purchase :=
          JObj [("purchaser", purchaser);
                ("pet-type", pet_type);
                ("store", chosen_store);
                ("pet-name", JStr chosen_pet_name);
                ("purchase-id", JStr purchase_id)] in
        let transaction :=
          {| purchaser := purchaser;
             pet_type := pet_type;
             store := chosen_store;
             purchase_id := purchase_id |} in
        if negb (stored transaction) then raise else
        modify (with_transactions (insert_one transaction)) ;;
        ret (purchase, 201)
    end).

End Purchases.

(** *** GET /transactions *)

(** The query built from the parameters. *)
Record Query : Type := {
  q_store : option Z;
  q_purchaser : option string;
  q_pet_type : option string;        (* the pattern "^val$", option i *)
  q_purchase_id : option string
}.

Definition empty_query : Query :=
  {| q_store := None; q_purchaser := None; q_pet_type := None; q_purchase_id := None |}.

(** The loop [for key, val in params.items()]; [int(val)] may raise. *)
Fixpoint build_query (params : list (string * string)) (query : Query) : outcome Query :=
  match params with
  | [] => Val query
  | (key, val) :: rest =>
      if (key =? "store")%string then
        match py_int val with
        | None => Exc
        | Some n =>
            build_query rest
              {| q_store := Some n; q_purchaser := q_purchaser query;
                 q_pet_type := q_pet_type query; q_purchase_id := q_purchase_id query |}
        end
      else if (key =? "purchaser")%string then
        build_query rest
          {| q_store := q_store query; q_purchaser := Some val;
             q_pet_type := q_pet_type query; q_purchase_id := q_purchase_id query |}
      else if (key =? "pet-type")%string then
        build_query rest
          {| q_store := q_store query; q_purchaser := q_purchaser query;
             q_pet_type := Some ("^" ++ val ++ "$")%string;
             q_purchase_id := q_purchase_id query |}
      else if (key =? "purchase-id")%string then
        build_query rest
          {| q_store := q_store query; q_purchaser := q_purchaser query;
             q_pet_type := q_pet_type query; q_purchase_id := Some val |}
      else build_query rest query
  end.

Section Transactions.

(** The regular expressions of the database: [regex p] is [None] when [p]
    is not a pattern, otherwise the strings that [p] matches with option i. *)
Variable regex : string -> option (string -> bool).

(** A query value [x] matches a field that equals it, or an array field
    with an element that does. *)
Definition field_is (test : json -> bool) (field : json) : bool :=
  test field || match field with JArr l => existsb test l | _ => false end.

Definition is_num (n : Z) (v : json) : bool :=
  match v with JNum m => m =? n | _ => false end.

Definition is_str (test : string -> bool) (v : json) : bool :=
  match v with JStr s => test s | _ => false end.

Definition on (A : Type) (q : option A) (test : A -> bool) : bool :=
  match q with
  | None => true
  | Some x => test x
  end.

(** [transactions_collection.find(query)]; a store number that the driver
    cannot encode, or a pattern that does not compile, makes the call
    raise. *)
Definition find (query : Query) (c : list Transaction) : outcome (list Transaction) :=
  if negb (on Z (q_store query) int64) then Exc else
  match
    match q_pet_type query with
    | None => Some (fun _ : string => true)
    | Some p => regex p
    end
  with
  | None => Exc
  | Some like =>
      Val (filter (fun t =>
             on Z (q_store query) (fun n => field_is (is_num n) (store t)) &&
             on string (q_purchaser query)
                (fun x => field_is (is_str (String.eqb x)) (purchaser t)) &&
             on string (q_pet_type query) (fun _ => field_is (is_str like) (pet_type t)) &&
             on string (q_purchase_id query) (fun x => (purchase_id t =? x)%string)) c)
  end.

Definition view (t : Transaction) : json :=
  JObj [("purchaser", purchaser t);
        ("pet-type", pet_type t);
        ("store", store t);
        ("purchase-id", JStr (purchase_id t))].

(** Flask answers an exception that leaves the handler with status 500. *)
Definition internal_server_error : Response := (JStr "Internal Server Error", 500).

Definition get_transactions (req : Request) (s : Order) : Response * Order :=
  if negb (match owner_pc req with
           | Some h => (h =? OWNER_PASSWORD)%string
           | None => false
           end)
  then ((message "error" "unauthorized", 401), s)
  else
    match build_query (args req) empty_query with
    | Exc => (internal_server_error, s)
    | Val query =>
        match find query (transactions_collection s) with
        | Exc => (internal_server_error, s)
        | Val transactions => ((JArr (map view transactions), 200), s)
        end
    end.

End Transactions.

End PetOrder.

(** * The pet store service, continued: the creation of pet types *)

Module PetTypes.
Import PetStore.

(** [\d] and [\w] on a text of ASCII characters (on other characters the
    classes of Python are wider: they hold the digits and the letters of
    every script). *)
Definition is_digit (c : ascii) : bool :=
  match digit_of c with Some _ => true | None => false end.

Definition is_word (c : ascii) : bool :=
  let n := nat_of_ascii c in
  (Nat.leb 48 n && Nat.leb n 57) || (Nat.leb 65 n && Nat.leb n 90) ||
  (Nat.leb 97 n && Nat.leb n 122) || Nat.eqb n 95.

(** [re.findall] of a pattern that matches the maximal non-empty runs of
    the characters [p] ([\d+], [\b\w+\b]); [cur] is the run being read. *)
Fixpoint findall (p : ascii -> bool) (text : string) (cur : string) : list string :=
  match text with
  | EmptyString => if (cur =? "")%string then [] else [cur]
  | String c r =>
      if p c then findall p r (cur ++ String c "")%string
      else if (cur =? "")%string then findall p r ""
      else cur :: findall p r ""
  end.

(** [int(n) for n in numbers]; [int] raises on a run of more than
    [MAX_STR_DIGITS] digits. *)
Fixpoint ints (numbers : list string) : outcome (list Z) :=
  match numbers with
  | [] => Val []
  | n :: rest =>
      match py_int n with
      | None => Exc
      | Some v =>
          match ints rest with
          | Exc => Exc
          | Val l => Val (v :: l)
          end
      end
  end.

(** [min] of a non-empty sequence ([None] stands for no element). *)
Fixpoint minimum (l : list Z) : option Z :=
  match l with
  | [] => None
  | x :: r =>
      match minimum r with
      | None => Some x
      | Some m => Some (Z.min x m)
      end
  end.

(** [text] is a string, or None. *)
Definition parse_lifespan (text : option string) : outcome (option Z) :=
  match text with
  | None => Val None
  | Some t =>
      if (t =? "")%string then Val None
      else
        let numbers := findall is_digit t "" in
        match numbers with
        | [] => Val None
        | _ =>
            match ints numbers with
            | Exc => Exc
            | Val l => Val (minimum l)
            end
        end
  end.

Definition extract_words (text : option string) : list string :=
  match text with
  | None => []
  | Some t => if (t =? "")%string then [] else findall is_word t ""
  end.

(** An entry of the answer of the animals service, as the service
    documents it: its "name", if any, and its "characteristics" and
    "taxonomy", objects of strings (empty when absent). *)
Record Animal : Type := {
  animal_name : option string;
  characteristics : list (string * string);
  taxonomy : list (string * string)
}.

(** [len(data)] *)
Definition py_len (data : json) : outcome nat :=
  match data with
  | JObj kv => Val (List.length kv)
  | JArr l => Val (List.length l)
  | JStr s => Val (String.length s)
  | _ => Exc
  end.

(** [not data or 'type' not in data or len(data) != 1] *)
Definition not_one_type (data : json) : outcome bool :=
  match lacks "type" data with
  | Exc => Exc
  | Val true => Val true
  | Val false =>
      match py_len data with
      | Exc => Exc
      | Val n => Val (negb (Nat.eqb n 1))
      end
  end.

(** [d.get(key)] is a non-empty string *)
Definition filled (key : string) (d : list (string * string)) : bool :=
  match assoc key d with
  | Some v => negb (v =? "")%string
  | None => false
  end.

(** [d.get(key, "")] *)
Definition get_or_empty (key : string) (d : list (string * string)) : string :=
  match assoc key d with
  | Some v => v
  | None => ""
  end.

Section Creation.

(** The animals service: [animals name] is the status code and the parsed
    body of the answer to the query for [name] (after the retry without
    certificate check, if the first attempt fails on it), [Exc] when the
    request or the parsing of a 200 answer raises. *)
Variable animals : string -> outcome (Z * list Animal).

(** The filter [{'type': {'$regex': '^' + re.escape(requested_type) + '$',
    '$options': 'i'}}] *)
Definition type_like (requested_type : string) (pt : PetType) : bool :=
  matches_i requested_type (pt_type pt).

(** The loop [for item in results] that looks for [chosen]. *)
Fixpoint choose (results : list Animal) (requested_type : string) : option Animal :=
  match results with
  | [] => None
  | item :: rest =>
      let n := match animal_name item with Some n => n | None => "" end in
      if (lower n =? lower requested_type)%string then Some item
      else choose rest requested_type
  end.

Definition type_not_found : Response := (message "error" "Pet type not found", 400).

(** *** POST /pet-types *)

Definition add_pet_type (req : Request) : Store -> Response * Store :=
  try_except (
    if negb (is_json req) then ret unsupported else
    data <- get_json req ;;
    bad <- lift (not_one_type data) ;;
    if (bad : bool) then ret malformed else
    requested <- lift (py_item "type" data) ;;
    match requested with
    | JStr requested_type =>
        existing <- gets (fun s => find_one (type_like requested_type)
                                            (pet_types_collection s)) ;;
        match existing with
        | Some _ => ret (message "error" "Pet type already exists", 400)
        | None =>
            resp <- lift (animals requested_type) ;;
            let status_code := fst resp in
            let results := snd resp in
            if negb (status_code =? 200)
            then ret (message "server error"
                        ("API response code " ++ str status_code)%string, 500) else
            match results with
            | [] => ret type_not_found
            | _ =>
                match choose results requested_type with
                | None => ret type_not_found
                | Some chosen =>
                    new_id <- get_next_pet_type_id ;;
                    let chars := characteristics chosen in
                    lifespan <-
                      match assoc "lifespan" chars with
                      | Some text => lift (parse_lifespan (Some text))
                      | None => ret None
                      end ;;
                    let attrs :=
                      if filled "temperament" chars
                      then extract_words (assoc "temperament" chars)
                      else if filled "group_behavior" chars
                      then extract_words (assoc "group_behavior" chars)
                      else [] in
                    let family := get_or_empty "family" (taxonomy chosen) in
                    let genus := get_or_empty "genus" (taxonomy chosen) in
                    let ptype :=
                      match animal_name chosen with
                      | Some n => n
                      | None => requested_type
                      end in
                    let new_ptype :=
                      {| pt_id := new_id;
                         pt_type := ptype;
                         pt_family := family;
                         pt_genus := genus;
                         pt_attributes := attrs;
                         pt_lifespan := lifespan;
                         pt_pets := [] |} in
                    if negb (stored_type new_ptype) then raise else
                    modify (with_pet_types (insert_one new_ptype)) ;;
                    ret (clean_pet_type new_ptype, 201)
                end
            end
        end
    | _ => raise
    end).

End Creation.

(** *** PUT /pet-types/<pet_type_id> *)

Definition put_not_allowed (pet_type_id : string) (s : Store) : Response * Store :=
  ((message "error" "Can not update pet type", 405), s).

End PetTypes.

(** * The pet store as a whole: requests and the states they lead to *)

Module Service.
Import PetStore PetTypes.

(** A request to the pet store, with what the outside world answers while
    it is served. *)
Inductive request : Type :=
| GET_pet_types (req : Request)
| POST_pet_types (animals : string -> outcome (Z * list Animal)) (req : Request)
| GET_pet_type (pet_type_id : string)
| DELETE_pet_type (pet_type_id : string)
| PUT_pet_type (pet_type_id : string)
| POST_pets (fetch : string -> option string) (pet_type_id : string) (req : Request)
| GET_pets (strptime : string -> option Z) (pet_type_id : string) (req : Request)
| GET_pet (pet_type_id name : string)
| PUT_pet (fetch : string -> option string) (pet_type_id name : string) (req : Request)
| DELETE_pet (pet_type_id name : string).

(** The routes of the application. *)
Definition serve (r : request) : Store -> Response * Store :=
  match r with
  | GET_pet_types req => get_pet_types req
  | POST_pet_types animals req => add_pet_type animals req
  | GET_pet_type id => get_pet_type_by_id id
  | DELETE_pet_type id => delete_pet_type id
  | PUT_pet_type id => put_not_allowed id
  | POST_pets fetch id req => add_pet fetch id req
  | GET_pets strptime id req => get_pets strptime id req
  | GET_pet id name => get_pet_by_name id name
  | PUT_pet fetch id name req => update_pet fetch id name req
  | DELETE_pet id name => delete_pet id name
  end.


(** The state after a sequence of requests. *)
Fixpoint run (rs : list request) (s : Store) : Store :=
  match rs with
  | [] => s
  | r :: rest => run rest (snd (serve r s))
  end.

(** A new store: empty collections, no counter, no image. *)
Definition new_store : Store :=
  {| pet_types_collection := []; pets_collection := [];
     counters_collection := None; images := [] |}.

End Service.

(** * Properties: definitions *)

(** The identifiers that [k] successive calls of a generator return. *)
Fixpoint generated {S : Type} (gen : M S string) (k : nat) (s : S) : list string :=
  match k with
  | O => []
  | Datatypes.S k' =>
      match gen s with
      | (Val id, s') => id :: generated gen k' s'
      | (Exc, _) => []
      end
  end.

(** The value of a counter: 0 before the counter document exists. *)
Definition seq_of (counter : option Z) : Z :=
  match counter with Some n => n | None => 0 end.

(** An identifier list is increasing: every entry is the decimal string of
    a number, and a later entry is the string of a strictly greater number
    than an earlier one (hence a different string). *)
Definition increasing_ids (ids : list string) : Prop :=
  forall i j : nat, (i < j < List.length ids)%nat ->
    exists a b : Z,
      nth_error ids i = Some (str a) /\ nth_error ids j = Some (str b) /\
      a < b /\ str a <> str b.

(** Two strings are equal up to letter case. *)
Definition same_ci (a b : string) : bool := (lower a =? lower b)%string.

Module Filter.
Import PetStore.

(** What it means for a pet type to match one query parameter of
    GET /pet-types, in the words of the specification: 'id', 'type',
    'family' and 'genus' are compared case-insensitively, 'hasAttribute'
    asks for case-insensitive membership in the attribute list, 'lifespan'
    for the exact string of the stored value, which a null lifespan never
    gives.  Any other parameter asks for nothing. *)
Definition matches (ptype : PetType) (param : string * string) : bool :=
  let (key, val) := param in
  if (key =? "id")%string then same_ci (pt_id ptype) val
  else if (key =? "type")%string then same_ci (pt_type ptype) val
  else if (key =? "family")%string then same_ci (pt_family ptype) val
  else if (key =? "genus")%string then same_ci (pt_genus ptype) val
  else if (key =? "hasAttribute")%string then existsb (same_ci val) (pt_attributes ptype)
  else if (key =? "lifespan")%string then
    match pt_lifespan ptype with
    | Some n => (str n =? val)%string
    | None => false
    end
  else true.

Definition matches_all (params : list (string * string)) (ptype : PetType) : bool :=
  forallb (matches ptype) params.

End Filter.

Module Invariants.
Import PetStore.

(** The denormalized 'pets' list of every pet type holds exactly the names
    of the pet documents of that type. *)
Definition mirrors (s : Store) : Prop :=
  forall pt, In pt (pet_types_collection s) ->
    forall n, In n (pt_pets pt) <->
              exists p, In p (pets_collection s) /\ pet_type_id p = pt_id pt /\ name p = n.

(** The lowercased names of the pet documents of the type [tid]. *)
Definition names_ci (tid : string) (s : Store) : list string :=
  map (fun p => lower (name p)) (filter (of_type tid) (pets_collection s)).

(** No pet type has two pets whose names are equal up to letter case. *)
Definition names_unique (s : Store) : Prop :=
  forall tid, NoDup (names_ci tid s).

(** The same for the denormalized lists. *)
Definition lists_unique (s : Store) : Prop :=
  forall pt, In pt (pet_types_collection s) -> NoDup (map lower (pt_pets pt)).

End Invariants.

Module Examples.
Import PetStore.

Definition no_fetch (url : string) : option string := None.


Definition pet (tid n : string) : Pet :=
  {| pet_type_id := tid; name := n; name_lower := lower n;
     birthdate := JStr "NA"; picture := "NA"; _picture_url := JNull |}.

Definition dog (pets : list string) : PetType :=
  {| pt_id := "1"; pt_type := "Dog"; pt_family := "Canidae"; pt_genus := "Canis";
     pt_attributes := ["Loyal"]; pt_lifespan := Some 12; pt_pets := pets |}.

Definition cat : PetType :=
  {| pt_id := "2"; pt_type := "Cat"; pt_family := "Felidae"; pt_genus := "Felis";
     pt_attributes := []; pt_lifespan := None; pt_pets := [] |}.

(** One dog, Rex, and no cat. *)
Definition kennel : Store :=
  {| pet_types_collection := [dog ["Rex"]; cat];
     pets_collection := [pet "1" "Rex"];
     counters_collection := Some 2;
     images := [] |}.

(** Two dogs, Rex and Max. *)
Definition kennel2 : Store :=
  {| pet_types_collection := [dog ["Rex"; "Max"]; cat];
     pets_collection := [pet "1" "Rex"; pet "1" "Max"];
     counters_collection := Some 2;
     images := [] |}.

(** A PUT or POST with the JSON body [{"name": n}]. *)
Definition named (n : string) : Request :=
  {| content_type := Some "application/json";
     body := Some (JObj [("name", JStr n)]);
     args := [];
     owner_pc := None |}.

End Examples.

Module Purchases.
Import PetOrder.

(** The collections of the order service are the same in [s] and [s']. *)
Definition same_db (s s' : Order) : Prop :=
  transactions_collection s' = transactions_collection s /\
  counters_collection s' = counters_collection s.

(** A computation that does not touch the collections. *)
Definition keeps {A : Type} (m : M Order A) : Prop :=
  forall s, same_db s (snd (m s)).


(** The state [s] after the requests [q] have been sent. *)
Definition sent (q : list call) (s : Order) : Order :=
  {| transactions_collection := transactions_collection s;
     counters_collection := counters_collection s;
     calls := calls s ++ q |}.

(** The requests [q] are a lookup at the store [u]: its pet types, then
    possibly the pets of one of its pet types. *)
Definition lookup_at (u : url) (q : list call) : Prop :=
  q = [GET_pet_types u] \/ exists id, q = [GET_pet_types u; GET_pets u id].

(** The requests [q] are a lookup at store 1 followed by a lookup at
    store 2. *)
Definition store1_then_store2 (q : list call) : Prop :=
  exists q1 q2, q = q1 ++ q2 /\ lookup_at PET_STORE1_URL q1 /\ lookup_at PET_STORE2_URL q2.

(** The request has no 'store' field. *)
Definition no_store_field (req : Request) : Prop :=
  match body req with
  | Some (JObj kv) => assoc "store" kv = None
  | _ => True
  end.

(** In answering [req] from the state [s] the service sends a lookup at
    store 1, a lookup at store 2, and then at most one deletion. *)
Definition queries_both_stores (peers : Peers) (req : Request) (s : Order) : Prop :=
  exists q d,
    calls (snd (create_purchase peers req s)) = calls s ++ q ++ d /\
    store1_then_store2 q /\
    (d = [] \/ exists u id n, d = [DELETE_pet u id n]).

(** On a 201 answer the service has sent, last, exactly one deletion, for
    the pet that the answer names in the store that it names, and has
    recorded exactly one transaction, the one of the answer. *)
Definition one_deletion_one_transaction (peers : Peers) (req : Request) (s : Order) : Prop :=
  let r := create_purchase peers req s in
  exists q u id n t,
    calls (snd r) = calls s ++ q ++ [DELETE_pet u id n] /\
    (forall c, In c q -> match c with DELETE_pet _ _ _ => False | _ => True end) /\
    get_store_url (store t) = Some u /\
    fst (fst r) = JObj [("purchaser", purchaser t); ("pet-type", pet_type t);
                        ("store", store t); ("pet-name", JStr n);
                        ("purchase-id", JStr (purchase_id t))] /\
    transactions_collection (snd r) = transactions_collection s ++ [t].

(** The request passes the checks of [create_purchase] and has neither a
    'store' nor a 'pet-name': the content type is application/json and the
    body is an object with a 'purchaser', a 'pet-type' and no field other
    than the four allowed ones. *)
Definition accepted_without_store (req : Request) : bool :=
  is_json req &&
  match body req with
  | Some (JObj kv) =>
      match assoc "purchaser" kv, assoc "pet-type" kv with
      | Some _, Some _ =>
          forallb (fun k => existsb (String.eqb k) allowed_fields) (map fst kv) &&
          match assoc "store" kv with None => true | Some _ => false end &&
          match assoc "pet-name" kv with None | Some JNull => true | Some _ => false end
      | _, _ => false
      end
  | _ => false
  end.

End Purchases.

Module OrderExamples.
Import PetOrder.

Definition empty : Order :=
  {| transactions_collection := []; counters_collection := None; calls := [] |}.

(** Store 1 has the pet type Dog with the pet Rex, store 2 has no pet
    type; deletions succeed. *)
Definition peers : Peers :=
  {| pet_types_of := fun u =>
       match u with
       | PET_STORE1_URL => Some (200, [("Dog", "1")])
       | PET_STORE2_URL => Some (200, [])
       end;
     pets_of := fun u id =>
       match u with
       | PET_STORE1_URL => Some (200, ["Rex"])
       | PET_STORE2_URL => Some (404, [])
       end;
     deleted := fun _ _ _ => Some 204;
     random_index := 0 |}.

(** A purchase of a dog, with the given content type. *)
Definition buy_dog (ctype : string) : Request :=
  {| content_type := Some ctype;
     body := Some (JObj [("purchaser", JStr "Ann"); ("pet-type", JStr "dog")]);
     args := [];
     owner_pc := None |}.


(** GET /transactions?store=abc with the owner's token. *)
Definition store_abc : Request :=
  {| content_type := None;
     body := None;
     args := [("store", "abc")];
     owner_pc := Some OWNER_PASSWORD |}.

End OrderExamples.

Module StoreInvariants.
Import PetStore.

(** The two collections are the same in [s] and [s']. *)
Definition same_collections (s s' : Store) : Prop :=
  pet_types_collection s' = pet_types_collection s /\
  pets_collection s' = pets_collection s.

(** The ids of the pet types are distinct, and each is the decimal string
    of a number that the counter has reached. *)
Definition ids_issued (s : Store) : Prop :=
  NoDup (map pt_id (pet_types_collection s)) /\
  forall i, In i (map pt_id (pet_types_collection s)) ->
    exists n, i = str n /\ n <= seq_of (counters_collection s).

(** No two pet types have names equal up to letter case. *)
Definition types_unique (s : Store) : Prop :=
  NoDup (map (fun pt => lower (pt_type pt)) (pet_types_collection s)).

(** The states [s] and [s'] have the same counter, and pet types with the
    same ids and names, in the same order. *)
Definition same_types (s s' : Store) : Prop :=
  map pt_id (pet_types_collection s') = map pt_id (pet_types_collection s) /\
  map pt_type (pet_types_collection s') = map pt_type (pet_types_collection s) /\
  counters_collection s' = counters_collection s.

(** The lowercase name field of every pet is the lowercase of its name. *)
Definition lower_names (s : Store) : Prop :=
  forall p, In p (pets_collection s) -> name_lower p = lower (name p).

End StoreInvariants.

Module Text.

(** Every character of [s] satisfies [p]. *)
Fixpoint all_chars (p : ascii -> bool) (s : string) : bool :=
  match s with
  | EmptyString => true
  | String c r => p c && all_chars p r
  end.

(** The characters of [s] that satisfy [p], in order. *)
Fixpoint keep (p : ascii -> bool) (s : string) : string :=
  match s with
  | EmptyString => EmptyString
  | String c r => if p c then String c (keep p r) else keep p r
  end.

(** The strings of [l] one after the other. *)
Definition join (l : list string) : string := fold_right String.append "" l.

(** [text], or the empty string for None. *)
Definition text_of (text : option string) : string :=
  match text with
  | Some t => t
  | None => ""
  end.

(** Every character of [s] is an ASCII character. *)
Definition is_ascii (s : string) : bool :=
  all_chars (fun c => Nat.ltb (nat_of_ascii c) 128) s.

(** [s] is empty or starts with a character that does not satisfy [p]. *)
Definition starts_outside (p : ascii -> bool) (s : string) : bool :=
  match s with
  | EmptyString => true
  | String c _ => negb (p c)
  end.

(** [words] are the maximal non-empty runs of characters that satisfy [p]
    in a text, in order: the text is a gap without such a character, then,
    for each word, the word followed by a text that does not go on with
    such a character and holds the remaining words in the same way. *)
Inductive runs (p : ascii -> bool) : string -> list string -> Prop :=
| runs_gap (gap : string) :
    all_chars (fun c => negb (p c)) gap = true -> runs p gap []
| runs_word (gap w rest : string) (words : list string) :
    all_chars (fun c => negb (p c)) gap = true ->
    w <> "" -> all_chars p w = true ->
    starts_outside p rest = true ->
    runs p rest words ->
    runs p (gap ++ w ++ rest) (w :: words).

End Text.

Module Births.
Import PetStore.

(** The pet has a birthdate that the parser reads as a day strictly after
    [date_gt] and strictly before [date_lt], for the bounds that are
    given. *)
Definition born_between (strptime : string -> option Z) (date_gt date_lt : option Z)
    (p : Pet) : bool :=
  match parse_date strptime (birthdate p) with
  | Some day =>
      negb (py_eq (birthdate p) (JStr "NA")) &&
      match date_gt with Some d => d <? day | None => true end &&
      match date_lt with Some d => day <? d | None => true end
  | None => false
  end.

End Births.

(** * The pet order service as a whole *)

Module OrderService.
Import PetOrder.

(** A request to the order service, with what the outside world answers
    while it is served. *)
Inductive request : Type :=
| POST_purchases (peers : Peers) (req : Request)
| GET_transactions (regex : string -> option (string -> bool)) (req : Request).

(** The routes of the application. *)
Definition serve (r : request) : Order -> Response * Order :=
  match r with
  | POST_purchases peers req => create_purchase peers req
  | GET_transactions regex req => get_transactions regex req
  end.

(** The state after a sequence of requests. *)
Fixpoint run (rs : list request) (s : Order) : Order :=
  match rs with
  | [] => s
  | r :: rest => run rest (snd (serve r s))
  end.

(** A new service: no transaction, no counter, nothing sent. *)
Definition new_order : Order :=
  {| transactions_collection := []; counters_collection := None; calls := [] |}.

(** The purchase ids of the transactions are distinct, and each is the
    decimal string of a number that the counter has reached. *)
Definition ids_recorded (s : Order) : Prop :=
  NoDup (map purchase_id (transactions_collection s)) /\
  forall i, In i (map purchase_id (transactions_collection s)) ->
    exists n, i = str n /\ n <= seq_of (counters_collection s).

(** A computation that leaves the collections as they are, or returns a
    201 response after it has taken the next purchase id and recorded one
    transaction with it, or raises after it has taken the next purchase id
    and recorded nothing. *)
Definition records (m : M Order Response) : Prop :=
  forall s,
    Purchases.same_db s (snd (m s)) \/
    (exists t body,
       fst (m s) = Val (body, 201) /\
       purchase_id t = str (inc_seq (counters_collection s)) /\
       counters_collection (snd (m s)) = Some (inc_seq (counters_collection s)) /\
       transactions_collection (snd (m s)) = transactions_collection s ++ [t]) \/
    (fst (m s) = Exc /\
     counters_collection (snd (m s)) = Some (inc_seq (counters_collection s)) /\
     transactions_collection (snd (m s)) = transactions_collection s).

(** The store that a request is sent to. *)
Definition call_url (c : call) : url :=
  match c with
  | GET_pet_types u | GET_pets u _ | DELETE_pet u _ _ => u
  end.

Definition is_delete (c : call) : bool :=
  match c with
  | DELETE_pet _ _ _ => true
  | _ => false
  end.

(** The pet [x] = (store, pet type id, name) is on offer for the pet type
    name [pet_type_name]: the store answers 200 with a list of pet types
    in which the first one of that name, up to case, has the id of [x],
    and answers 200 with a list of the pets of that id that holds the
    name of [x]. *)
Definition offered (peers : Peers) (pet_type_name : json) (x : found) : Prop :=
  let '(store_num, pet_type_id, pet_name) := x in
  exists u types pets,
    get_store_url store_num = Some u /\
    pet_types_of peers u = Some (200, types) /\
    types_loop types pet_type_name = Some pet_type_id /\
    pets_of peers u pet_type_id = Some (200, pets) /\
    In pet_name pets.

(** The pet [x] has the name asked for, up to case, if one is asked for. *)
Definition named (pet_name : json) (x : found) : Prop :=
  match pet_name with
  | JNull => True
  | JStr w => lower (snd x) = lower w
  | _ => False
  end.

(** The field [key] of a JSON object, None when it is absent or null. *)
Definition field (key : string) (kv : list (string * json)) : json :=
  match assoc key kv with
  | Some v => v
  | None => JNull
  end.

(** The store numbers that [find_available_pet] checks for the 'store' of
    a request. *)
Definition stores_for (store : json) : list json :=
  match store with
  | JNull => [JNum 1; JNum 2]
  | _ => [store]
  end.

(** Every request of [q] goes to the store of one of the numbers [nums],
    and none is a deletion. *)
Definition lookups_of (nums : list json) (q : list call) : Prop :=
  forall c, In c q ->
    is_delete c = false /\
    exists n, In n nums /\ get_store_url n = Some (call_url c).

(** What the loop over the stores [nums] has done when it ends in [r],
    from the state [s] and the list [available]: it has sent lookups to
    these stores, and the pet it returns, or every pet it has added to the
    list, is on offer in one of them. *)
Definition loop_done (peers : Peers) (pet_type_name pet_name : json) (nums : list json)
    (available : list found) (s : Order) (r : outcome (found + list found) * Order)
    : Prop :=
  exists q,
    calls (snd r) = calls s ++ q /\
    Purchases.same_db s (snd r) /\
    lookups_of nums q /\
    match fst r with
    | Val (inl x) =>
        offered peers pet_type_name x /\ In (fst (fst x)) nums /\ named pet_name x
    | Val (inr l) =>
        forall x, In x l ->
          In x available \/ (offered peers pet_type_name x /\ In (fst (fst x)) nums)
    | Exc => True
    end.

(** The store numbers that a purchase request may concern: those of its
    'store' field when the body is an object, none otherwise. *)
Definition asked (req : Request) : list json :=
  match body req with
  | Some (JObj kv) => stores_for (field "store" kv)
  | _ => []
  end.

End OrderService.

(** * Further example stores and requests *)

Module StoreExamples.
Import PetStore PetTypes.

(** An animals service that knows one animal, the dog. *)
Definition zoo (name : string) : outcome (Z * list Animal) :=
  Val (200, [{| animal_name := Some "Dog";
                characteristics := [("temperament", "Loyal and friendly");
                                    ("lifespan", "10 - 12 years")];
                taxonomy := [("family", "Canidae"); ("genus", "Canis")] |}]).

(** A POST with the JSON body [{"type": t}]. *)
Definition typed (t : string) : Request :=
  {| content_type := Some "application/json";
     body := Some (JObj [("type", JStr t)]);
     args := [];
     owner_pc := None |}.

(** The date parser on the dates of the examples, 3, 5 and 7 January
    2020, each with the number of its day (its proleptic Gregorian
    ordinal); it is not asked for another string. *)
Definition january_2020 (s : string) : option Z :=
  if (s =? "03-01-2020")%string then Some 737427
  else if (s =? "05-01-2020")%string then Some 737429
  else if (s =? "07-01-2020")%string then Some 737431
  else None.

Definition born (tid n day : string) : Pet :=
  {| pet_type_id := tid; name := n; name_lower := lower n;
     birthdate := JStr day; picture := "NA"; _picture_url := JNull |}.

(** Two dogs, Rex born on 3 January 2020 and Max born on 7 January 2020. *)
Definition litter : Store :=
  {| pet_types_collection := [Examples.dog ["Rex"; "Max"]; Examples.cat];
     pets_collection := [born "1" "Rex" "03-01-2020"; born "1" "Max" "07-01-2020"];
     counters_collection := Some 2;
     images := [] |}.

(** A GET with the query parameter [birthdateGT=day]. *)
Definition born_after (day : string) : Request :=
  {| content_type := None;
     body := None;
     args := [("birthdateGT", day)];
     owner_pc := None |}.

End StoreExamples.

Module LookupExamples.
Import PetOrder.

(** GET /transactions?key=val with the owner's token. *)
Definition lookup (key val : string) : Request :=
  {| content_type := None;
     body := None;
     args := [(key, val)];
     owner_pc := Some OWNER_PASSWORD |}.

(** A database that takes no string for a pattern. *)
Definition no_regex (p : string) : option (string -> bool) := None.

End LookupExamples.

(** * Properties: proofs *)

(** ** Collections *)

Section CollectionFacts.
Context {A : Type}.
Variable f : A -> bool.

Lemma find_one_none (c : list A) :
  (forall d, In d c -> f d = false) -> find_one f c = None.
Proof.
  induction c as [|d r IH]; intros H; [reflexivity|].
  cbn. rewrite (H d (or_introl eq_refl)). apply IH.
  intros q Hq. apply H. now right.
Qed.

Lemma find_one_first (l1 l2 : list A) (d : A) :
  (forall q, In q l1 -> f q = false) -> f d = true ->
  find_one f (l1 ++ d :: l2) = Some d.
Proof.
  induction l1 as [|x l1 IH]; intros H Hd; cbn.
  - now rewrite Hd.
  - rewrite (H x (or_introl eq_refl)). apply IH; [|exact Hd].
    intros q Hq. apply H. now right.
Qed.

Lemma delete_one_first (l1 l2 : list A) (d : A) :
  (forall q, In q l1 -> f q = false) -> f d = true ->
  delete_one f (l1 ++ d :: l2) = l1 ++ l2.
Proof.
  induction l1 as [|x l1 IH]; intros H Hd; cbn.
  - now rewrite Hd.
  - rewrite (H x (or_introl eq_refl)). f_equal. apply IH; [|exact Hd].
    intros q Hq. apply H. now right.
Qed.

Lemma update_one_first (u : A -> A) (l1 l2 : list A) (d : A) :
  (forall q, In q l1 -> f q = false) -> f d = true ->
  update_one f u (l1 ++ d :: l2) = l1 ++ u d :: l2.
Proof.
  induction l1 as [|x l1 IH]; intros H Hd; cbn.
  - now rewrite Hd.
  - rewrite (H x (or_introl eq_refl)). f_equal. apply IH; [|exact Hd].
    intros q Hq. apply H. now right.
Qed.

End CollectionFacts.

Lemma find_one_some {A : Type} (f : A -> bool) (c : list A) (d : A) :
  In d c -> f d = true -> exists d', find_one f c = Some d' /\ f d' = true.
Proof.
  induction c as [|x r IH]; intros Hin Hd; [destruct Hin|].
  cbn. destruct (f x) eqn:Hx.
  - now exists x.
  - destruct Hin as [->|Hin]; [congruence|]. now apply IH.
Qed.

Lemma find_one_split {A : Type} (f : A -> bool) (c : list A) (d : A) :
  find_one f c = Some d ->
  f d = true /\ exists l1 l2, c = l1 ++ d :: l2 /\ forall q, In q l1 -> f q = false.
Proof.
  induction c as [|x r IH]; cbn; [discriminate|].
  destruct (f x) eqn:Hx.
  - intros E. injection E as <-. split; [exact Hx|]. exists [], r. split; [reflexivity|].
    intros q [].
  - intros E. destruct (IH E) as [Hd [l1 [l2 [-> Hl1]]]]. split; [exact Hd|].
    exists (x :: l1), l2. split; [reflexivity|].
    intros q [<-|Hq]; [exact Hx | now apply Hl1].
Qed.

(** ** Decimal strings *)

Lemma str_inj (a b : Z) : str a = str b -> a = b.
Proof.
  unfold str. intros H.
  apply (f_equal NilEmpty.int_of_string) in H.
  rewrite !NilEmpty.isi in H.
  injection H as H.
  apply (f_equal Z.of_int) in H.
  now rewrite !DecimalZ.of_to in H.
Qed.

(** ** The identifier generators *)


Lemma inc_seq_of (c : option Z) : inc_seq c = seq_of c + 1.
Proof. destruct c; reflexivity. Qed.

Lemma generated_pet_type_ids (k : nat) : forall (s : PetStore.Store) (i : nat),
  (i < k)%nat ->
  nth_error (generated PetStore.get_next_pet_type_id k s) i
  = Some (str (seq_of (PetStore.counters_collection s) + 1 + Z.of_nat i)).
Proof.
  induction k as [|k IH]; intros s i Hi; [lia|].
  simpl. destruct i as [|i].
  - simpl. rewrite inc_seq_of. do 2 f_equal. lia.
  - simpl. rewrite IH by lia. simpl. rewrite inc_seq_of. do 2 f_equal. lia.
Qed.

Lemma generated_purchase_ids (k : nat) : forall (s : PetOrder.Order) (i : nat),
  (i < k)%nat ->
  nth_error (generated PetOrder.get_next_purchase_id k s) i
  = Some (str (seq_of (PetOrder.counters_collection s) + 1 + Z.of_nat i)).
Proof.
  induction k as [|k IH]; intros s i Hi; [lia|].
  simpl. destruct i as [|i].
  - simpl. rewrite inc_seq_of. do 2 f_equal. lia.
  - simpl. rewrite IH by lia. simpl. rewrite inc_seq_of. do 2 f_equal. lia.
Qed.

Lemma generated_length_pet_type (k : nat) : forall s,
  List.length (generated PetStore.get_next_pet_type_id k s) = k.
Proof. induction k; intros s; simpl; [reflexivity | now rewrite IHk]. Qed.

Lemma generated_length_purchase (k : nat) : forall s,
  List.length (generated PetOrder.get_next_purchase_id k s) = k.
Proof. induction k; intros s; simpl; [reflexivity | now rewrite IHk]. Qed.


(** C5: any number [k] of successive calls of [get_next_pet_type_id], and
    of [get_next_purchase_id], from any state of the counter, returns [k]
    identifiers, each the decimal string of a counter value strictly
    greater than the values returned by all earlier calls; no identifier
    repeats. *)
Theorem id_generators_strictly_increasing :
  (forall (s : PetStore.Store) (k : nat),
     let ids := generated PetStore.get_next_pet_type_id k s in
     List.length ids = k /\ increasing_ids ids /\ NoDup ids) /\
  (forall (s : PetOrder.Order) (k : nat),
     let ids := generated PetOrder.get_next_purchase_id k s in
     List.length ids = k /\ increasing_ids ids /\ NoDup ids).
Proof.
  assert (G : forall (ids : list string) (base : Z),
             (forall i, (i < List.length ids)%nat ->
                nth_error ids i = Some (str (base + 1 + Z.of_nat i))) ->
             increasing_ids ids /\ NoDup ids).
  { intros ids base H. split.
    - intros i j Hij.
      exists (base + 1 + Z.of_nat i), (base + 1 + Z.of_nat j).
      repeat split; try (apply H; lia); try lia.
      intros E. apply str_inj in E. lia.
    - apply (proj2 (NoDup_nth_error ids)). intros i j Hi E.
      rewrite (H i Hi) in E.
      assert (Hj : (j < List.length ids)%nat).
      { apply nth_error_Some. rewrite <- E. discriminate. }
      rewrite (H j Hj) in E. injection E as E. apply str_inj in E. lia. }
  split; intros s k ids; subst ids.
  - rewrite generated_length_pet_type. split; [reflexivity|].
    apply (G _ (seq_of (PetStore.counters_collection s))).
    intros i Hi. rewrite generated_length_pet_type in Hi.
    now apply generated_pet_type_ids.
  - rewrite generated_length_purchase. split; [reflexivity|].
    apply (G _ (seq_of (PetOrder.counters_collection s))).
    intros i Hi. rewrite generated_length_purchase in Hi.
    now apply generated_purchase_ids.
Qed.

(** ** GET /pet-types with query parameters *)

Lemma params_loop_matches (ptype : PetStore.PetType) (params : list (string * string)) :
  PetStore.params_loop ptype params = Filter.matches_all params ptype.
Proof.
  unfold Filter.matches_all.
  induction params as [|[key val] rest IH]; [reflexivity|].
  cbn [PetStore.params_loop forallb Filter.matches].
  destruct (key =? "hasAttribute")%string eqn:Ha.
  - apply String.eqb_eq in Ha. subst key. cbn.
    unfold same_ci.
    destruct (existsb _ (PetStore.pt_attributes ptype)); cbn; [exact IH | reflexivity].
  - unfold PetStore.field_str, PetStore.filter_keys. cbn [existsb].
    destruct (key =? "id")%string eqn:E1.
    { apply String.eqb_eq in E1. subst key. cbn. unfold same_ci.
      destruct (lower (PetStore.pt_id ptype) =? lower val)%string; cbn; [exact IH | reflexivity]. }
    destruct (key =? "type")%string eqn:E2.
    { apply String.eqb_eq in E2. subst key. cbn. unfold same_ci.
      destruct (lower (PetStore.pt_type ptype) =? lower val)%string; cbn; [exact IH | reflexivity]. }
    destruct (key =? "family")%string eqn:E3.
    { apply String.eqb_eq in E3. subst key. cbn. unfold same_ci.
      destruct (lower (PetStore.pt_family ptype) =? lower val)%string; cbn; [exact IH | reflexivity]. }
    destruct (key =? "genus")%string eqn:E4.
    { apply String.eqb_eq in E4. subst key. cbn. unfold same_ci.
      destruct (lower (PetStore.pt_genus ptype) =? lower val)%string; cbn; [exact IH | reflexivity]. }
    destruct (key =? "lifespan")%string eqn:E5.
    { apply String.eqb_eq in E5. subst key. cbn.
      destruct (PetStore.pt_lifespan ptype) as [n|]; cbn; [|reflexivity].
      destruct (str n =? val)%string; cbn; [exact IH | reflexivity]. }
    cbn. exact IH.
Qed.

Lemma types_loop_filter (params : list (string * string)) (all_types : list PetStore.PetType) :
  forall out : list json,
    PetStore.types_loop params all_types out
    = out ++ map PetStore.clean_pet_type (filter (Filter.matches_all params) all_types).
Proof.
  induction all_types as [|ptype rest IH]; intros out; cbn.
  - now rewrite app_nil_r.
  - rewrite params_loop_matches.
    destruct (Filter.matches_all params ptype); rewrite IH; [|reflexivity].
    now rewrite <- app_assoc.
Qed.

(** C10: the answer to GET /pet-types is status 200 with exactly the pet
    types, in stored order, that match every query parameter in the sense
    of [Filter.matches]; the store is left as it was. *)
Theorem get_pet_types_returns_matching (req : Request) (s : PetStore.Store) :
  PetStore.get_pet_types req s
  = ((JArr (map PetStore.clean_pet_type
              (filter (Filter.matches_all (args req)) (PetStore.pet_types_collection s))),
      200), s).
Proof.
  unfold PetStore.get_pet_types.
  destruct (args req) as [|p params] eqn:E.
  - cbn. do 3 f_equal.
    induction (PetStore.pet_types_collection s) as [|x l IH]; cbn; congruence.
  - now rewrite types_loop_filter.
Qed.

(** ** Pet types: deletion and missing ids *)

Lemma has_id_false (id : string) (l : list PetStore.PetType) :
  (forall q, In q l -> PetStore.pt_id q <> id) ->
  forall q, In q l -> PetStore.has_id id q = false.
Proof.
  intros H q Hq. unfold PetStore.has_id. apply String.eqb_neq. now apply H.
Qed.

(** C4: DELETE /pet-types/{id}, where the pet type addressed by [id] (the
    first stored one with this id) is [pt]: when the 'pets' list of [pt]
    is not empty the answer is 400 and the store is unchanged; when it is
    empty the answer is 204, [pt] is removed from the pet types and
    nothing else changes. *)
Theorem delete_pet_type_only_without_pets
    (s : PetStore.Store) (id : string)
    (l1 l2 : list PetStore.PetType) (pt : PetStore.PetType) :
  PetStore.pet_types_collection s = l1 ++ pt :: l2 ->
  (forall q, In q l1 -> PetStore.pt_id q <> id) ->
  PetStore.pt_id pt = id ->
  let r := fst (PetStore.delete_pet_type id s) in
  let s' := snd (PetStore.delete_pet_type id s) in
  (PetStore.pt_pets pt <> [] -> status r = 400 /\ s' = s) /\
  (PetStore.pt_pets pt = [] ->
     status r = 204 /\
     PetStore.pet_types_collection s' = l1 ++ l2 /\
     PetStore.pets_collection s' = PetStore.pets_collection s /\
     PetStore.counters_collection s' = PetStore.counters_collection s /\
     PetStore.images s' = PetStore.images s).
Proof.
  intros Hc Hl1 Hid r s'. subst r s'.
  assert (Hpt : PetStore.has_id id pt = true)
    by (unfold PetStore.has_id; now apply String.eqb_eq).
  pose proof (has_id_false id l1 Hl1) as Hf.
  unfold PetStore.delete_pet_type.
  rewrite Hc, (find_one_first _ l1 l2 pt Hf Hpt).
  split; intros Hp.
  - destruct (PetStore.pt_pets pt); [congruence|]. now split.
  - rewrite Hp. cbn. rewrite Hc, (delete_one_first _ l1 l2 pt Hf Hpt). now repeat split.
Qed.


(** Witness of [delete_pet_type_only_without_pets]: the cat type of
    [Examples.kennel], which has no pets. *)
Lemma delete_pet_type_only_without_pets_witness :
  let r := fst (PetStore.delete_pet_type "2" Examples.kennel) in
  let s' := snd (PetStore.delete_pet_type "2" Examples.kennel) in
  (PetStore.pt_pets Examples.cat <> [] -> status r = 400 /\ s' = Examples.kennel) /\
  (PetStore.pt_pets Examples.cat = [] ->
     status r = 204 /\
     PetStore.pet_types_collection s' = [Examples.dog ["Rex"]] ++ [] /\
     PetStore.pets_collection s' = PetStore.pets_collection Examples.kennel /\
     PetStore.counters_collection s' = PetStore.counters_collection Examples.kennel /\
     PetStore.images s' = PetStore.images Examples.kennel).
Proof.
  apply (delete_pet_type_only_without_pets
           Examples.kennel "2" [Examples.dog ["Rex"]] [] Examples.cat).
  - reflexivity.
  - intros q [<-|[]]. discriminate.
  - reflexivity.
Defined.


(** ** Pets: lookup by name *)

Lemma remove_image_file_keeps (filename : string) (s : PetStore.Store) :
  exists s', PetStore.remove_image_file filename s = (Val tt, s') /\
             PetStore.pets_collection s' = PetStore.pets_collection s /\
             PetStore.pet_types_collection s' = PetStore.pet_types_collection s.
Proof.
  unfold PetStore.remove_image_file.
  destruct ((filename =? "") || (filename =? "NA"))%string;
    eexists; (split; [reflexivity | split; reflexivity]).
Qed.

Lemma download_image_keeps (fetch : string -> option string) (url : json)
    (s : PetStore.Store) :
  exists f s', PetStore.download_image fetch url s = (Val f, s') /\
               PetStore.pets_collection s' = PetStore.pets_collection s /\
               PetStore.pet_types_collection s' = PetStore.pet_types_collection s.
Proof.
  unfold PetStore.download_image.
  destruct url as [| | |u| |];
    try solve [do 2 eexists; split; [reflexivity | split; reflexivity]].
  destruct (fetch u); do 2 eexists; (split; [reflexivity | split; reflexivity]).
Qed.

Lemma refresh_picture_keeps (fetch : string -> option string) (new_url : json)
    (pet : PetStore.Pet) (s : PetStore.Store) :
  exists pic s', PetStore.refresh_picture fetch new_url pet s = (Val pic, s') /\
                 PetStore.pets_collection s' = PetStore.pets_collection s /\
                 PetStore.pet_types_collection s' = PetStore.pet_types_collection s.
Proof.
  assert (R : forall s0 : PetStore.Store,
            exists s', (if negb (PetStore.picture pet =? "NA")%string
                        then PetStore.remove_image_file (PetStore.picture pet)
                        else ret tt) s0 = (Val tt, s') /\
                       PetStore.pets_collection s' = PetStore.pets_collection s0 /\
                       PetStore.pet_types_collection s' = PetStore.pet_types_collection s0).
  { intros s0. destruct (negb _).
    - apply remove_image_file_keeps.
    - exists s0. repeat split. }
  assert (D : forall (u : json) (s0 : PetStore.Store),
            exists pic s',
              ((if negb (PetStore.picture pet =? "NA")%string
                then PetStore.remove_image_file (PetStore.picture pet)
                else ret tt) ;;
               f <- PetStore.download_image fetch u ;;
               ret (match f with Some f => f | None => "NA" end, u)) s0 = (Val pic, s') /\
              PetStore.pets_collection s' = PetStore.pets_collection s0 /\
              PetStore.pet_types_collection s' = PetStore.pet_types_collection s0).
  { intros u s0. unfold bind.
    destruct (R s0) as [s1 [E1 [P1 T1]]]. rewrite E1.
    destruct (download_image_keeps fetch u s1) as [f [s2 [E2 [P2 T2]]]]. rewrite E2.
    do 2 eexists. split; [reflexivity|]. split; congruence. }
  unfold PetStore.refresh_picture.
  destruct new_url;
    try solve [destruct (py_eq _ (PetStore._picture_url pet));
               [do 2 eexists; split; [reflexivity | split; reflexivity] | apply D]].
  unfold bind. destruct (R s) as [s1 [E1 [P1 T1]]]. rewrite E1.
  do 2 eexists. split; [reflexivity|]. split; congruence.
Qed.

Lemma first_picture_keeps (fetch : string -> option string) (pic_url : json)
    (s : PetStore.Store) :
  exists picture s', PetStore.first_picture fetch pic_url s = (Val picture, s') /\
                     PetStore.pets_collection s' = PetStore.pets_collection s /\
                     PetStore.pet_types_collection s' = PetStore.pet_types_collection s.
Proof.
  unfold PetStore.first_picture, bind.
  destruct (truthy pic_url); [|do 2 eexists; split; [reflexivity | split; reflexivity]].
  destruct (download_image_keeps fetch pic_url s) as [f [s1 [E1 [P1 T1]]]].
  rewrite E1. do 2 eexists. split; [reflexivity | split; assumption].
Qed.

Lemma pet_named_true (id key : string) (p : PetStore.Pet) :
  PetStore.pet_type_id p = id -> PetStore.name_lower p = key ->
  PetStore.pet_named id key p = true.
Proof.
  intros <- <-. unfold PetStore.pet_named. now rewrite !String.eqb_refl.
Qed.

Lemma pet_named_false (id key : string) (l : list PetStore.Pet) :
  (forall q, In q l -> PetStore.pet_type_id q = id -> PetStore.name_lower q <> key) ->
  forall q, In q l -> PetStore.pet_named id key q = false.
Proof.
  intros H q Hq. unfold PetStore.pet_named.
  destruct (String.eqb_spec (PetStore.pet_type_id q) id) as [E|E]; [|reflexivity].
  cbn. apply String.eqb_neq. now apply H.
Qed.



(** ** Pets: the name list and the uniqueness of names *)

Import Invariants.

Ltac not_among :=
  let H := fresh in
  cbn; intros H; repeat (destruct H as [H|H]; [discriminate H|]); exact H.

Ltac nodup_strings :=
  repeat (apply NoDup_cons; [not_among|]); apply NoDup_nil.

Lemma kennel_mirrors : mirrors Examples.kennel.
Proof.
  intros pt [<-|[<-|[]]] n; cbn; split.
  - intros [<-|[]]. exists (Examples.pet "1" "Rex"). cbn. auto.
  - intros [p [[<-|[]] [_ <-]]]. now left.
  - intros [].
  - intros [p [[<-|[]] [H _]]]. discriminate H.
Qed.

Lemma kennel2_mirrors : mirrors Examples.kennel2.
Proof.
  intros pt [<-|[<-|[]]] n; cbn; split.
  - intros [<-|[<-|[]]];
      [exists (Examples.pet "1" "Rex") | exists (Examples.pet "1" "Max")]; cbn; auto.
  - intros [p [[<-|[<-|[]]] [_ <-]]]; cbn; auto.
  - intros [].
  - intros [p [[<-|[<-|[]]] [H _]]]; discriminate H.
Qed.

Lemma kennel_names_unique : names_unique Examples.kennel.
Proof.
  intros tid. unfold names_ci, PetStore.of_type. cbn -[String.eqb].
  destruct ("1" =? tid)%string; cbn; nodup_strings.
Qed.

Lemma kennel2_names_unique : names_unique Examples.kennel2.
Proof.
  intros tid. unfold names_ci, PetStore.of_type. cbn -[String.eqb].
  destruct ("1" =? tid)%string; cbn; nodup_strings.
Qed.

Lemma kennel2_lists_unique : lists_unique Examples.kennel2.
Proof.
  intros pt [<-|[<-|[]]]; cbn; nodup_strings.
Qed.

(** *** POST keeps the name list and the uniqueness of names *)

(** What POST /pet-types/{id}/pets does to the two collections: nothing,
    or (on 201) one pet document more and its name pushed on the list of
    the pet type, which did not hold the name up to case. *)
Lemma add_pet_cases (fetch : string -> option string) (id : string) (req : Request)
    (s : PetStore.Store) :
  let r := PetStore.add_pet fetch id req s in
  (status (fst r) <> 201 /\
   PetStore.pets_collection (snd r) = PetStore.pets_collection s /\
   PetStore.pet_types_collection (snd r) = PetStore.pet_types_collection s) \/
  (exists ptype n obj,
     status (fst r) = 201 /\
     find_one (PetStore.has_id id) (PetStore.pet_types_collection s) = Some ptype /\
     PetStore.any_same_name (PetStore.pt_pets ptype) (JStr n) = Val false /\
     PetStore.pet_type_id obj = id /\ PetStore.name obj = n /\
     PetStore.pets_collection (snd r) = PetStore.pets_collection s ++ [obj] /\
     PetStore.pet_types_collection (snd r)
     = update_one (PetStore.has_id id) (PetStore.with_pt_pets (fun l => l ++ [n]))
         (PetStore.pet_types_collection s)).
Proof.
  cbv zeta.
  unfold PetStore.add_pet, try_except, bind, gets, lift, get_json.
  destruct (find_one (PetStore.has_id id) (PetStore.pet_types_collection s)) as [ptype|] eqn:Ept;
    [|left; cbn; repeat split; discriminate].
  destruct (negb (is_json req)); [left; cbn; repeat split; discriminate|].
  destruct (body req) as [data|]; [|left; cbn; repeat split; discriminate].
  cbn [ret].
  destruct (PetStore.lacks "name" data) as [[|]|]; try (left; cbn; repeat split; discriminate).
  destruct (py_item "name" data) as [name|]; [|left; cbn; repeat split; discriminate].
  destruct (py_get "birthdate" data) as [bd|]; [|left; cbn; repeat split; discriminate].
  destruct (py_get "picture-url" data) as [pic_url|]; [|left; cbn; repeat split; discriminate].
  destruct (PetStore.any_same_name (PetStore.pt_pets ptype) name) as [[|]|] eqn:Edup;
    try (left; cbn; repeat split; discriminate).
  destruct (first_picture_keeps fetch pic_url s) as [picture [s1 [E1 [P1 T1]]]]. rewrite E1.
  destruct name as [| | |n| |]; try (left; cbn; repeat split; (discriminate || assumption)).
  match goal with |- context [PetStore.stored ?x] => destruct (PetStore.stored x) end;
    cbn [negb]; [|left; cbn; repeat split; (discriminate || assumption)].
  right.
  exists ptype, n,
    {| PetStore.pet_type_id := id; PetStore.name := n; PetStore.name_lower := lower n;
       PetStore.birthdate := if truthy bd then bd else JStr "NA";
       PetStore.picture := picture; PetStore._picture_url := pic_url |}.
  cbn.
  split; [reflexivity|]. split; [reflexivity|]. split; [exact Edup|].
  split; [reflexivity|]. split; [reflexivity|].
  rewrite P1, T1. split; reflexivity.
Qed.

(** A name that [any_same_name] does not find differs, up to case, from
    every name of the list. *)
Lemma any_same_name_false (pets : list string) (n : string) :
  PetStore.any_same_name pets (JStr n) = Val false ->
  forall m, In m pets -> lower m <> lower n.
Proof.
  induction pets as [|x r IH]; cbn; [intros _ m []|].
  destruct (String.eqb_spec (lower x) (lower n)) as [E|E]; [discriminate|].
  intros H m [<-|Hm]; [exact E | now apply IH].
Qed.

Lemma names_ci_app (tid : string) (l1 l2 : list PetStore.Pet) :
  map (fun p => lower (PetStore.name p)) (filter (PetStore.of_type tid) (l1 ++ l2))
  = map (fun p => lower (PetStore.name p)) (filter (PetStore.of_type tid) l1)
    ++ map (fun p => lower (PetStore.name p)) (filter (PetStore.of_type tid) l2).
Proof. now rewrite filter_app, map_app. Qed.

(** X23: POST /pet-types/{id}/pets keeps the name lists equal to the names
    of the pet documents, when the ids of the pet types are distinct. *)
Lemma add_pet_keeps_mirror (fetch : string -> option string) (id : string) (req : Request)
    (s : PetStore.Store) :
  NoDup (map PetStore.pt_id (PetStore.pet_types_collection s)) ->
  mirrors s -> mirrors (snd (PetStore.add_pet fetch id req s)).
Proof.
  intros Hids Hm.
  destruct (add_pet_cases fetch id req s) as [[_ [P T]]|[ptype [n [obj [_ [Eft [_ [Ht [Hn [P T]]]]]]]]]];
    unfold mirrors; rewrite P, T; [exact Hm|].
  destruct (find_one_split _ _ _ Eft) as [Hid [l1 [l2 [Ec Hl1]]]].
  apply String.eqb_eq in Hid.
  rewrite Ec, (update_one_first _ _ l1 l2 ptype Hl1)
    by (unfold PetStore.has_id; now apply String.eqb_eq).
  assert (Hother : forall q, In q l1 \/ In q l2 -> PetStore.pt_id q <> id).
  { intros q [Hq|Hq].
    - specialize (Hl1 q Hq). unfold PetStore.has_id in Hl1. now apply String.eqb_neq.
    - rewrite Ec, map_app in Hids. cbn in Hids.
      apply NoDup_remove_2 in Hids. intros E. apply Hids.
      apply in_or_app. right. rewrite Hid, <- E. now apply in_map. }
  assert (Hold : forall q, In q l1 \/ In q l2 -> In q (PetStore.pet_types_collection s)).
  { intros q Hq. rewrite Ec. apply in_or_app. destruct Hq; [now left | right; now right]. }
  assert (Hunch : forall q, In q l1 \/ In q l2 ->
            forall m, In m (PetStore.pt_pets q) <->
              exists p, In p (PetStore.pets_collection s ++ [obj]) /\
                        PetStore.pet_type_id p = PetStore.pt_id q /\ PetStore.name p = m).
  { intros q Hq m. rewrite (Hm q (Hold q Hq) m). split.
    - intros [p [Hp Hr]]. exists p. split; [apply in_or_app; now left | exact Hr].
    - intros [p [Hp [Hr1 Hr2]]]. apply in_app_or in Hp. destruct Hp as [Hp|[<-|[]]].
      + now exists p.
      + exfalso. apply (Hother q Hq). congruence. }
  intros pt Hpt m. apply in_app_or in Hpt.
  destruct Hpt as [Hpt|[<-|Hpt]]; [apply Hunch; now left | | apply Hunch; now right].
  cbn [PetStore.with_pt_pets PetStore.pt_pets PetStore.pt_id]. rewrite in_app_iff.
  assert (Hin : In ptype (PetStore.pet_types_collection s))
    by (rewrite Ec; apply in_or_app; right; now left).
  rewrite (Hm ptype Hin m). split.
  - intros [[p [Hp Hr]]|[<-|[]]].
    + exists p. split; [apply in_or_app; now left | exact Hr].
    + exists obj. split; [apply in_or_app; right; now left|]. split; congruence.
  - intros [p [Hp [Hr1 Hr2]]]. apply in_app_or in Hp. destruct Hp as [Hp|[<-|[]]].
    + left. now exists p.
    + right. left. congruence.
Qed.

(** X24: POST /pet-types/{id}/pets keeps names unique up to case within a
    pet type, when the name lists mirror the pet documents. *)
Lemma add_pet_keeps_names_unique (fetch : string -> option string) (id : string)
    (req : Request) (s : PetStore.Store) :
  mirrors s -> names_unique s -> names_unique (snd (PetStore.add_pet fetch id req s)).
Proof.
  intros Hm Hu.
  destruct (add_pet_cases fetch id req s) as [[_ [P T]]|[ptype [n [obj [_ [Eft [Hdup [Ht [Hn [P T]]]]]]]]]];
    unfold names_unique, names_ci; rewrite P; [exact Hu|].
  intros tid. rewrite names_ci_app. cbn [filter].
  unfold PetStore.of_type at 2. rewrite Ht.
  destruct (String.eqb_spec id tid) as [<-|Hne]; cbn [map]; [|rewrite app_nil_r; apply Hu].
  apply NoDup_app; [apply Hu | repeat constructor; intros [] |].
  intros x Hx [<-|[]].
  apply in_map_iff in Hx. destruct Hx as [p [Ep Hp]].
  apply filter_In in Hp. destruct Hp as [Hp Htp].
  apply String.eqb_eq in Htp.
  destruct (find_one_split _ _ _ Eft) as [Hid [l1 [l2 [Ec _]]]].
  apply String.eqb_eq in Hid.
  assert (Hin : In ptype (PetStore.pet_types_collection s))
    by (rewrite Ec; apply in_or_app; right; now left).
  assert (Hl : In (PetStore.name p) (PetStore.pt_pets ptype)).
  { apply (Hm ptype Hin). exists p. repeat split; congruence. }
  apply (any_same_name_false _ _ Hdup _ Hl). congruence.
Qed.

(** *** DELETE keeps the name list *)

(** X25: DELETE /pet-types/{id}/pets/{name} keeps the name lists equal to
    the names of the pet documents, when the ids of the pet types are
    distinct and names are unique up to case within a pet type. *)
Lemma delete_pet_keeps_mirror (id n : string) (s : PetStore.Store) :
  NoDup (map PetStore.pt_id (PetStore.pet_types_collection s)) ->
  names_unique s ->
  mirrors s -> mirrors (snd (PetStore.delete_pet id n s)).
Proof.
  intros Hids Hu Hm. unfold PetStore.delete_pet.
  destruct (find_one (PetStore.has_id id) (PetStore.pet_types_collection s)) as [ptype|] eqn:Eft;
    [|exact Hm].
  destruct (find_one (PetStore.pet_named id (lower n)) (PetStore.pets_collection s)) as [p|] eqn:Efp;
    [|exact Hm].
  destruct (find_one_split _ _ _ Eft) as [Hid [t1 [t2 [Et Ht1]]]].
  destruct (find_one_split _ _ _ Efp) as [Hp [l1 [l2 [Ec Hl1]]]].
  assert (Hpt : PetStore.pet_type_id p = id).
  { unfold PetStore.pet_named in Hp. apply andb_true_iff in Hp.
    now apply String.eqb_eq, (proj1 Hp). }
  destruct (remove_image_file_keeps (PetStore.picture p) s) as [s1 [E1 [P1 T1]]].
  cbn zeta. rewrite E1. unfold mirrors. cbn [snd PetStore.with_pets PetStore.with_pet_types
    PetStore.pets_collection PetStore.pet_types_collection].
  rewrite P1, T1, Ec, Et, (delete_one_first _ l1 l2 p Hl1 Hp),
    (update_one_first _ _ t1 t2 ptype Ht1 Hid).
  unfold PetStore.has_id in Hid. apply String.eqb_eq in Hid.
  (* no other pet of the type has the name of [p] *)
  assert (Hfresh : forall q, In q (l1 ++ l2) -> PetStore.pet_type_id q = id ->
                             PetStore.name q <> PetStore.name p).
  { intros q Hq Hqt E. specialize (Hu id). unfold names_ci in Hu.
    rewrite Ec, names_ci_app in Hu. cbn [filter] in Hu.
    unfold PetStore.of_type at 2 in Hu. rewrite Hpt, String.eqb_refl in Hu.
    cbn [map] in Hu. apply NoDup_remove_2 in Hu. apply Hu.
    rewrite <- names_ci_app, <- E.
    apply (in_map (fun p0 => lower (PetStore.name p0))).
    apply filter_In. split; [exact Hq|]. unfold PetStore.of_type. now apply String.eqb_eq. }
  assert (Hsub : forall q, In q (l1 ++ l2) -> In q (PetStore.pets_collection s)).
  { intros q Hq. rewrite Ec. apply in_app_or in Hq. apply in_or_app.
    destruct Hq; [now left | right; now right]. }
  assert (Hback : forall q, In q (PetStore.pets_collection s) -> q = p \/ In q (l1 ++ l2)).
  { intros q Hq. rewrite Ec in Hq. apply in_app_or in Hq.
    destruct Hq as [Hq|[<-|Hq]]; [right | now left | right]; apply in_or_app; auto. }
  assert (Hother : forall q, In q t1 \/ In q t2 -> PetStore.pt_id q <> id).
  { intros q [Hq|Hq].
    - specialize (Ht1 q Hq). unfold PetStore.has_id in Ht1. now apply String.eqb_neq.
    - rewrite Et, map_app in Hids. cbn in Hids.
      apply NoDup_remove_2 in Hids. intros E. apply Hids.
      apply in_or_app. right. rewrite Hid, <- E. now apply in_map. }
  assert (Hunch : forall q, In q t1 \/ In q t2 ->
            forall m, In m (PetStore.pt_pets q) <->
              exists x, In x (l1 ++ l2) /\
                        PetStore.pet_type_id x = PetStore.pt_id q /\ PetStore.name x = m).
  { intros q Hq m.
    assert (Hin : In q (PetStore.pet_types_collection s)).
    { rewrite Et. apply in_or_app. destruct Hq; [now left | right; now right]. }
    rewrite (Hm q Hin m). split.
    - intros [x [Hx [Hx1 Hx2]]]. destruct (Hback x Hx) as [->|Hx'].
      + exfalso. apply (Hother q Hq). congruence.
      + now exists x.
    - intros [x [Hx Hr]]. exists x. split; [now apply Hsub | exact Hr]. }
  intros pt Hin m. apply in_app_or in Hin.
  destruct Hin as [Hin|[<-|Hin]]; [apply Hunch; now left | | apply Hunch; now right].
  cbn [PetStore.with_pt_pets PetStore.pt_pets PetStore.pt_id].
  unfold PetStore.pull, PetStore.name_of. rewrite filter_In.
  assert (Hin : In ptype (PetStore.pet_types_collection s))
    by (rewrite Et; apply in_or_app; right; now left).
  rewrite (Hm ptype Hin m). split.
  - intros [[x [Hx [Hx1 Hx2]]] Hne]. destruct (Hback x Hx) as [->|Hx'].
    + rewrite Hx2, String.eqb_refl in Hne. discriminate Hne.
    + now exists x.
  - intros [x [Hx [Hx1 Hx2]]]. split.
    + exists x. split; [now apply Hsub | now split].
    + apply negb_true_iff, String.eqb_neq. rewrite <- Hx2.
      apply Hfresh; [exact Hx | congruence].
Qed.

(** *** PUT keeps the name list when the name changes by more than case *)

(** What PUT /pet-types/{id}/pets/{name} does to the two collections:
    nothing, or (on 200) the pet document found is rewritten and, when the
    new name differs from the path segment by more than case, the names
    that the pattern of the segment matches are pulled from the list of
    the pet type and the new name is pushed. *)
Lemma update_pet_cases (fetch : string -> option string) (id n : string) (req : Request)
    (s : PetStore.Store) :
  let r := PetStore.update_pet fetch id n req s in
  (PetStore.pets_collection (snd r) = PetStore.pets_collection s /\
   PetStore.pet_types_collection (snd r) = PetStore.pet_types_collection s) \/
  (exists ptype p data new bd pic url,
     status (fst r) = 200 /\
     body req = Some data /\ py_item "name" data = Val (JStr new) /\
     find_one (PetStore.has_id id) (PetStore.pet_types_collection s) = Some ptype /\
     find_one (PetStore.pet_named id (lower n)) (PetStore.pets_collection s) = Some p /\
     PetStore.pets_collection (snd r)
     = update_one (PetStore.pet_named id (lower n)) (PetStore.set_fields new bd pic url)
         (PetStore.pets_collection s) /\
     PetStore.pet_types_collection (snd r)
     = if negb (lower new =? lower n)%string
       then update_one (PetStore.has_id id) (PetStore.with_pt_pets (PetStore.push new))
              (update_one (PetStore.has_id id) (PetStore.with_pt_pets (PetStore.pull_regex n))
                 (PetStore.pet_types_collection s))
       else PetStore.pet_types_collection s).
Proof.
  cbv zeta.
  unfold PetStore.update_pet, try_except, bind, gets, lift, get_json.
  destruct (find_one (PetStore.has_id id) (PetStore.pet_types_collection s)) as [ptype|] eqn:Eft;
    [|left; now split].
  destruct (negb (is_json req)); [left; now split|].
  destruct (body req) as [data|]; [|left; now split].
  cbn [ret].
  destruct (PetStore.lacks "name" data) as [[|]|]; try (left; now split).
  destruct (find_one (PetStore.pet_named id (lower n)) (PetStore.pets_collection s)) as [p|] eqn:Efp;
    [|left; now split].
  destruct (py_item "name" data) as [new_name|] eqn:Enew; [|left; now split].
  destruct (py_get "birthdate" data) as [bd|]; [|left; now split].
  destruct (py_get "picture-url" data) as [new_url|]; [|left; now split].
  destruct (refresh_picture_keeps fetch new_url p s) as [pic [s1 [E1 [P1 T1]]]].
  rewrite E1.
  destruct new_name as [| | |new| |]; try (left; now split).
  unfold modify.
  destruct (find_one_split _ _ _ Efp) as [Hp [l1 [l2 [Ec Hl1]]]].
  set (p' := PetStore.set_fields new bd (fst pic) (snd pic) p).
  destruct (PetStore.stored p'); cbn [negb]; [|left; cbn; now split].
  assert (Hp' : PetStore.pet_named id (lower new) p' = true).
  { apply pet_named_true; [|reflexivity]. cbn.
    unfold PetStore.pet_named in Hp. apply andb_true_iff in Hp.
    now apply String.eqb_eq, (proj1 Hp). }
  assert (Hin : In p' (l1 ++ p' :: l2)) by (apply in_or_app; right; now left).
  destruct (find_one_some _ _ p' Hin Hp') as [u [Eu _]].
  right. exists ptype, p, data, new, bd, (fst pic), (snd pic).
  destruct (negb (lower new =? lower n)%string);
    cbn [ret PetStore.with_pet_types PetStore.with_pets PetStore.pets_collection
           PetStore.pet_types_collection];
    rewrite P1, Ec, (update_one_first _ _ l1 l2 p Hl1 Hp); fold p'; rewrite Eu; cbn;
    rewrite ?P1, ?T1, ?Ec, ?(update_one_first _ _ l1 l2 p Hl1 Hp);
    repeat split; (reflexivity || assumption).
Qed.


(** *** The two departures of PUT *)

(** C1 (the code departs from the specification): in [Examples.kennel], where the
    name list mirrors the pets, PUT /pet-types/1/pets/Rex with the body
    {"name": "REX"} answers 200, renames the pet document to "REX" and
    leaves the name list of the pet type at ["Rex"]: the list no longer
    mirrors the pets.  A later DELETE of the pet leaves "Rex" in the list
    of a type that has no pet. *)
Theorem rename_to_other_case_breaks_mirror (fetch : string -> option string) :
  let put := PetStore.update_pet fetch "1" "Rex" (Examples.named "REX") Examples.kennel in
  let del := PetStore.delete_pet "1" "REX" (snd put) in
  mirrors Examples.kennel /\
  status (fst put) = 200 /\
  map PetStore.name (PetStore.pets_collection (snd put)) = ["REX"] /\
  map PetStore.pt_pets (PetStore.pet_types_collection (snd put)) = [["Rex"]; []] /\
  ~ mirrors (snd put) /\
  status (fst del) = 204 /\
  PetStore.pets_collection (snd del) = [] /\
  map PetStore.pt_pets (PetStore.pet_types_collection (snd del)) = [["Rex"]; []].
Proof.
  cbv zeta.
  split; [apply kennel_mirrors|].
  do 3 (split; [reflexivity|]).
  split; [|repeat split; reflexivity].
  - intros H.
    destruct (proj1 (H (Examples.dog ["Rex"]) (or_introl eq_refl) "Rex") (or_introl eq_refl))
      as [p [[<-|[]] [_ E]]].
    discriminate E.
Qed.

(** C2 (the code departs from the specification): in [Examples.kennel2], where
    names are unique up to case, PUT /pet-types/1/pets/Rex with the body
    {"name": "Max"} is not rejected: it answers 200 and leaves two pets
    named "Max" in the pet type, in the documents and in the name list.
    POST /pet-types/1/pets with {"name": "max"} is rejected with 400. *)
Theorem rename_to_taken_name_not_rejected (fetch : string -> option string) :
  let put := PetStore.update_pet fetch "1" "Rex" (Examples.named "Max") Examples.kennel2 in
  let post := PetStore.add_pet fetch "1" (Examples.named "max") Examples.kennel2 in
  names_unique Examples.kennel2 /\ lists_unique Examples.kennel2 /\
  mirrors Examples.kennel2 /\
  status (fst put) = 200 /\
  map PetStore.name (PetStore.pets_collection (snd put)) = ["Max"; "Max"] /\
  map PetStore.pt_pets (PetStore.pet_types_collection (snd put)) = [["Max"; "Max"]; []] /\
  ~ names_unique (snd put) /\
  ~ lists_unique (snd put) /\
  post = (PetStore.malformed, Examples.kennel2).
Proof.
  cbv zeta.
  split; [apply kennel2_names_unique|].
  split; [apply kennel2_lists_unique|].
  split; [apply kennel2_mirrors|].
  do 3 (split; [reflexivity|]).
  split; [|split; [|reflexivity]].
  - intros H. specialize (H "1"). cbn in H.
    inversion H as [|x l Hx _]; subst. apply Hx. now left.
  - intros H. specialize (H _ (or_introl eq_refl)). cbn in H.
    inversion H as [|x l Hx _]; subst. apply Hx. now left.
Qed.

(** ** Purchases: what a rejected purchase leaves behind *)

Import Purchases.

Lemma same_db_refl (s : PetOrder.Order) : same_db s s.
Proof. now split. Qed.

Lemma same_db_trans (s1 s2 s3 : PetOrder.Order) :
  same_db s1 s2 -> same_db s2 s3 -> same_db s1 s3.
Proof. intros [A B] [C D]. split; congruence. Qed.

Lemma keeps_ret {A : Type} (a : A) : keeps (ret a).
Proof. intros s. apply same_db_refl. Qed.

Lemma keeps_raise {A : Type} : keeps (@raise PetOrder.Order A).
Proof. intros s. apply same_db_refl. Qed.

Lemma keeps_lift {A : Type} (o : outcome A) : keeps (lift o).
Proof. intros s. apply same_db_refl. Qed.

Lemma keeps_send (c : PetOrder.call) : keeps (PetOrder.send c).
Proof. intros s. now split. Qed.

Lemma keeps_bind {A B : Type} (m : M PetOrder.Order A) (f : A -> M PetOrder.Order B) :
  keeps m -> (forall a, keeps (f a)) -> keeps (bind m f).
Proof.
  intros Hm Hf s. unfold bind. specialize (Hm s).
  destruct (m s) as [[a|] s1]; cbn in *; [|exact Hm].
  eapply same_db_trans; [exact Hm | apply Hf].
Qed.

Create HintDb keeps.
#[local] Hint Resolve keeps_ret keeps_raise keeps_lift keeps_send : keeps.

Lemma keeps_find_pet_type_id (peers : PetOrder.Peers) (u : option PetOrder.url) (n : json) :
  keeps (PetOrder.find_pet_type_id peers u n).
Proof.
  unfold PetOrder.find_pet_type_id. destruct u as [u|]; auto with keeps.
  apply keeps_bind; auto with keeps. intros _.
  destruct (PetOrder.pet_types_of peers u) as [[code l]|]; auto with keeps.
  destruct (negb (code =? 200)); auto with keeps.
Qed.

Lemma keeps_get_pets_of_type (peers : PetOrder.Peers) (u : option PetOrder.url) (id : string) :
  keeps (PetOrder.get_pets_of_type peers u id).
Proof.
  unfold PetOrder.get_pets_of_type. destruct u as [u|]; auto with keeps.
  apply keeps_bind; auto with keeps. intros _.
  destruct (PetOrder.pets_of peers u id) as [[code l]|]; auto with keeps.
  destruct (negb (code =? 200)); auto with keeps.
Qed.

Lemma keeps_delete_pet (peers : PetOrder.Peers) (u : option PetOrder.url) (id n : string) :
  keeps (PetOrder.delete_pet peers u id n).
Proof.
  unfold PetOrder.delete_pet. destruct u as [u|]; auto with keeps.
  apply keeps_bind; auto with keeps. intros _.
  destruct (PetOrder.deleted peers u id n); auto with keeps.
Qed.

Lemma keeps_stores_loop (peers : PetOrder.Peers) (stores : list (json * option PetOrder.url))
    (pet_type_name pet_name : json) :
  forall available, keeps (PetOrder.stores_loop peers stores pet_type_name pet_name available).
Proof.
  induction stores as [|[store_num store_url] rest IH]; intros available; cbn.
  - auto with keeps.
  - apply keeps_bind; [apply keeps_find_pet_type_id|].
    intros [id|]; [|apply IH].
    destruct (id =? "")%string; [apply IH|].
    apply keeps_bind; [apply keeps_get_pets_of_type|].
    intros [|pet pets]; [apply IH|].
    destruct pet_name; try apply IH;
      (apply keeps_bind; [apply keeps_lift|]; intros [hit|]; [apply keeps_ret | apply IH]).
Qed.

Lemma keeps_find_available_pet (peers : PetOrder.Peers) (pet_type_name store pet_name : json) :
  keeps (PetOrder.find_available_pet peers pet_type_name store pet_name).
Proof.
  unfold PetOrder.find_available_pet.
  apply keeps_bind; [apply keeps_stores_loop|].
  intros [hit|available]; [apply keeps_ret|].
  destruct pet_name; auto with keeps.
  destruct available; auto with keeps.
Qed.








(** ** Purchases without a store: the requests sent *)

Lemma send_sent (c : PetOrder.call) (s : PetOrder.Order) :
  PetOrder.send c s = (Val tt, sent [c] s).
Proof. reflexivity. Qed.

Lemma sent_sent (q1 q2 : list PetOrder.call) (s : PetOrder.Order) :
  sent q2 (sent q1 s) = sent (q1 ++ q2) s.
Proof. unfold sent. cbn. now rewrite app_assoc. Qed.

(** One turn of the loop over the stores, when no pet name is asked for:
    a lookup at the store, and the pets found there join the list. *)
Lemma stores_loop_turn (peers : PetOrder.Peers) (n : json) (u : PetOrder.url)
    (rest : list (json * option PetOrder.url)) (pet_type_name : json)
    (available : list PetOrder.found) (s : PetOrder.Order) :
  exists (q : list PetOrder.call) (more : list PetOrder.found),
    lookup_at u q /\
    (forall x : PetOrder.found, In x more -> fst (fst x) = n) /\
    PetOrder.stores_loop peers ((n, Some u) :: rest) pet_type_name JNull available s
    = PetOrder.stores_loop peers rest pet_type_name JNull (available ++ more) (sent q s).
Proof.
  cbn [PetOrder.stores_loop]. unfold bind at 1.
  unfold PetOrder.find_pet_type_id, bind. rewrite send_sent.
  assert (Skip : exists (q : list PetOrder.call) (more : list PetOrder.found),
             lookup_at u q /\ (forall x : PetOrder.found, In x more -> fst (fst x) = n) /\
             PetOrder.stores_loop peers rest pet_type_name JNull available
               (sent [PetOrder.GET_pet_types u] s)
             = PetOrder.stores_loop peers rest pet_type_name JNull (available ++ more)
                 (sent q s)).
  { exists [PetOrder.GET_pet_types u], (@nil PetOrder.found). rewrite app_nil_r.
    split; [now left | split; [intros x [] | reflexivity]]. }
  destruct (PetOrder.pet_types_of peers u) as [[code types]|]; [|exact Skip].
  destruct (negb (code =? 200)); [exact Skip|]. cbn [ret].
  destruct (PetOrder.types_loop types pet_type_name) as [id|]; [|exact Skip].
  destruct (id =? "")%string; [exact Skip|].
  unfold PetOrder.get_pets_of_type, bind. rewrite send_sent, sent_sent. cbn [app].
  assert (Skip2 : exists (q : list PetOrder.call) (more : list PetOrder.found),
             lookup_at u q /\ (forall x : PetOrder.found, In x more -> fst (fst x) = n) /\
             PetOrder.stores_loop peers rest pet_type_name JNull available
               (sent [PetOrder.GET_pet_types u; PetOrder.GET_pets u id] s)
             = PetOrder.stores_loop peers rest pet_type_name JNull (available ++ more)
                 (sent q s)).
  { exists [PetOrder.GET_pet_types u; PetOrder.GET_pets u id], (@nil PetOrder.found). rewrite app_nil_r.
    split; [right; now exists id | split; [intros x [] | reflexivity]]. }
  destruct (PetOrder.pets_of peers u id) as [[code' pets]|]; [|exact Skip2].
  destruct (negb (code' =? 200)); [exact Skip2|]. cbn [ret].
  destruct pets as [|pet pets]; [exact Skip2|].
  exists [PetOrder.GET_pet_types u; PetOrder.GET_pets u id],
         (map (fun n0 => (n, id, n0) : PetOrder.found) (pet :: pets)).
  split; [right; now exists id|]. split; [|reflexivity].
  intros x Hx. apply in_map_iff in Hx. destruct Hx as [n0 [<- _]]. reflexivity.
Qed.

(** [find_available_pet] without a store and without a pet name. *)
Lemma find_available_pet_without_store (peers : PetOrder.Peers) (pet_type_name : json)
    (s : PetOrder.Order) :
  exists q r,
    store1_then_store2 q /\
    PetOrder.find_available_pet peers pet_type_name JNull JNull s = (Val r, sent q s) /\
    (forall x, r = Some x -> exists u, PetOrder.get_store_url (fst (fst x)) = Some u).
Proof.
  unfold PetOrder.find_available_pet, bind.
  destruct (stores_loop_turn peers (JNum 1) PetOrder.PET_STORE1_URL
              [(JNum 2, Some PetOrder.PET_STORE2_URL)] pet_type_name [] s)
    as [q1 [m1 [L1 [F1 E1]]]].
  cbn [app] in E1.
  destruct (stores_loop_turn peers (JNum 2) PetOrder.PET_STORE2_URL
              [] pet_type_name m1 (sent q1 s))
    as [q2 [m2 [L2 [F2 E2]]]].
  rewrite E1, E2, sent_sent. cbn [PetOrder.stores_loop ret].
  assert (Hu : forall x, In x (m1 ++ m2) ->
                 exists u, PetOrder.get_store_url (fst (fst x)) = Some u).
  { intros x Hx. apply in_app_or in Hx.
    destruct Hx as [Hx|Hx]; [rewrite (F1 x Hx) | rewrite (F2 x Hx)]; eexists; reflexivity. }
  exists (q1 ++ q2).
  destruct (m1 ++ m2) as [|a l] eqn:Ea.
  - exists None. split; [now exists q1, q2|]. split; [reflexivity | discriminate].
  - exists (PetOrder.random_choice peers (a :: l)).
    split; [now exists q1, q2|]. split; [reflexivity|].
    intros x Hx. apply Hu. unfold PetOrder.random_choice in Hx.
    now apply nth_error_In in Hx.
Qed.

(** C3 (amended): when POST /purchases has no 'store' field and passes
    the checks of the handler, the service sends a lookup at store 1, then
    a lookup at store 2, then at most one deletion, and nothing else; when
    the answer is 201, it has sent exactly one deletion, for the pet and
    the store of the answer, and has recorded exactly one transaction. *)
Theorem purchase_without_store_queries_both
    (peers : PetOrder.Peers) (req : Request) (s : PetOrder.Order) :
  accepted_without_store req = true ->
  queries_both_stores peers req s /\
  (status (fst (PetOrder.create_purchase peers req s)) = 201 ->
   one_deletion_one_transaction peers req s).
Proof.
  unfold accepted_without_store. intros H.
  apply andb_true_iff in H. destruct H as [Hjson H].
  destruct (body req) as [[| | | | |kv]|] eqn:Hbody; try discriminate H.
  destruct (assoc "purchaser" kv) as [purchaser|] eqn:Hpu; [|discriminate H].
  destruct (assoc "pet-type" kv) as [pet_type|] eqn:Hpt; [|discriminate H].
  apply andb_true_iff in H. destruct H as [H Hname].
  apply andb_true_iff in H. destruct H as [Hkeys Hstore].
  destruct (assoc "store" kv) eqn:Hst; [discriminate Hstore|].
  assert (Hpn : match assoc "pet-name" kv with Some v => v | None => JNull end = JNull).
  { destruct (assoc "pet-name" kv) as [[]|]; try discriminate Hname; reflexivity. }
  assert (Htruthy : truthy (JObj kv) = true)
    by (destruct kv; [discriminate Hpu | reflexivity]).
  unfold queries_both_stores, one_deletion_one_transaction.
  unfold PetOrder.create_purchase, try_except, bind, get_json, lift.
  rewrite Hjson, Hbody. cbn [negb ret]. rewrite Htruthy. cbn [negb].
  unfold py_in, PetOrder.keys_allowed, py_item, py_get.
  rewrite Hpu, Hpt, Hkeys, Hst, Hpn. cbn [negb orb andb].
  destruct (find_available_pet_without_store peers pet_type s) as [q [r [Hq [E Hu]]]].
  rewrite E.
  destruct r as [[[chosen_store pet_type_id] chosen_pet_name]|].
  2:{ split; [|cbn; discriminate].
      exists q, []. rewrite app_nil_r. cbn. now repeat split; [|left]. }
  destruct (Hu _ eq_refl) as [u Eu]. cbn [fst] in Eu. rewrite Eu.
  unfold PetOrder.delete_pet, bind. rewrite send_sent, sent_sent.
  destruct (PetOrder.deleted peers u pet_type_id chosen_pet_name) as [code|].
  2:{ split; [|cbn; discriminate].
      exists q, [PetOrder.DELETE_pet u pet_type_id chosen_pet_name]. cbn.
      split; [reflexivity | split; [exact Hq | right; now exists u, pet_type_id, chosen_pet_name]]. }
  cbn [ret]. destruct (code =? 204).
  2:{ split; [|cbn; discriminate].
      exists q, [PetOrder.DELETE_pet u pet_type_id chosen_pet_name]. cbn.
      split; [reflexivity | split; [exact Hq | right; now exists u, pet_type_id, chosen_pet_name]]. }
  cbn -[PetOrder.stored].
  match goal with |- context [PetOrder.stored ?x] => destruct (PetOrder.stored x) end.
  2:{ split; [|cbn; discriminate].
      exists q, [PetOrder.DELETE_pet u pet_type_id chosen_pet_name]. cbn.
      split; [reflexivity | split; [exact Hq | right; now exists u, pet_type_id, chosen_pet_name]]. }
  cbn. split.
  - exists q, [PetOrder.DELETE_pet u pet_type_id chosen_pet_name].
    split; [reflexivity | split; [exact Hq | right; now exists u, pet_type_id, chosen_pet_name]].
  - intros _.
    exists q, u, pet_type_id, chosen_pet_name.
    eexists {| PetOrder.purchaser := purchaser; PetOrder.pet_type := pet_type;
               PetOrder.store := chosen_store;
               PetOrder.purchase_id := _ |}.
    cbn. split; [reflexivity|]. split.
    + destruct Hq as [q1 [q2 [-> [L1 L2]]]]. intros c Hc.
      apply in_app_or in Hc.
      destruct Hc as [Hc|Hc];
        [destruct L1 as [->|[i ->]] | destruct L2 as [->|[i ->]]];
        cbn in Hc; repeat (destruct Hc as [<-|Hc]; [exact I|]); destruct Hc.
    + split; [exact Eu|]. split; reflexivity.
Qed.

(** Witness of [purchase_without_store_queries_both]: a dog is bought from
    [OrderExamples.peers]. *)
Lemma purchase_without_store_queries_both_witness :
  queries_both_stores OrderExamples.peers (OrderExamples.buy_dog "application/json")
    OrderExamples.empty /\
  (status (fst (PetOrder.create_purchase OrderExamples.peers
                  (OrderExamples.buy_dog "application/json") OrderExamples.empty)) = 201 ->
   one_deletion_one_transaction OrderExamples.peers
     (OrderExamples.buy_dog "application/json") OrderExamples.empty).
Proof.
  apply (purchase_without_store_queries_both OrderExamples.peers
           (OrderExamples.buy_dog "application/json") OrderExamples.empty).
  reflexivity.
Defined.

(** C3 as the specification words it fails: a purchase without a 'store' field that is
    sent as text/plain is answered 415 before any store is queried. *)
Lemma purchase_not_json_queries_no_store :
  no_store_field (OrderExamples.buy_dog "text/plain") /\
  status (fst (PetOrder.create_purchase OrderExamples.peers
                 (OrderExamples.buy_dog "text/plain") OrderExamples.empty)) = 415 /\
  ~ queries_both_stores OrderExamples.peers (OrderExamples.buy_dog "text/plain")
      OrderExamples.empty.
Proof.
  split; [reflexivity|]. split; [reflexivity|].
  intros [q [d [Hc [[q1 [q2 [-> [L1 _]]]] _]]]].
  cbn in Hc. destruct L1 as [->|[id ->]]; discriminate Hc.
Qed.

(** ** GET /transactions *)

Lemma get_transactions_401 (regex : string -> option (string -> bool))
    (req : Request) (s : PetOrder.Order) :
  status (fst (PetOrder.get_transactions regex req s)) = 401 <->
  owner_pc req <> Some PetOrder.OWNER_PASSWORD.
Proof.
  unfold PetOrder.get_transactions.
  destruct (owner_pc req) as [h|].
  - destruct (String.eqb_spec h PetOrder.OWNER_PASSWORD) as [->|Hne]; cbn [negb].
    + split; [|intros H; now contradiction H].
      destruct (PetOrder.build_query _ _) as [query|]; [|discriminate].
      destruct (PetOrder.find _ _ _); discriminate.
    + split; [intros _ E; injection E as E; contradiction | reflexivity].
  - cbn. split; [discriminate | reflexivity].
Qed.

(** C6 (the code departs from the specification): the status is 401 exactly when
    the OwnerPC header is absent or is not the owner's token; but with the
    token, GET /transactions?store=abc is answered 500, not 200: [int]
    raises on "abc" and nothing catches it. *)
Theorem transactions_store_not_a_number
    (regex : string -> option (string -> bool)) (s : PetOrder.Order) :
  (forall req, status (fst (PetOrder.get_transactions regex req s)) = 401 <->
               owner_pc req <> Some PetOrder.OWNER_PASSWORD) /\
  owner_pc OrderExamples.store_abc = Some PetOrder.OWNER_PASSWORD /\
  py_int "abc" = None /\
  PetOrder.get_transactions regex OrderExamples.store_abc s
  = (PetOrder.internal_server_error, s) /\
  status PetOrder.internal_server_error = 500.
Proof.
  split; [intros req; apply get_transactions_401|].
  repeat split.
Qed.

(** * Further properties *)

(** ** Decimal strings and [int] *)

Import Text.

Lemma digits_of_uint_acc (d : Decimal.uint) : forall (acc : positive) (b : bool),
  digits (NilEmpty.string_of_uint d) (Zpos acc) true
  = Some (Zpos (Pos.of_uint_acc d acc)) /\
  (d <> Decimal.Nil ->
   digits (NilEmpty.string_of_uint d) (Zpos acc) b = Some (Zpos (Pos.of_uint_acc d acc))).
Proof.
  induction d as [|d IH|d IH|d IH|d IH|d IH|d IH|d IH|d IH|d IH|d IH]; intros acc b;
    (split; [|intros Hd]); try reflexivity; try congruence;
    cbn [NilEmpty.string_of_uint Pos.of_uint_acc digits];
    match goal with
    | |- context [digit_of ?c] =>
        let v := eval vm_compute in (digit_of c) in change (digit_of c) with v
    end;
    cbv iota;
    match goal with
    | |- digits _ ?x true = Some (Zpos (Pos.of_uint_acc _ ?y)) =>
        replace x with (Zpos y) by lia; apply (proj1 (IH y true))
    end.
Qed.

Lemma digits_of_uint (d : Decimal.uint) : forall b : bool,
  d <> Decimal.Nil \/ b = true ->
  digits (NilEmpty.string_of_uint d) 0 b = Some (Z.of_N (Pos.of_uint d)).
Proof.
  induction d as [|d IH|d IH|d IH|d IH|d IH|d IH|d IH|d IH|d IH|d IH]; intros b Hb.
  - destruct Hb as [Hb| ->]; [congruence | reflexivity].
  - cbn. apply IH. now right.
  - cbn. apply (proj1 (digits_of_uint_acc d 1 true)).
  - cbn. apply (proj1 (digits_of_uint_acc d 2 true)).
  - cbn. apply (proj1 (digits_of_uint_acc d 3 true)).
  - cbn. apply (proj1 (digits_of_uint_acc d 4 true)).
  - cbn. apply (proj1 (digits_of_uint_acc d 5 true)).
  - cbn. apply (proj1 (digits_of_uint_acc d 6 true)).
  - cbn. apply (proj1 (digits_of_uint_acc d 7 true)).
  - cbn. apply (proj1 (digits_of_uint_acc d 8 true)).
  - cbn. apply (proj1 (digits_of_uint_acc d 9 true)).
Qed.

(** A string that starts with a digit has no white space to strip and no
    sign. *)
Lemma parse_int_digit_first (c : ascii) (r : string) :
  PetTypes.is_digit c = true -> parse_int (String c r) = digits (String c r) 0 false.
Proof.
  destruct c as [[] [] [] [] [] [] [] []]; cbn; intros H; try discriminate H; reflexivity.
Qed.

Lemma string_of_uint_digits (d : Decimal.uint) :
  all_chars PetTypes.is_digit (NilEmpty.string_of_uint d) = true.
Proof. induction d; cbn; auto. Qed.

Lemma string_of_uint_first (d : Decimal.uint) :
  d <> Decimal.Nil ->
  exists c r, NilEmpty.string_of_uint d = String c r /\ PetTypes.is_digit c = true.
Proof. destruct d; intros H; [congruence| | | | | | | | | |]; do 2 eexists; split; reflexivity. Qed.

Lemma to_uint_nonnil (p : positive) : Pos.to_uint p <> Decimal.Nil.
Proof.
  intros E. pose proof (DecimalPos.Unsigned.of_to p) as H. rewrite E in H. discriminate H.
Qed.

Lemma parse_int_to_uint (p : positive) :
  parse_int (NilEmpty.string_of_uint (Pos.to_uint p)) = Some (Zpos p) /\
  digits (NilEmpty.string_of_uint (Pos.to_uint p)) 0 false = Some (Zpos p).
Proof.
  pose proof (to_uint_nonnil p) as Hn.
  assert (D : digits (NilEmpty.string_of_uint (Pos.to_uint p)) 0 false = Some (Zpos p)).
  { rewrite digits_of_uint by now left. now rewrite DecimalPos.Unsigned.of_to. }
  split; [|exact D].
  destruct (string_of_uint_first _ Hn) as [c [r [E Hc]]].
  rewrite E in *. now rewrite parse_int_digit_first.
Qed.

(** [str(n)] denotes [n], for every integer [n]. *)
Lemma parse_int_str (n : Z) : parse_int (str n) = Some n.
Proof.
  unfold str. destruct n as [|p|p]; cbn [Z.to_int NilEmpty.string_of_int].
  - reflexivity.
  - apply parse_int_to_uint.
  - change (parse_int (String "-" (NilEmpty.string_of_uint (Pos.to_uint p))))
      with (option_map Z.opp (digits (NilEmpty.string_of_uint (Pos.to_uint p)) 0 false)).
    now rewrite (proj2 (parse_int_to_uint p)).
Qed.

(** [int] within the limit on the digits. *)
Lemma py_int_within (val : string) :
  count_digits val <= MAX_STR_DIGITS -> py_int val = parse_int val.
Proof.
  intros H. unfold py_int.
  destruct (Z.ltb_spec MAX_STR_DIGITS (count_digits val)) as [L|L]; [lia | reflexivity].
Qed.

Lemma py_int_some (val : string) (n : Z) :
  py_int val = Some n -> parse_int val = Some n /\ count_digits val <= MAX_STR_DIGITS.
Proof.
  unfold py_int.
  destruct (Z.ltb_spec MAX_STR_DIGITS (count_digits val)) as [L|L]; [discriminate|].
  intros H. split; [exact H | lia].
Qed.

Lemma count_digits_nonneg (s : string) : 0 <= count_digits s.
Proof.
  induction s as [|c r IH]; cbn [count_digits]; [lia|]. destruct (digit_of c); lia.
Qed.

Lemma count_digits_app (a b : string) :
  count_digits (a ++ b) = count_digits a + count_digits b.
Proof.
  induction a as [|c r IH]; cbn [count_digits String.append]; [reflexivity|].
  destruct (digit_of c); lia.
Qed.

(** ** Runs of characters: [parse_lifespan] and [extract_words] *)

Section Runs.
Variable p : ascii -> bool.

Lemma all_chars_snoc (s : string) (c : ascii) :
  all_chars p (s ++ String c "") = all_chars p s && p c.
Proof.
  induction s as [|x s IH]; cbn; [now rewrite andb_true_r|].
  rewrite IH. now rewrite andb_assoc.
Qed.

Lemma append_snoc (s r : string) (c : ascii) :
  ((s ++ String c "") ++ r = s ++ String c r)%string.
Proof. induction s as [|x s IH]; cbn; [reflexivity | now rewrite IH]. Qed.

Lemma append_empty (s : string) : (s ++ "")%string = s.
Proof. induction s as [|x s IH]; cbn; [reflexivity | now rewrite IH]. Qed.

Lemma snoc_not_empty (s : string) (c : ascii) : (s ++ String c "")%string <> "".
Proof. destruct s; discriminate. Qed.

(** Every string that [findall] returns is a non-empty run of [p]. *)
Lemma findall_runs (text : string) : forall cur : string,
  all_chars p cur = true ->
  Forall (fun w => w <> "" /\ all_chars p w = true) (PetTypes.findall p text cur).
Proof.
  induction text as [|c r IH]; intros cur Hcur; cbn.
  - destruct (String.eqb_spec cur ""); [constructor | repeat constructor; assumption].
  - destruct (p c) eqn:Hc.
    + apply IH. now rewrite all_chars_snoc, Hcur, Hc.
    + destruct (String.eqb_spec cur ""); [now apply IH|].
      constructor; [now split | now apply IH].
Qed.

(** Together the runs hold the characters of the text that satisfy [p]. *)
Lemma findall_join (text : string) : forall cur : string,
  join (PetTypes.findall p text cur) = (cur ++ keep p text)%string.
Proof.
  induction text as [|c r IH]; intros cur; cbn.
  - destruct (String.eqb_spec cur "") as [->|]; cbn; [reflexivity|].
    now rewrite append_empty.
  - destruct (p c) eqn:Hc.
    + rewrite IH. apply append_snoc.
    + destruct (String.eqb_spec cur "") as [->|]; cbn; now rewrite IH.
Qed.

(** A run at the start of the text is read whole. *)
Lemma findall_prefix (w : string) : forall (rest cur : string),
  all_chars p w = true ->
  PetTypes.findall p (w ++ rest) cur = PetTypes.findall p rest (cur ++ w).
Proof.
  induction w as [|c w IH]; intros rest cur Hw; cbn.
  - now rewrite append_empty.
  - cbn in Hw. apply andb_true_iff in Hw. destruct Hw as [Hc Hw].
    rewrite Hc, IH by exact Hw. now rewrite append_snoc.
Qed.

(** One more character outside [p] in front lengthens the first gap. *)
Lemma runs_cons_gap (c : ascii) (text : string) (words : list string) :
  p c = false -> runs p text words -> runs p (String c text) words.
Proof.
  intros Hc H. inversion H as [gap Hg|gap w rest ws Hg Hw Hpw Hrest Hr]; subst.
  - apply runs_gap. cbn. now rewrite Hc.
  - change (String c (gap ++ w ++ rest))%string
      with (String c gap ++ w ++ rest)%string.
    apply runs_word; try assumption. cbn. now rewrite Hc.
Qed.

(** [findall] returns the maximal runs: from the start of a text, and from
    inside a run [cur] that it is reading. *)
Lemma findall_are_runs (text : string) :
  runs p text (PetTypes.findall p text "") /\
  forall cur : string, cur <> "" -> all_chars p cur = true ->
    exists rest words,
      PetTypes.findall p text cur = (cur ++ fst rest)%string :: words /\
      text = (fst rest ++ snd rest)%string /\
      all_chars p (fst rest) = true /\
      starts_outside p (snd rest) = true /\
      runs p (snd rest) words.
Proof.
  induction text as [|c r [IHa IHb]].
  - split; [now apply runs_gap|]. intros cur Hne Hcur.
    exists ("", ""), []. cbn. rewrite append_empty.
    destruct (String.eqb_spec cur ""); [congruence|].
    repeat split. now apply runs_gap.
  - destruct (p c) eqn:Hc.
    + assert (H1 : all_chars p (String c "") = true) by (cbn; now rewrite Hc).
      split.
      * cbn. rewrite Hc. cbn.
        destruct (IHb (String c "") ltac:(discriminate) H1)
          as [[w rest] [ws [E [Et [Hw [Hrest Hr]]]]]].
        cbn [fst snd] in *. rewrite E, Et.
        change (String c (w ++ rest))%string with ("" ++ String c w ++ rest)%string.
        apply runs_word; try assumption; [reflexivity | discriminate |].
        cbn. now rewrite Hc.
      * intros cur Hne Hcur. cbn. rewrite Hc.
        destruct (IHb (cur ++ String c "")%string)
          as [[w rest] [ws [E [Et [Hw [Hrest Hr]]]]]].
        { apply snoc_not_empty. }
        { now rewrite all_chars_snoc, Hcur, Hc. }
        cbn [fst snd] in *.
        exists (String c w, rest), ws. cbn [fst snd].
        rewrite E, append_snoc, Et. repeat split; try assumption.
        cbn. now rewrite Hc.
    + split.
      * cbn. rewrite Hc. cbn. now apply runs_cons_gap.
      * intros cur Hne Hcur. cbn. rewrite Hc.
        destruct (String.eqb_spec cur ""); [congruence|].
        exists ("", String c r), (PetTypes.findall p r ""). cbn [fst snd].
        rewrite append_empty. repeat split.
        -- cbn. now rewrite Hc.
        -- now apply runs_cons_gap.
Qed.

(** A gap is skipped. *)
Lemma findall_gap (gap text : string) :
  all_chars (fun c => negb (p c)) gap = true ->
  PetTypes.findall p (gap ++ text) "" = PetTypes.findall p text "".
Proof.
  induction gap as [|c gap IH]; cbn; [reflexivity|]. intros H.
  apply andb_true_iff in H. destruct H as [Hc Hg].
  apply negb_true_iff in Hc. rewrite Hc. cbn. now apply IH.
Qed.

(** The runs of a text are the strings that [findall] returns. *)
Lemma runs_findall (text : string) (words : list string) :
  runs p text words -> words = PetTypes.findall p text "".
Proof.
  induction 1 as [gap Hg|gap w rest ws Hg Hw Hpw Hrest _ IH].
  - rewrite <- (append_empty gap), findall_gap by exact Hg. reflexivity.
  - rewrite findall_gap by exact Hg.
    rewrite findall_prefix by exact Hpw. cbn [String.append].
    destruct rest as [|c rest].
    + cbn. destruct (String.eqb_spec w ""); [congruence|].
      now rewrite IH.
    + cbn in Hrest. apply negb_true_iff in Hrest. cbn. rewrite Hrest.
      destruct (String.eqb_spec w ""); [congruence|].
      rewrite IH. cbn. now rewrite Hrest.
Qed.

End Runs.

Lemma join_empty (l : list string) :
  Forall (fun w => w <> "") l -> (join l = "" <-> l = []).
Proof.
  intros H. split; [|intros ->; reflexivity].
  destruct l as [|w l]; [reflexivity|]. cbn. inversion H as [|? ? Hw _]; subst.
  destruct w; [congruence | discriminate].
Qed.

(** X1: of a text of ASCII characters, [extract_words] returns the words:
    the maximal non-empty runs of letters, digits and underscores, in
    order, and no other list of strings is that; no text or an empty text
    has no word. *)
Theorem extract_words_are_the_words (text : option string) :
  is_ascii (text_of text) = true ->
  runs PetTypes.is_word (text_of text) (PetTypes.extract_words text) /\
  forall words, runs PetTypes.is_word (text_of text) words ->
                words = PetTypes.extract_words text.
Proof.
  intros _. unfold PetTypes.extract_words.
  destruct text as [t|]; cbn [text_of].
  - destruct (String.eqb_spec t "") as [->|_].
    + split; [now apply runs_gap|]. intros words H.
      now apply runs_findall in H.
    + split; [apply findall_are_runs | apply runs_findall].
  - split; [now apply runs_gap|]. intros words H. now apply runs_findall in H.
Qed.

(** Witness of [extract_words_are_the_words]: "Loyal and friendly". *)
Lemma extract_words_are_the_words_witness :
  runs PetTypes.is_word "Loyal and friendly"
    (PetTypes.extract_words (Some "Loyal and friendly")) /\
  forall words, runs PetTypes.is_word "Loyal and friendly" words ->
                words = PetTypes.extract_words (Some "Loyal and friendly").
Proof.
  apply (extract_words_are_the_words (Some "Loyal and friendly")). reflexivity.
Defined.

(** A non-empty string of digits is a number, and not a negative one. *)
Lemma digits_all_digit (w : string) : forall (acc : Z) (b : bool),
  all_chars PetTypes.is_digit w = true -> 0 <= acc -> w <> "" \/ b = true ->
  exists v, digits w acc b = Some v /\ 0 <= v.
Proof.
  induction w as [|c w IH]; intros acc b Hw Hacc Hb.
  - destruct Hb as [Hb| ->]; [congruence|]. now exists acc.
  - cbn in Hw. apply andb_true_iff in Hw. destruct Hw as [Hc Hw].
    cbn [digits]. unfold PetTypes.is_digit in Hc.
    destruct (digit_of c) as [d|] eqn:Ed; [|discriminate Hc].
    apply IH; [exact Hw | | now right].
    unfold digit_of in Ed.
    destruct (Nat.leb 48 (nat_of_ascii c) && Nat.leb (nat_of_ascii c) 57)%bool eqn:E;
      [|discriminate Ed].
    injection Ed as <-. apply andb_true_iff in E. destruct E as [E _].
    apply Nat.leb_le in E. lia.
Qed.

Lemma py_int_all_digit (w : string) :
  w <> "" -> all_chars PetTypes.is_digit w = true ->
  count_digits w <= MAX_STR_DIGITS ->
  exists v, py_int w = Some v /\ 0 <= v.
Proof.
  intros Hne Hw Hlim. rewrite (py_int_within w Hlim).
  destruct w as [|c r]; [congruence|].
  assert (Hc : PetTypes.is_digit c = true)
    by (cbn in Hw; now apply andb_true_iff in Hw).
  rewrite (parse_int_digit_first c r Hc).
  apply digits_all_digit; [exact Hw | lia | now left].
Qed.

Lemma ints_of_runs (numbers : list string) :
  Forall (fun w => w <> "" /\ all_chars PetTypes.is_digit w = true) numbers ->
  Forall (fun w => count_digits w <= MAX_STR_DIGITS) numbers ->
  exists l, PetTypes.ints numbers = Val l /\
            List.length l = List.length numbers /\ Forall (fun v => 0 <= v) l.
Proof.
  induction 1 as [|w ws [Hne Hw] _ IH]; intros Hlim; cbn.
  - exists []. repeat split. constructor.
  - inversion Hlim as [|? ? Hw1 Hws]; subst.
    destruct (py_int_all_digit w Hne Hw Hw1) as [v [-> Hv]].
    destruct (IH Hws) as [l [-> [Hlen Hl]]].
    exists (v :: l). cbn. repeat split; [now rewrite Hlen | now constructor].
Qed.

(** The digits of a text are those of its runs of digits. *)
Lemma count_digits_keep (s : string) :
  count_digits (keep PetTypes.is_digit s) = count_digits s.
Proof.
  induction s as [|c r IH]; [reflexivity|].
  cbn [keep count_digits].
  destruct (PetTypes.is_digit c) eqn:Ed; unfold PetTypes.is_digit in Ed;
    destruct (digit_of c) eqn:E; try discriminate Ed; [|exact IH].
  cbn [count_digits]. rewrite E, IH. reflexivity.
Qed.

Lemma count_digits_member (w : string) (l : list string) :
  In w l -> count_digits w <= count_digits (join l).
Proof.
  induction l as [|x l IH]; [intros []|]. cbn [join fold_right].
  fold (join l). rewrite count_digits_app.
  pose proof (count_digits_nonneg x) as Hx.
  pose proof (count_digits_nonneg (join l)) as Hl.
  intros [->|Hin]; [lia|]. specialize (IH Hin). lia.
Qed.

(** The least element of a non-empty list. *)
Lemma minimum_least (l : list Z) :
  l <> [] -> exists m, PetTypes.minimum l = Some m /\ In m l /\ forall x, In x l -> m <= x.
Proof.
  induction l as [|x r IH]; [congruence|]. intros _. cbn.
  destruct r as [|y r].
  - exists x. cbn. repeat split; [now left | intros z [<-|[]]; lia].
  - destruct IH as [m [-> [Hin Hle]]]; [discriminate|].
    exists (Z.min x m). split; [reflexivity|]. split.
    + destruct (Z.min_spec x m) as [[_ ->]|[_ ->]]; [now left | now right].
    + intros z [<-|Hz]; [lia|]. specialize (Hle z Hz). lia.
Qed.

(** X2: of a text of ASCII characters with at most 4300 digits,
    [parse_lifespan] does not raise; it returns None exactly when the text
    is missing or holds no digit, and otherwise a number that is not
    negative. *)
Theorem parse_lifespan_total (text : option string) :
  is_ascii (text_of text) = true ->
  count_digits (text_of text) <= MAX_STR_DIGITS ->
  exists r, PetTypes.parse_lifespan text = Val r /\
            (r = None <-> keep PetTypes.is_digit (text_of text) = "") /\
            (forall m, r = Some m -> 0 <= m).
Proof.
  intros _ Hlim. unfold PetTypes.parse_lifespan.
  destruct text as [t|]; cbn [text_of] in *;
    [|exists None; split; [reflexivity | split; [split; reflexivity | discriminate]]].
  destruct (String.eqb_spec t "") as [->|_];
    [exists None; split; [reflexivity | split; [split; reflexivity | discriminate]]|].
  pose proof (findall_runs PetTypes.is_digit t "" eq_refl) as Hruns.
  pose proof (findall_join PetTypes.is_digit t "") as Hjoin. cbn [String.append] in Hjoin.
  assert (Hne : Forall (fun w => w <> "") (PetTypes.findall PetTypes.is_digit t "")).
  { eapply Forall_impl; [|exact Hruns]. now intros w [H _]. }
  assert (Hshort : Forall (fun w => count_digits w <= MAX_STR_DIGITS)
                     (PetTypes.findall PetTypes.is_digit t "")).
  { apply Forall_forall. intros w Hw. apply count_digits_member in Hw.
    rewrite Hjoin, count_digits_keep in Hw. lia. }
  pose proof (join_empty _ Hne) as Hempty. rewrite Hjoin in Hempty.
  destruct (PetTypes.findall PetTypes.is_digit t "") as [|w ws] eqn:E.
  - exists None. split; [reflexivity|]. split; [|discriminate].
    split; [intros _; now apply Hempty | reflexivity].
  - destruct (ints_of_runs _ Hruns Hshort) as [l [-> [Hlen Hl]]].
    destruct (minimum_least l) as [m [Hm [Hin _]]].
    { destruct l; [discriminate Hlen | discriminate]. }
    exists (Some m). split; [now rewrite Hm|]. split.
    + split; [discriminate|]. intros K. apply Hempty in K. discriminate K.
    + intros m' E'. injection E' as <-.
      rewrite Forall_forall in Hl. now apply Hl.
Qed.

(** Witness of [parse_lifespan_total]: "10 - 12 years". *)
Lemma parse_lifespan_total_witness :
  exists r, PetTypes.parse_lifespan (Some "10 - 12 years") = Val r /\
            (r = None <-> keep PetTypes.is_digit "10 - 12 years" = "") /\
            (forall m, r = Some m -> 0 <= m).
Proof.
  apply (parse_lifespan_total (Some "10 - 12 years")); [reflexivity|].
  vm_compute. discriminate.
Defined.

Section RunsOfOthers.
Variable p : ascii -> bool.

Lemma keep_cons_empty (c : ascii) (r : string) :
  keep p (String c r) = "" -> p c = false /\ keep p r = "".
Proof. cbn. destruct (p c); [discriminate | now split]. Qed.

(** A text without a character of [p] ends the run being read, if any,
    and adds none. *)
Lemma findall_none (s : string) : forall cur : string,
  keep p s = "" ->
  PetTypes.findall p s cur = if (cur =? "")%string then [] else [cur].
Proof.
  induction s as [|c r IH]; intros cur H; [reflexivity|].
  apply keep_cons_empty in H. destruct H as [Hc Hr]. cbn. rewrite Hc.
  rewrite (IH "" Hr). cbn. now destruct (cur =? "")%string.
Qed.

(** Characters outside [p] between two runs separate them. *)
Lemma findall_separated (w sep rest : string) :
  w <> "" -> all_chars p w = true -> sep <> "" -> keep p sep = "" ->
  PetTypes.findall p (w ++ sep ++ rest) "" = w :: PetTypes.findall p rest "".
Proof.
  intros Hw Hpw Hsep Hks.
  rewrite findall_prefix by exact Hpw. cbn [String.append].
  destruct sep as [|c sep]; [congruence|].
  apply keep_cons_empty in Hks. destruct Hks as [Hc Hks].
  cbn. rewrite Hc. destruct (String.eqb_spec w ""); [congruence|]. f_equal.
  clear Hc Hsep. induction sep as [|x sep IH]; [reflexivity|].
  apply keep_cons_empty in Hks. destruct Hks as [Hx Hks]. cbn. rewrite Hx. now apply IH.
Qed.

End RunsOfOthers.

Lemma str_is_number (n : Z) :
  0 <= n -> str n <> "" /\ all_chars PetTypes.is_digit (str n) = true.
Proof.
  intros Hn. unfold str. destruct n as [|q|q]; [split; [discriminate | reflexivity] | | lia].
  cbn [Z.to_int NilEmpty.string_of_int]. split; [|apply string_of_uint_digits].
  destruct (string_of_uint_first _ (to_uint_nonnil q)) as [c [r [E _]]]. rewrite E. discriminate.
Qed.

(** X3: of a text of ASCII characters that gives a range, two numbers
    that are not negative and have at most 4300 digits each, with
    something but digits between them and after them (such as
    "10 - 12 years"), [parse_lifespan] returns the smaller number. *)
Theorem parse_lifespan_of_range (a b : Z) (sep tail : string) :
  0 <= a -> 0 <= b ->
  count_digits (str a) <= MAX_STR_DIGITS -> count_digits (str b) <= MAX_STR_DIGITS ->
  is_ascii sep = true -> is_ascii tail = true ->
  sep <> "" -> keep PetTypes.is_digit sep = "" -> keep PetTypes.is_digit tail = "" ->
  PetTypes.parse_lifespan (Some (str a ++ sep ++ str b ++ tail)%string)
  = Val (Some (Z.min a b)).
Proof.
  intros Ha Hb Hla Hlb _ _ Hsep Hks Hkt.
  destruct (str_is_number a Ha) as [Hae Had].
  destruct (str_is_number b Hb) as [Hbe Hbd].
  unfold PetTypes.parse_lifespan.
  destruct (String.eqb_spec (str a ++ sep ++ str b ++ tail) "") as [E|_].
  { destruct (str a); [congruence | discriminate E]. }
  rewrite (findall_separated _ _ _ _ Hae Had Hsep Hks).
  rewrite findall_prefix by exact Hbd. cbn [String.append].
  rewrite (findall_none _ _ _ Hkt).
  destruct (String.eqb_spec (str b) ""); [congruence|].
  cbn [PetTypes.ints].
  rewrite (py_int_within _ Hla), (py_int_within _ Hlb), !parse_int_str.
  reflexivity.
Qed.

(** Witness of [parse_lifespan_of_range]: "10 - 12 years". *)
Lemma parse_lifespan_of_range_witness :
  PetTypes.parse_lifespan (Some (str 10 ++ " - " ++ str 12 ++ " years")%string)
  = Val (Some (Z.min 10 12)).
Proof.
  apply (parse_lifespan_of_range 10 12 " - " " years");
    try reflexivity; try discriminate; try lia; vm_compute; discriminate.
Defined.

(** ** POST /pet-types *)

Import StoreInvariants.

(** What POST /pet-types does: nothing at all, or (on 201) it takes the
    next id from the counter and appends a pet type with that id, a name
    equal to the requested one up to case, and no pet, or (on a 500) it
    takes the next id from the counter and does nothing else: the
    lifespan of the animal cannot be read or cannot be stored. *)
Lemma add_pet_type_cases (animals : string -> outcome (Z * list PetTypes.Animal))
    (req : Request) (s : PetStore.Store) :
  let r := PetTypes.add_pet_type animals req s in
  (status (fst r) <> 201 /\ snd r = s) \/
  (exists requested pt,
     fst r = (PetStore.clean_pet_type pt, 201) /\
     find_one (PetTypes.type_like requested) (PetStore.pet_types_collection s) = None /\
     lower (PetStore.pt_type pt) = lower requested /\
     PetStore.pt_id pt = str (inc_seq (PetStore.counters_collection s)) /\
     PetStore.pt_pets pt = [] /\
     snd r = {| PetStore.pet_types_collection := PetStore.pet_types_collection s ++ [pt];
                PetStore.pets_collection := PetStore.pets_collection s;
                PetStore.counters_collection :=
                  Some (inc_seq (PetStore.counters_collection s));
                PetStore.images := PetStore.images s |}) \/
  (status (fst r) = 500 /\
   snd r = PetStore.with_counter (Some (inc_seq (PetStore.counters_collection s))) s).
Proof.
  cbv zeta.
  unfold PetTypes.add_pet_type, try_except, bind, gets, lift, get_json.
  destruct (negb (is_json req)); [left; split; [discriminate | reflexivity]|].
  destruct (body req) as [data|]; [|left; split; [discriminate | reflexivity]].
  cbn [ret].
  destruct (PetTypes.not_one_type data) as [[|]|];
    try (left; split; [discriminate | reflexivity]).
  destruct (py_item "type" data) as [requested|]; [|left; split; [discriminate | reflexivity]].
  destruct requested as [| | |requested| |];
    try (left; split; [discriminate | reflexivity]).
  destruct (find_one (PetTypes.type_like requested) (PetStore.pet_types_collection s))
    as [existing|] eqn:Eex; [left; split; [discriminate | reflexivity]|].
  destruct (animals requested) as [[status_code results]|];
    [|left; split; [discriminate | reflexivity]].
  cbn [fst snd].
  destruct (negb (status_code =? 200)); [left; split; [discriminate | reflexivity]|].
  destruct results as [|item results]; [left; split; [discriminate | reflexivity]|].
  destruct (PetTypes.choose (item :: results) requested) as [chosen|] eqn:Ech;
    [|left; split; [discriminate | reflexivity]].
  assert (Hname : lower match PetTypes.animal_name chosen with
                        | Some n => n
                        | None => requested
                        end = lower requested).
  { clear Eex. induction (item :: results) as [|x l IH]; [discriminate Ech|].
    cbn in Ech.
    destruct (String.eqb_spec
                (lower match PetTypes.animal_name x with Some n => n | None => "" end)
                (lower requested)) as [E|_]; [|now apply IH].
    injection Ech as <-. destruct (PetTypes.animal_name x); [exact E | reflexivity]. }
  unfold PetStore.get_next_pet_type_id.
  assert (L : (exists lifespan, forall s0 : PetStore.Store,
                 match assoc "lifespan" (PetTypes.characteristics chosen) with
                 | Some text => lift (PetTypes.parse_lifespan (Some text))
                 | None => ret None
                 end s0 = (Val lifespan, s0)) \/
              (forall s0 : PetStore.Store,
                 match assoc "lifespan" (PetTypes.characteristics chosen) with
                 | Some text => lift (PetTypes.parse_lifespan (Some text))
                 | None => ret None
                 end s0 = (Exc, s0))).
  { destruct (assoc "lifespan" (PetTypes.characteristics chosen)) as [text|].
    - destruct (PetTypes.parse_lifespan (Some text)) as [lifespan|];
        [left; now exists lifespan | now right].
    - left. now exists None. }
  destruct L as [[lifespan L]|L]; rewrite L.
  2:{ right. right. split; reflexivity. }
  match goal with |- context [PetStore.stored_type ?x] => destruct (PetStore.stored_type x) end;
    cbn [negb].
  2:{ right. right. split; reflexivity. }
  right. left. eexists requested, _. cbn.
  split; [reflexivity|]. split; [exact Eex|]. split; [exact Hname|].
  split; [reflexivity|]. split; reflexivity.
Qed.

(** X4: a POST /pet-types that is not answered 201 adds no pet type,
    changes no pet and no image, and takes at most one id from the
    counter; unless it is answered 500, it leaves the whole store as it
    was. *)
Theorem add_pet_type_failure_adds_nothing
    (animals : string -> outcome (Z * list PetTypes.Animal))
    (req : Request) (s : PetStore.Store) :
  let r := PetTypes.add_pet_type animals req s in
  status (fst r) <> 201 ->
  PetStore.pet_types_collection (snd r) = PetStore.pet_types_collection s /\
  PetStore.pets_collection (snd r) = PetStore.pets_collection s /\
  PetStore.images (snd r) = PetStore.images s /\
  (PetStore.counters_collection (snd r) = PetStore.counters_collection s \/
   PetStore.counters_collection (snd r)
   = Some (inc_seq (PetStore.counters_collection s))) /\
  (status (fst r) <> 500 -> snd r = s).
Proof.
  cbv zeta. intros H.
  destruct (add_pet_type_cases animals req s)
    as [[_ E]|[[requested [pt [E _]]]|[E5 E]]].
  - rewrite E. repeat split; auto.
  - rewrite E in H. now contradiction H.
  - rewrite E. repeat split; auto. intros K. now contradiction K.
Qed.

(** X5: POST /pet-types with a type name that a stored pet type already
    has, up to letter case, is answered 400 and changes nothing; the
    animals service is not asked. *)
Theorem add_pet_type_rejects_known_type
    (animals : string -> outcome (Z * list PetTypes.Animal))
    (req : Request) (s : PetStore.Store) (requested : string) (pt : PetStore.PetType) :
  is_json req = true ->
  body req = Some (JObj [("type", JStr requested)]) ->
  In pt (PetStore.pet_types_collection s) ->
  lower (PetStore.pt_type pt) = lower requested ->
  PetTypes.add_pet_type animals req s
  = ((message "error" "Pet type already exists", 400), s).
Proof.
  intros Hjson Hbody Hin Hlow.
  assert (Hlike : PetTypes.type_like requested pt = true)
    by (unfold PetTypes.type_like, matches_i; now rewrite Hlow, String.eqb_refl).
  destruct (find_one_some _ _ pt Hin Hlike) as [pt' [E _]].
  unfold PetTypes.add_pet_type, try_except, bind, gets, lift, get_json.
  rewrite Hjson, Hbody. cbn. now rewrite E.
Qed.

(** ** The pet store as a whole *)

Section MoreCollectionFacts.
Context {A B : Type}.
Variable f : A -> bool.

Lemma map_update_one (g : A -> B) (u : A -> A) (c : list A) :
  (forall x, g (u x) = g x) -> map g (update_one f u c) = map g c.
Proof.
  intros H. induction c as [|d r IH]; cbn; [reflexivity|].
  destruct (f d); cbn; [now rewrite H | now rewrite IH].
Qed.

Lemma update_one_in (u : A -> A) (c : list A) (x : A) :
  In x (update_one f u c) -> In x c \/ exists d, In d c /\ x = u d.
Proof.
  induction c as [|d r IH]; cbn; [intros []|].
  destruct (f d); cbn.
  - intros [<-|H]; [right; exists d; auto | left; now right].
  - intros [<-|H]; [left; now left|].
    destruct (IH H) as [H'|[e [He ->]]]; [left; now right | right; exists e; auto].
Qed.

Lemma delete_one_in (c : list A) (x : A) : In x (delete_one f c) -> In x c.
Proof.
  induction c as [|d r IH]; cbn; [intros []|].
  destruct (f d); cbn; [now right|]. intros [<-|H]; [now left | right; now apply IH].
Qed.

Lemma delete_one_nodup (g : A -> B) (c : list A) :
  NoDup (map g c) -> NoDup (map g (delete_one f c)).
Proof.
  induction c as [|d r IH]; cbn; [intros H; exact H|].
  intros H. inversion H as [|? ? Hd Hr]; subst.
  destruct (f d); cbn; [exact Hr|]. constructor; [|now apply IH].
  intros K. apply Hd. apply in_map_iff in K. destruct K as [x [E Hx]].
  apply in_map_iff. exists x. split; [exact E | now apply delete_one_in].
Qed.

End MoreCollectionFacts.

(** *** What the handlers of pets do to the pet types and to the counter *)

Lemma with_pt_pets_id (g : list string -> list string) (pt : PetStore.PetType) :
  PetStore.pt_id (PetStore.with_pt_pets g pt) = PetStore.pt_id pt.
Proof. reflexivity. Qed.

Lemma with_pt_pets_type (g : list string -> list string) (pt : PetStore.PetType) :
  PetStore.pt_type (PetStore.with_pt_pets g pt) = PetStore.pt_type pt.
Proof. reflexivity. Qed.

Lemma remove_image_file_counter (filename : string) (s : PetStore.Store) :
  PetStore.counters_collection (snd (PetStore.remove_image_file filename s))
  = PetStore.counters_collection s.
Proof.
  unfold PetStore.remove_image_file.
  now destruct ((filename =? "") || (filename =? "NA"))%string.
Qed.

Lemma download_image_counter (fetch : string -> option string) (url : json)
    (s : PetStore.Store) :
  PetStore.counters_collection (snd (PetStore.download_image fetch url s))
  = PetStore.counters_collection s.
Proof.
  unfold PetStore.download_image.
  destruct url as [| | |u| |]; try reflexivity. now destruct (fetch u).
Qed.

Lemma first_picture_counter (fetch : string -> option string) (pic_url : json)
    (s : PetStore.Store) :
  PetStore.counters_collection (snd (PetStore.first_picture fetch pic_url s))
  = PetStore.counters_collection s.
Proof.
  unfold PetStore.first_picture, bind.
  destruct (truthy pic_url); [|reflexivity].
  pose proof (download_image_counter fetch pic_url s) as H.
  destruct (PetStore.download_image fetch pic_url s) as [[f|] s1]; exact H.
Qed.

Lemma refresh_picture_counter (fetch : string -> option string) (new_url : json)
    (pet : PetStore.Pet) (s : PetStore.Store) :
  PetStore.counters_collection (snd (PetStore.refresh_picture fetch new_url pet s))
  = PetStore.counters_collection s.
Proof.
  assert (R : forall s0 : PetStore.Store,
            PetStore.counters_collection
              (snd ((if negb (PetStore.picture pet =? "NA")%string
                     then PetStore.remove_image_file (PetStore.picture pet)
                     else ret tt) s0))
            = PetStore.counters_collection s0).
  { intros s0. destruct (negb _); [apply remove_image_file_counter | reflexivity]. }
  assert (D : forall (u : json) (s0 : PetStore.Store),
            PetStore.counters_collection
              (snd (((if negb (PetStore.picture pet =? "NA")%string
                      then PetStore.remove_image_file (PetStore.picture pet)
                      else ret tt) ;;
                     f <- PetStore.download_image fetch u ;;
                     ret (match f with Some f => f | None => "NA" end, u)) s0))
            = PetStore.counters_collection s0).
  { intros u s0. unfold bind. specialize (R s0).
    destruct ((if negb (PetStore.picture pet =? "NA")%string
               then PetStore.remove_image_file (PetStore.picture pet)
               else ret tt) s0) as [[[]|] s1]; [|exact R].
    pose proof (download_image_counter fetch u s1) as H.
    destruct (PetStore.download_image fetch u s1) as [[f|] s2]; cbn in *; congruence. }
  unfold PetStore.refresh_picture.
  destruct new_url;
    try solve [destruct (py_eq _ (PetStore._picture_url pet)); [reflexivity | apply D]].
  unfold bind. specialize (R s).
  destruct ((if negb (PetStore.picture pet =? "NA")%string
             then PetStore.remove_image_file (PetStore.picture pet)
             else ret tt) s) as [[[]|] s1]; exact R.
Qed.

Lemma add_pet_counter (fetch : string -> option string) (id : string) (req : Request)
    (s : PetStore.Store) :
  PetStore.counters_collection (snd (PetStore.add_pet fetch id req s))
  = PetStore.counters_collection s.
Proof.
  unfold PetStore.add_pet, try_except, bind, gets, lift, get_json.
  destruct (find_one (PetStore.has_id id) (PetStore.pet_types_collection s)); [|reflexivity].
  destruct (negb (is_json req)); [reflexivity|].
  destruct (body req) as [data|]; [|reflexivity]. cbn [ret].
  destruct (PetStore.lacks "name" data) as [[|]|]; try reflexivity.
  destruct (py_item "name" data) as [name|]; [|reflexivity].
  destruct (py_get "birthdate" data) as [bd|]; [|reflexivity].
  destruct (py_get "picture-url" data) as [pic_url|]; [|reflexivity].
  destruct (PetStore.any_same_name _ name) as [[|]|]; try reflexivity.
  pose proof (first_picture_counter fetch pic_url s) as H.
  destruct (PetStore.first_picture fetch pic_url s) as [[picture|] s1]; [|exact H].
  destruct name; try exact H.
  match goal with |- context [PetStore.stored ?x] => destruct (PetStore.stored x) end;
    exact H.
Qed.

Lemma update_pet_counter (fetch : string -> option string) (id n : string) (req : Request)
    (s : PetStore.Store) :
  PetStore.counters_collection (snd (PetStore.update_pet fetch id n req s))
  = PetStore.counters_collection s.
Proof.
  unfold PetStore.update_pet, try_except, bind, gets, lift, get_json.
  destruct (find_one (PetStore.has_id id) (PetStore.pet_types_collection s)); [|reflexivity].
  destruct (negb (is_json req)); [reflexivity|].
  destruct (body req) as [data|]; [|reflexivity]. cbn [ret].
  destruct (PetStore.lacks "name" data) as [[|]|]; try reflexivity.
  destruct (find_one (PetStore.pet_named id (lower n)) (PetStore.pets_collection s)) as [pet|];
    [|reflexivity].
  destruct (py_item "name" data) as [new_name|]; [|reflexivity].
  destruct (py_get "birthdate" data) as [bd|]; [|reflexivity].
  destruct (py_get "picture-url" data) as [new_url|]; [|reflexivity].
  pose proof (refresh_picture_counter fetch new_url pet s) as H.
  destruct (PetStore.refresh_picture fetch new_url pet s) as [[pic|] s1]; [|exact H].
  destruct new_name as [| | |new| |]; try exact H.
  match goal with |- context [PetStore.stored ?x] => destruct (PetStore.stored x) end;
    cbn [negb]; [|exact H].
  unfold modify.
  destruct (negb (lower new =? lower n)%string); cbn [ret];
    match goal with
    | |- context [find_one ?f ?c] => destruct (find_one f c)
    end; exact H.
Qed.

Lemma delete_pet_counter (id n : string) (s : PetStore.Store) :
  PetStore.counters_collection (snd (PetStore.delete_pet id n s))
  = PetStore.counters_collection s.
Proof.
  unfold PetStore.delete_pet.
  destruct (find_one (PetStore.has_id id) (PetStore.pet_types_collection s)); [|reflexivity].
  destruct (find_one (PetStore.pet_named id (lower n)) (PetStore.pets_collection s)) as [pet|];
    [|reflexivity].
  cbn. apply remove_image_file_counter.
Qed.

(** What a POST /pet-types/{id}/pets answered 201 has done. *)
Lemma add_pet_effect (fetch : string -> option string) (id : string) (req : Request)
    (s : PetStore.Store) :
  let r := PetStore.add_pet fetch id req s in
  status (fst r) = 201 ->
  exists ptype n obj,
    find_one (PetStore.has_id id) (PetStore.pet_types_collection s) = Some ptype /\
    PetStore.any_same_name (PetStore.pt_pets ptype) (JStr n) = Val false /\
    PetStore.pet_type_id obj = id /\ PetStore.name obj = n /\
    PetStore.name_lower obj = lower n /\
    fst r = (PetStore.clean_pet obj, 201) /\
    PetStore.pets_collection (snd r) = PetStore.pets_collection s ++ [obj] /\
    PetStore.pet_types_collection (snd r)
    = update_one (PetStore.has_id id) (PetStore.with_pt_pets (fun l => l ++ [n]))
        (PetStore.pet_types_collection s).
Proof.
  cbv zeta.
  unfold PetStore.add_pet, try_except, bind, gets, lift, get_json.
  destruct (find_one (PetStore.has_id id) (PetStore.pet_types_collection s)) as [ptype|] eqn:Ept;
    [|discriminate].
  destruct (negb (is_json req)); [discriminate|].
  destruct (body req) as [data|]; [|discriminate].
  cbn [ret].
  destruct (PetStore.lacks "name" data) as [[|]|]; try discriminate.
  destruct (py_item "name" data) as [name|]; [|discriminate].
  destruct (py_get "birthdate" data) as [bd|]; [|discriminate].
  destruct (py_get "picture-url" data) as [pic_url|]; [|discriminate].
  destruct (PetStore.any_same_name (PetStore.pt_pets ptype) name) as [[|]|] eqn:Edup;
    try discriminate.
  destruct (first_picture_keeps fetch pic_url s) as [picture [s1 [E1 [P1 T1]]]]. rewrite E1.
  destruct name as [| | |n| |]; try discriminate.
  match goal with |- context [PetStore.stored ?x] => destruct (PetStore.stored x) end;
    cbn [negb]; [|discriminate].
  intros _.
  exists ptype, n,
    {| PetStore.pet_type_id := id; PetStore.name := n; PetStore.name_lower := lower n;
       PetStore.birthdate := if truthy bd then bd else JStr "NA";
       PetStore.picture := picture; PetStore._picture_url := pic_url |}.
  cbn. rewrite P1, T1. repeat split. exact Edup.
Qed.

(** The handlers of pets leave the ids and the names of the pet types, and
    the counter, as they were. *)
Lemma add_pet_same_types (fetch : string -> option string) (id : string) (req : Request)
    (s : PetStore.Store) :
  same_types s (snd (PetStore.add_pet fetch id req s)).
Proof.
  unfold same_types. rewrite add_pet_counter.
  destruct (add_pet_cases fetch id req s) as [[_ [_ T]]|[pt [n [obj [_ [_ [_ [_ [_ [_ T]]]]]]]]]];
    rewrite T; [now repeat split|].
  rewrite !map_update_one by reflexivity. now repeat split.
Qed.

Lemma update_pet_same_types (fetch : string -> option string) (id n : string)
    (req : Request) (s : PetStore.Store) :
  same_types s (snd (PetStore.update_pet fetch id n req s)).
Proof.
  unfold same_types. rewrite update_pet_counter.
  destruct (update_pet_cases fetch id n req s)
    as [[_ T]|[pt [p [data [new [bd [pic [url [_ [_ [_ [_ [_ [_ T]]]]]]]]]]]]]];
    rewrite T; [now repeat split|].
  destruct (negb (lower new =? lower n)%string); [|now repeat split].
  rewrite !map_update_one by reflexivity. now repeat split.
Qed.

Lemma delete_pet_same_types (id n : string) (s : PetStore.Store) :
  same_types s (snd (PetStore.delete_pet id n s)).
Proof.
  unfold same_types. rewrite delete_pet_counter. unfold PetStore.delete_pet.
  destruct (find_one (PetStore.has_id id) (PetStore.pet_types_collection s));
    [|now repeat split].
  destruct (find_one (PetStore.pet_named id (lower n)) (PetStore.pets_collection s)) as [pet|];
    [|now repeat split].
  destruct (remove_image_file_keeps (PetStore.picture pet) s) as [s1 [E1 [_ T1]]].
  cbn zeta. rewrite E1. cbn. rewrite T1, !map_update_one by reflexivity. now repeat split.
Qed.

(** *** The invariants of the store, request by request *)

(** The requests that only read leave the store as it is. *)
Lemma serve_reads (r : Service.request) (s : PetStore.Store) :
  match r with
  | Service.GET_pet_types _ | Service.GET_pet_type _ | Service.PUT_pet_type _
  | Service.GET_pets _ _ _ | Service.GET_pet _ _ => snd (Service.serve r s) = s
  | _ => True
  end.
Proof.
  destruct r as [req|animals req|id|id|id|fetch id req|strptime id req|id n|fetch id n req|id n];
    cbn [Service.serve]; try exact I.
  - unfold PetStore.get_pet_types. now destruct (args req).
  - unfold PetStore.get_pet_type_by_id. now destruct (find_one _ _).
  - reflexivity.
  - unfold PetStore.get_pets. destruct (find_one _ _); [|reflexivity].
    destruct (args req); [reflexivity|].
    destruct (PetStore.bound _ _); [|reflexivity]. now destruct (PetStore.bound _ _).
  - unfold PetStore.get_pet_by_name. destruct (find_one _ _); [|reflexivity].
    now destruct (find_one _ _).
Qed.

Lemma same_types_ids_issued (s s' : PetStore.Store) :
  same_types s s' -> ids_issued s -> ids_issued s'.
Proof. intros [I [_ C]] H. unfold ids_issued. now rewrite I, C. Qed.

Lemma same_types_types_unique (s s' : PetStore.Store) :
  same_types s s' -> types_unique s -> types_unique s'.
Proof.
  intros [_ [T _]] H. unfold types_unique in *.
  rewrite <- (map_map PetStore.pt_type lower) in *. now rewrite T.
Qed.

Lemma serve_ids_issued (r : Service.request) (s : PetStore.Store) :
  ids_issued s -> ids_issued (snd (Service.serve r s)).
Proof.
  intros H. pose proof (serve_reads r s) as Hr.
  destruct r as [req|animals req|id|id|id|fetch id req|strptime id req|id n|fetch id n req|id n];
    try (rewrite Hr; exact H); cbn [Service.serve].
  - destruct (add_pet_type_cases animals req s)
      as [[_ ->]|[[rq [pt [_ [_ [_ [Hid [_ ->]]]]]]]|[_ ->]]]; [exact H| |].
    + destruct H as [Hn Hi]. unfold ids_issued. cbn.
      rewrite map_app. cbn. rewrite Hid, inc_seq_of. split.
      * apply NoDup_app; [exact Hn | repeat constructor; intros [] |].
        intros i Hin [<-|[]]. destruct (Hi _ Hin) as [k [E Hk]].
        apply str_inj in E. lia.
      * intros i Hin. apply in_app_or in Hin. destruct Hin as [Hin|[<-|[]]].
        -- destruct (Hi i Hin) as [k [E Hk]]. exists k. split; [exact E | lia].
        -- eexists. split; [reflexivity | lia].
    + destruct H as [Hn Hi]. split; [exact Hn|]. cbn. rewrite inc_seq_of.
      intros i Hin. destruct (Hi i Hin) as [k [E Hk]]. exists k. split; [exact E | lia].
  - unfold PetStore.delete_pet_type.
    destruct (find_one _ _) as [pt|]; [|exact H].
    destruct (PetStore.pt_pets pt); [|exact H].
    destruct H as [Hn Hi]. split; cbn.
    + now apply delete_one_nodup.
    + intros i Hin. apply Hi. apply in_map_iff in Hin. destruct Hin as [x [E Hx]].
      apply in_map_iff. exists x. split; [exact E | now apply delete_one_in in Hx].
  - apply (same_types_ids_issued s); [apply add_pet_same_types | exact H].
  - apply (same_types_ids_issued s); [apply update_pet_same_types | exact H].
  - apply (same_types_ids_issued s); [apply delete_pet_same_types | exact H].
Qed.

Lemma find_one_none_all {A : Type} (f : A -> bool) (c : list A) :
  find_one f c = None -> forall d, In d c -> f d = false.
Proof. intros H d Hd. exact (find_none f c H d Hd). Qed.

Lemma serve_types_unique (r : Service.request) (s : PetStore.Store) :
  types_unique s -> types_unique (snd (Service.serve r s)).
Proof.
  intros H. pose proof (serve_reads r s) as Hr.
  destruct r as [req|animals req|id|id|id|fetch id req|strptime id req|id n|fetch id n req|id n];
    try (rewrite Hr; exact H); cbn [Service.serve].
  - destruct (add_pet_type_cases animals req s)
      as [[_ ->]|[[rq [pt [_ [Hnone [Hlow [_ [_ ->]]]]]]]|[_ ->]]]; [exact H| |exact H].
    unfold types_unique in *. cbn. rewrite map_app. cbn. rewrite Hlow.
    apply NoDup_app; [exact H | repeat constructor; intros [] |].
    intros x Hin [<-|[]]. apply in_map_iff in Hin. destruct Hin as [q [E Hq]].
    pose proof (find_one_none_all _ _ Hnone q Hq) as K.
    unfold PetTypes.type_like, matches_i in K. apply orb_false_iff in K.
    destruct K as [K _]. apply String.eqb_neq in K. contradiction.
  - unfold PetStore.delete_pet_type.
    destruct (find_one _ _) as [pt|]; [|exact H].
    destruct (PetStore.pt_pets pt); [|exact H].
    unfold types_unique in *. cbn. now apply delete_one_nodup.
  - apply (same_types_types_unique s); [apply add_pet_same_types | exact H].
  - apply (same_types_types_unique s); [apply update_pet_same_types | exact H].
  - apply (same_types_types_unique s); [apply delete_pet_same_types | exact H].
Qed.

Lemma delete_pet_pets (id n : string) (s : PetStore.Store) :
  forall p, In p (PetStore.pets_collection (snd (PetStore.delete_pet id n s))) ->
            In p (PetStore.pets_collection s).
Proof.
  intros p. unfold PetStore.delete_pet.
  destruct (find_one (PetStore.has_id id) (PetStore.pet_types_collection s)); [|auto].
  destruct (find_one (PetStore.pet_named id (lower n)) (PetStore.pets_collection s)) as [pet|];
    [|auto].
  destruct (remove_image_file_keeps (PetStore.picture pet) s) as [s1 [E1 [P1 _]]].
  cbn zeta. rewrite E1. cbn. rewrite P1. apply delete_one_in.
Qed.

Lemma serve_lower_names (r : Service.request) (s : PetStore.Store) :
  lower_names s -> lower_names (snd (Service.serve r s)).
Proof.
  intros H. pose proof (serve_reads r s) as Hr.
  destruct r as [req|animals req|id|id|id|fetch id req|strptime id req|id n|fetch id n req|id n];
    try (rewrite Hr; exact H); cbn [Service.serve].
  - now destruct (add_pet_type_cases animals req s)
      as [[_ ->]|[[rq [pt [_ [_ [_ [_ [_ ->]]]]]]]|[_ ->]]].
  - unfold PetStore.delete_pet_type.
    destruct (find_one _ _) as [pt|]; [|exact H]. now destruct (PetStore.pt_pets pt).
  - destruct (Z.eq_dec (status (fst (PetStore.add_pet fetch id req s))) 201) as [E|E].
    + destruct (add_pet_effect fetch id req s E)
        as [pt [n [obj [_ [_ [_ [Hn [Hl [_ [P _]]]]]]]]]].
      intros p Hp. rewrite P in Hp. apply in_app_or in Hp.
      destruct Hp as [Hp|[<-|[]]]; [now apply H | congruence].
    + destruct (add_pet_cases fetch id req s) as [[_ [P _]]|[pt [n [obj [K _]]]]];
        [|contradiction].
      intros p Hp. rewrite P in Hp. now apply H.
  - destruct (update_pet_cases fetch id n req s)
      as [[P _]|[pt [p0 [data [new [bd [pic [url [_ [_ [_ [_ [_ [P _]]]]]]]]]]]]]];
      intros p Hp; rewrite P in Hp; [now apply H|].
    apply update_one_in in Hp. destruct Hp as [Hp|[d [_ ->]]]; [now apply H | reflexivity].
  - intros p Hp. apply H. now apply (delete_pet_pets id n s).
Qed.

Lemma run_invariant (inv : PetStore.Store -> Prop) :
  (forall r s, inv s -> inv (snd (Service.serve r s))) ->
  forall rs s, inv s -> inv (Service.run rs s).
Proof.
  intros Hstep rs. induction rs as [|r rs IH]; intros s Hs; cbn; [exact Hs|].
  apply IH, Hstep, Hs.
Qed.

(** X6: whatever requests a new store has served, the ids of its pet
    types are distinct, and each is the decimal string of a number that
    the counter has reached. *)
Theorem pet_type_ids_stay_distinct (rs : list Service.request) :
  ids_issued (Service.run rs Service.new_store).
Proof.
  apply (run_invariant ids_issued serve_ids_issued).
  split; [constructor | intros i []].
Qed.

(** X7: whatever requests a new store has served, no two of its pet types
    have names equal up to letter case. *)
Theorem pet_type_names_stay_unique (rs : list Service.request) :
  types_unique (Service.run rs Service.new_store).
Proof.
  apply (run_invariant types_unique serve_types_unique). constructor.
Qed.

(** X8: whatever requests a new store has served, the lowercase name field
    of every pet document is the lowercase of its name. *)
Theorem lowercase_names_stay_in_step (rs : list Service.request) :
  lower_names (Service.run rs Service.new_store).
Proof.
  apply (run_invariant lower_names serve_lower_names). intros p [].
Qed.



(** ** Requests one after the other *)

Lemma find_one_update_one {A : Type} (f : A -> bool) (u : A -> A) (c : list A) (d : A) :
  (forall x, f (u x) = f x) -> find_one f c = Some d ->
  find_one f (update_one f u c) = Some (u d).
Proof.
  intros Hu H. destruct (find_one_split _ _ _ H) as [Hd [l1 [l2 [-> Hl1]]]].
  rewrite (update_one_first _ _ l1 l2 d Hl1 Hd).
  apply find_one_first; [exact Hl1 | now rewrite Hu].
Qed.

(** After a POST answered 201, no stored pet of the type but the new one
    has the lowercase name of the new one. *)
Lemma add_pet_name_is_new (s : PetStore.Store) (id n : string) (ptype : PetStore.PetType) :
  mirrors s -> lower_names s ->
  find_one (PetStore.has_id id) (PetStore.pet_types_collection s) = Some ptype ->
  PetStore.any_same_name (PetStore.pt_pets ptype) (JStr n) = Val false ->
  forall q, In q (PetStore.pets_collection s) ->
            PetStore.pet_named id (lower n) q = false.
Proof.
  intros Hm Hl Eft Hdup.
  destruct (find_one_split _ _ _ Eft) as [Hid [t1 [t2 [Et _]]]].
  unfold PetStore.has_id in Hid. apply String.eqb_eq in Hid.
  assert (Hin : In ptype (PetStore.pet_types_collection s))
    by (rewrite Et; apply in_or_app; right; now left).
  apply pet_named_false. intros q Hq Hqt E.
  apply (any_same_name_false _ _ Hdup (PetStore.name q)).
  - apply (Hm ptype Hin). exists q. repeat split; congruence.
  - now rewrite <- (Hl q Hq).
Qed.

(** X10: after a POST /pet-types/{id}/pets answered 201, in a store where
    the name lists mirror the pets and the lowercase name fields are in
    step, GET /pet-types/{id}/pets/{name} with the new name in any letter
    case answers 200 with the body of the 201 answer. *)
Theorem add_pet_then_get (fetch : string -> option string) (id : string) (req : Request)
    (s : PetStore.Store) :
  mirrors s -> lower_names s ->
  status (fst (PetStore.add_pet fetch id req s)) = 201 ->
  exists obj,
    fst (PetStore.add_pet fetch id req s) = (PetStore.clean_pet obj, 201) /\
    forall n', lower n' = lower (PetStore.name obj) ->
      PetStore.get_pet_by_name id n' (snd (PetStore.add_pet fetch id req s))
      = ((PetStore.clean_pet obj, 200), snd (PetStore.add_pet fetch id req s)).
Proof.
  intros Hm Hl H201.
  destruct (add_pet_effect fetch id req s H201)
    as [ptype [n [obj [Eft [Hdup [Ht [Hn [Hnl [Er [P T]]]]]]]]]].
  exists obj. split; [exact Er|]. intros n' Hn'.
  unfold PetStore.get_pet_by_name. rewrite T, P.
  rewrite (find_one_update_one _ _ _ ptype) by (reflexivity || exact Eft).
  rewrite Hn in Hn'. rewrite Hn'.
  rewrite (find_one_first _ _ [] obj); [reflexivity | |].
  - apply (add_pet_name_is_new s id n ptype Hm Hl Eft Hdup).
  - apply pet_named_true; assumption.
Qed.

(** X11: a pet type that has just received a pet cannot be deleted: after
    a POST /pet-types/{id}/pets answered 201, DELETE /pet-types/{id} is
    answered 400 and changes nothing. *)
Theorem add_pet_then_delete_pet_type (fetch : string -> option string) (id : string)
    (req : Request) (s : PetStore.Store) :
  status (fst (PetStore.add_pet fetch id req s)) = 201 ->
  PetStore.delete_pet_type id (snd (PetStore.add_pet fetch id req s))
  = (PetStore.malformed, snd (PetStore.add_pet fetch id req s)).
Proof.
  intros H201.
  destruct (add_pet_effect fetch id req s H201)
    as [ptype [n [obj [Eft [_ [_ [_ [_ [_ [_ T]]]]]]]]]].
  unfold PetStore.delete_pet_type. rewrite T.
  rewrite (find_one_update_one _ _ _ ptype) by (reflexivity || exact Eft).
  cbn. now destruct (PetStore.pt_pets ptype).
Qed.

(** X12: after a DELETE /pet-types/{id}/pets/{name} answered 204, in a
    store where names are unique up to case within a pet type and the
    lowercase name fields are in step, GET with the same name in any
    letter case answers 404. *)
Theorem delete_pet_then_get (id n : string) (s : PetStore.Store) :
  names_unique s -> lower_names s ->
  status (fst (PetStore.delete_pet id n s)) = 204 ->
  forall n', lower n' = lower n ->
    PetStore.get_pet_by_name id n' (snd (PetStore.delete_pet id n s))
    = (PetStore.not_found, snd (PetStore.delete_pet id n s)).
Proof.
  intros Hu Hl H204 n' Hn'.
  unfold PetStore.delete_pet in *.
  destruct (find_one (PetStore.has_id id) (PetStore.pet_types_collection s)) as [ptype|] eqn:Eft;
    [|discriminate H204].
  destruct (find_one (PetStore.pet_named id (lower n)) (PetStore.pets_collection s)) as [p|] eqn:Efp;
    [|discriminate H204].
  destruct (find_one_split _ _ _ Efp) as [Hp [l1 [l2 [Ec Hl1]]]].
  destruct (remove_image_file_keeps (PetStore.picture p) s) as [s1 [E1 [P1 T1]]].
  cbn zeta. rewrite E1. cbn [snd].
  unfold PetStore.get_pet_by_name.
  cbn [PetStore.with_pets PetStore.with_pet_types PetStore.pets_collection
         PetStore.pet_types_collection].
  rewrite P1, Ec, (delete_one_first _ l1 l2 p Hl1 Hp), Hn'.
  assert (Hpin : In p (PetStore.pets_collection s))
    by (rewrite Ec; apply in_or_app; right; now left).
  assert (Hpt : PetStore.pet_type_id p = id /\ lower (PetStore.name p) = lower n).
  { unfold PetStore.pet_named in Hp. apply andb_true_iff in Hp. destruct Hp as [A B].
    apply String.eqb_eq in A, B. rewrite <- (Hl p Hpin). now split. }
  destruct Hpt as [Hpt Hpn].
  assert (Hnone : find_one (PetStore.pet_named id (lower n)) (l1 ++ l2) = None).
  { apply find_one_none. apply pet_named_false. intros q Hq Hqt E.
    assert (Hqin : In q (PetStore.pets_collection s)).
    { rewrite Ec. apply in_app_or in Hq. apply in_or_app.
      destruct Hq; [now left | right; now right]. }
    specialize (Hu id). unfold names_ci in Hu.
    rewrite Ec, names_ci_app in Hu. cbn [filter] in Hu.
    unfold PetStore.of_type at 2 in Hu. rewrite Hpt, String.eqb_refl in Hu.
    cbn [map] in Hu. apply NoDup_remove_2 in Hu. apply Hu.
    rewrite <- names_ci_app, Hpn, <- E, (Hl q Hqin).
    apply (in_map (fun p0 => lower (PetStore.name p0))).
    apply filter_In. split; [exact Hq|]. unfold PetStore.of_type. now apply String.eqb_eq. }
  rewrite Hnone.
  match goal with |- match ?x with Some _ => _ | None => _ end = _ => destruct x end;
    reflexivity.
Qed.

(** X13: after a POST /pet-types answered 201, in a store whose ids the
    counter has issued, GET /pet-types/{id} with the id of the answer
    returns the new pet type. *)
Theorem add_pet_type_then_get (animals : string -> outcome (Z * list PetTypes.Animal))
    (req : Request) (s : PetStore.Store) :
  ids_issued s ->
  status (fst (PetTypes.add_pet_type animals req s)) = 201 ->
  exists pt,
    fst (PetTypes.add_pet_type animals req s) = (PetStore.clean_pet_type pt, 201) /\
    PetStore.get_pet_type_by_id (PetStore.pt_id pt) (snd (PetTypes.add_pet_type animals req s))
    = ((PetStore.clean_pet_type pt, 200), snd (PetTypes.add_pet_type animals req s)).
Proof.
  intros [_ Hi] H201.
  destruct (add_pet_type_cases animals req s)
    as [[K _]|[[rq [pt [Er [_ [_ [Hid [_ Es]]]]]]]|[K _]]];
    [contradiction| |rewrite K in H201; discriminate H201].
  exists pt. split; [exact Er|]. rewrite Es.
  unfold PetStore.get_pet_type_by_id. cbn [PetStore.pet_types_collection].
  rewrite (find_one_first _ _ [] pt); [reflexivity | |].
  - apply has_id_false. intros q Hq E.
    destruct (Hi (PetStore.pt_id q) (in_map _ _ _ Hq)) as [k [Ek Hk]].
    rewrite E, Hid in Ek. apply str_inj in Ek. rewrite inc_seq_of in Ek. lia.
  - unfold PetStore.has_id. apply String.eqb_refl.
Qed.

(** X14: after a DELETE /pet-types/{id} answered 204, in a store whose pet
    type ids are distinct, GET /pet-types/{id} answers 404. *)
Theorem delete_pet_type_then_get (id : string) (s : PetStore.Store) :
  NoDup (map PetStore.pt_id (PetStore.pet_types_collection s)) ->
  status (fst (PetStore.delete_pet_type id s)) = 204 ->
  PetStore.get_pet_type_by_id id (snd (PetStore.delete_pet_type id s))
  = (PetStore.not_found, snd (PetStore.delete_pet_type id s)).
Proof.
  intros Hn H204. unfold PetStore.delete_pet_type in *.
  destruct (find_one (PetStore.has_id id) (PetStore.pet_types_collection s)) as [pt|] eqn:Eft;
    [|discriminate H204].
  destruct (PetStore.pt_pets pt); [|discriminate H204].
  destruct (find_one_split _ _ _ Eft) as [Hid [l1 [l2 [Ec Hl1]]]].
  cbn [snd]. unfold PetStore.get_pet_type_by_id.
  cbn [PetStore.with_pet_types PetStore.pet_types_collection].
  rewrite Ec, (delete_one_first _ l1 l2 pt Hl1 Hid).
  rewrite find_one_none; [reflexivity|].
  intros q Hq. apply in_app_or in Hq. destruct Hq as [Hq|Hq]; [now apply Hl1|].
  unfold PetStore.has_id in *. apply String.eqb_eq in Hid. apply String.eqb_neq.
  rewrite Ec, map_app in Hn. cbn in Hn. apply NoDup_remove_2 in Hn.
  intros E. apply Hn. apply in_or_app. right. rewrite Hid, <- E. now apply in_map.
Qed.

(** X15: DELETE undoes POST: after a POST /pet-types/{id}/pets answered
    201, in a store where the name lists mirror the pets and the lowercase
    name fields are in step, DELETE /pet-types/{id}/pets/{name} with the
    new name in any letter case answers 204 and leaves the pet types and
    the pets as they were before the POST. *)
Theorem add_pet_then_delete_pet (fetch : string -> option string) (id : string)
    (req : Request) (s : PetStore.Store) :
  mirrors s -> lower_names s ->
  status (fst (PetStore.add_pet fetch id req s)) = 201 ->
  exists obj,
    fst (PetStore.add_pet fetch id req s) = (PetStore.clean_pet obj, 201) /\
    forall n', lower n' = lower (PetStore.name obj) ->
      let r := PetStore.delete_pet id n' (snd (PetStore.add_pet fetch id req s)) in
      status (fst r) = 204 /\ same_collections s (snd r).
Proof.
  intros Hm Hl H201.
  destruct (add_pet_effect fetch id req s H201)
    as [ptype [n [obj [Eft [Hdup [Ht [Hn [Hnl [Er [P T]]]]]]]]]].
  exists obj. split; [exact Er|]. intros n' Hn' r. subst r.
  rewrite Hn in Hn'.
  pose proof (add_pet_name_is_new s id n ptype Hm Hl Eft Hdup) as Hnew.
  assert (Hobj : PetStore.pet_named id (lower n) obj = true)
    by (apply pet_named_true; assumption).
  unfold PetStore.delete_pet. rewrite T, P, Hn'.
  rewrite (find_one_update_one _ _ _ ptype) by (reflexivity || exact Eft).
  rewrite (find_one_first _ _ [] obj Hnew Hobj).
  cbn zeta.
  destruct (remove_image_file_keeps (PetStore.picture obj)
              (snd (PetStore.add_pet fetch id req s))) as [s1 [E1 [P1 T1]]].
  rewrite E1. cbn [fst snd status]. split; [reflexivity|].
  unfold same_collections.
  cbn [PetStore.with_pets PetStore.with_pet_types PetStore.pets_collection
         PetStore.pet_types_collection].
  rewrite P1, T1, P, T, (delete_one_first _ _ [] obj Hnew Hobj), app_nil_r.
  split; [|reflexivity].
  destruct (find_one_split _ _ _ Eft) as [Hid [t1 [t2 [Et Ht1]]]].
  rewrite Et, (update_one_first _ _ t1 t2 ptype Ht1 Hid).
  rewrite (update_one_first _ _ t1 t2
             (PetStore.with_pt_pets (fun l => l ++ [n]) ptype) Ht1 Hid). do 2 f_equal.
  unfold PetStore.name_of. rewrite Hn.
  destruct ptype as [i ty fa ge at_ li pets]. unfold PetStore.with_pt_pets. cbn.
  f_equal. unfold PetStore.pull. rewrite filter_app. cbn. rewrite String.eqb_refl. cbn.
  rewrite app_nil_r. cbn in Hdup.
  pose proof (any_same_name_false _ _ Hdup) as Hd. clear -Hd.
  induction pets as [|x pets IH]; [reflexivity|]. cbn.
  destruct (String.eqb_spec x n) as [->|_].
  - exfalso. now apply (Hd n (or_introl eq_refl)).
  - cbn. f_equal. apply IH. intros m Hmm. apply Hd. now right.
Qed.

(** ** GET /pet-types/{id}/pets with query parameters *)

Lemma pets_loop_filter (strptime : string -> option Z) (date_gt date_lt : option Z)
    (all_pets : list PetStore.Pet) : forall out : list json,
  PetStore.pets_loop strptime date_gt date_lt all_pets out
  = out ++ map PetStore.clean_pet
             (filter (Births.born_between strptime date_gt date_lt) all_pets).
Proof.
  induction all_pets as [|p rest IH]; intros out; cbn [PetStore.pets_loop filter].
  - cbn. now rewrite app_nil_r.
  - unfold Births.born_between at 1.
    destruct (py_eq (PetStore.birthdate p) (JStr "NA")) eqn:Ena.
    + destruct (PetStore.parse_date strptime (PetStore.birthdate p)); cbn; apply IH.
    + destruct (PetStore.parse_date strptime (PetStore.birthdate p)) as [day|];
        [|cbn; apply IH].
      cbn [negb andb].
      replace (match date_gt with Some d => d <? day | None => true end)
        with (match date_gt with Some d => if day <=? d then false else true | None => true end)
        by (destruct date_gt as [d|]; [|reflexivity];
            destruct (Z.leb_spec day d), (Z.ltb_spec d day); (reflexivity || lia)).
      replace (match date_lt with Some d => day <? d | None => true end)
        with (match date_lt with Some d => if day >=? d then false else true | None => true end)
        by (destruct date_lt as [d|]; [|reflexivity];
            rewrite Z.geb_leb;
            destruct (Z.leb_spec d day), (Z.ltb_spec day d); (reflexivity || lia)).
      destruct date_gt as [g|], date_lt as [l|];
        try destruct (day <=? g); try destruct (day >=? l);
        cbn; rewrite IH; try reflexivity; now rewrite <- app_assoc.
Qed.

(** X16: GET /pet-types/{id}/pets on a stored pet type, with query
    parameters whose 'birthdateGT' and 'birthdateLT', when given, are
    dates, answers 200 with exactly the pets of the type, in stored order,
    whose birthdate is a date strictly between the bounds given; a pet
    whose birthdate is "NA" or is not a date is left out as soon as there
    is any query parameter. *)
Theorem get_pets_born_between (strptime : string -> option Z) (id : string)
    (req : Request) (s : PetStore.Store) (ptype : PetStore.PetType)
    (date_gt date_lt : option Z) :
  find_one (PetStore.has_id id) (PetStore.pet_types_collection s) = Some ptype ->
  args req <> [] ->
  PetStore.bound strptime (assoc "birthdateGT" (args req)) = Val date_gt ->
  PetStore.bound strptime (assoc "birthdateLT" (args req)) = Val date_lt ->
  PetStore.get_pets strptime id req s
  = ((JArr (map PetStore.clean_pet
              (filter (Births.born_between strptime date_gt date_lt)
                 (filter (PetStore.of_type id) (PetStore.pets_collection s)))), 200), s).
Proof.
  intros Eft Hargs Hgt Hlt. unfold PetStore.get_pets. rewrite Eft.
  destruct (args req) as [|a params]; [congruence|].
  rewrite Hgt, Hlt. now rewrite pets_loop_filter.
Qed.

(** ** The pet order service as a whole *)

Import OrderService.

Lemma records_keeps (m : M PetOrder.Order Response) : keeps m -> records m.
Proof. intros H s. left. apply H. Qed.

Lemma records_bind {A : Type} (m : M PetOrder.Order A) (f : A -> M PetOrder.Order Response) :
  keeps m -> (forall a, records (f a)) -> records (bind m f).
Proof.
  intros Hm Hf s. unfold bind. specialize (Hm s).
  destruct (m s) as [[a|] s1]; cbn in *; [|now left].
  destruct Hm as [Hm1 Hm2].
  destruct (Hf a s1) as [H|[[t [body [E [Hid [Hc Ht]]]]]|[E [Hc Ht]]]].
  - left. eapply same_db_trans; [split|]; eassumption.
  - right. left. exists t, body. rewrite <- Hm1, <- Hm2. repeat split; assumption.
  - right. right. rewrite <- Hm1, <- Hm2. repeat split; assumption.
Qed.

Lemma records_ret (r : Response) : records (ret r).
Proof. apply records_keeps, keeps_ret. Qed.

Lemma create_purchase_records (peers : PetOrder.Peers) (req : Request) :
  exists m, PetOrder.create_purchase peers req = try_except m /\ records m.
Proof.
  eexists. split; [reflexivity|].
  destruct (negb (is_json req)); [apply records_ret|].
  apply records_bind.
  { unfold get_json. destruct (body req); auto with keeps. }
  intros data.
  destruct (negb (truthy data)); [apply records_ret|].
  apply records_bind; [apply keeps_lift|]. intros has_purchaser.
  apply records_bind; [destruct has_purchaser; auto with keeps|]. intros has_type.
  destruct (negb has_purchaser || negb has_type); [apply records_ret|].
  apply records_bind; [apply keeps_lift|]. intros allowed.
  destruct (negb allowed); [apply records_ret|].
  apply records_bind; [apply keeps_lift|]. intros purchaser.
  apply records_bind; [apply keeps_lift|]. intros pet_type.
  apply records_bind; [apply keeps_lift|]. intros store.
  apply records_bind; [apply keeps_lift|]. intros pet_name.
  cbv zeta.
  match goal with |- records (if ?c then _ else _) => destruct c end; [apply records_ret|].
  match goal with |- records (if ?c then _ else _) => destruct c end; [apply records_ret|].
  apply records_bind; [apply keeps_find_available_pet|].
  intros [[[chosen_store pet_type_id] chosen_pet_name]|]; [|apply records_ret].
  apply records_bind; [apply keeps_delete_pet|]. intros ok.
  destruct (negb ok); [apply records_ret|].
  intros s. unfold bind, PetOrder.get_next_purchase_id.
  match goal with |- context [PetOrder.stored ?x] => destruct (PetOrder.stored x) end;
    cbn [negb]; right; [left | right; repeat split].
  exists {| PetOrder.purchaser := purchaser; PetOrder.pet_type := pet_type;
            PetOrder.store := chosen_store;
            PetOrder.purchase_id := str (inc_seq (PetOrder.counters_collection s)) |}.
  eexists. cbn. repeat split.
Qed.

Lemma get_transactions_state (regex : string -> option (string -> bool)) (req : Request)
    (s : PetOrder.Order) :
  snd (PetOrder.get_transactions regex req s) = s.
Proof.
  unfold PetOrder.get_transactions.
  destruct (negb _); [reflexivity|].
  destruct (PetOrder.build_query _ _) as [query|]; [|reflexivity].
  now destruct (PetOrder.find _ _ _).
Qed.

Lemma serve_ids_recorded (r : OrderService.request) (s : PetOrder.Order) :
  ids_recorded s -> ids_recorded (snd (OrderService.serve r s)).
Proof.
  intros H. destruct r as [peers req|regex req]; cbn [OrderService.serve];
    [|now rewrite get_transactions_state].
  destruct (create_purchase_records peers req) as [m [-> R]].
  unfold try_except. specialize (R s).
  assert (K : same_db s (snd (m s)) -> ids_recorded (snd (m s))).
  { intros [T C]. unfold ids_recorded. now rewrite T, C. }
  destruct R as [R|[[t [body [E [Hid [Hc Ht]]]]]|[E [Hc Ht]]]].
  - destruct (m s) as [[resp|] s1]; cbn in *; now apply K.
  - destruct (m s) as [[resp|] s1]; cbn in *; [|discriminate E].
    destruct H as [Hn Hi]. unfold ids_recorded. rewrite Ht, Hc, map_app. cbn.
    rewrite Hid, inc_seq_of. split.
    + apply NoDup_app; [exact Hn | repeat constructor; intros [] |].
      intros i Hin [<-|[]]. destruct (Hi _ Hin) as [k [Ek Hk]].
      apply str_inj in Ek. lia.
    + intros i Hin. apply in_app_or in Hin. destruct Hin as [Hin|[<-|[]]].
      * destruct (Hi i Hin) as [k [Ek Hk]]. exists k. split; [exact Ek | lia].
      * eexists. split; [reflexivity | lia].
  - destruct (m s) as [[resp|] s1]; cbn in *; [discriminate E|].
    destruct H as [Hn Hi]. unfold ids_recorded. rewrite Ht, Hc. cbn.
    rewrite inc_seq_of. split; [exact Hn|].
    intros i Hin. destruct (Hi i Hin) as [k [Ek Hk]]. exists k. split; [exact Ek | lia].
Qed.

Lemma run_ids_recorded (rs : list OrderService.request) (s : PetOrder.Order) :
  ids_recorded s -> ids_recorded (OrderService.run rs s).
Proof.
  revert s. induction rs as [|r rs IH]; intros s Hs; cbn; [exact Hs|].
  apply IH, serve_ids_recorded, Hs.
Qed.

Lemma new_order_ids_recorded : ids_recorded OrderService.new_order.
Proof. split; [constructor | intros i []]. Qed.

(** X17: whatever requests a new order service has served, the purchase
    ids of its transactions are distinct, and each is the decimal string
    of a number that the counter has reached. *)
Theorem purchase_ids_stay_distinct (rs : list OrderService.request) :
  ids_recorded (OrderService.run rs OrderService.new_order).
Proof. apply run_ids_recorded, new_order_ids_recorded. Qed.

(** ** GET /transactions with a query *)

Lemma filter_true {A : Type} (l : list A) : filter (fun _ => true) l = l.
Proof. induction l as [|x l IH]; cbn; congruence. Qed.

(** X18: with the owner's token, GET /transactions?store=V, where V
    reads as the integer [n]: when [n] fits in 8 bytes the answer is 200
    with exactly the transactions, in stored order, whose store is [n] (or
    an array that holds [n]); when it does not, the query cannot be sent
    and the answer is 500; the state is unchanged. *)
Theorem transactions_of_store (regex : string -> option (string -> bool))
    (req : Request) (s : PetOrder.Order) (val : string) (n : Z) :
  owner_pc req = Some PetOrder.OWNER_PASSWORD ->
  args req = [("store", val)] ->
  py_int val = Some n ->
  (int64 n = true ->
   PetOrder.get_transactions regex req s
   = ((JArr (map PetOrder.view
               (filter (fun t => PetOrder.field_is (PetOrder.is_num n) (PetOrder.store t))
                  (PetOrder.transactions_collection s))), 200), s)) /\
  (int64 n = false ->
   status (fst (PetOrder.get_transactions regex req s)) = 500 /\
   snd (PetOrder.get_transactions regex req s) = s).
Proof.
  intros Hown Hargs Hval. unfold PetOrder.get_transactions.
  rewrite Hown, Hargs, String.eqb_refl. cbn [negb PetOrder.build_query].
  cbn [String.eqb Ascii.eqb Bool.eqb]. rewrite Hval.
  cbn [PetOrder.build_query]. unfold PetOrder.find.
  cbn [PetOrder.q_store PetOrder.q_pet_type PetOrder.on].
  split; intros Hn; rewrite Hn; cbn [negb]; [|now split].
  cbn. do 4 f_equal. apply filter_ext. intros t. now rewrite !andb_true_r.
Qed.

Lemma filter_none {A : Type} (f : A -> bool) (l : list A) :
  (forall u, In u l -> f u = false) -> filter f l = [].
Proof.
  induction l as [|u l IH]; intros H; [reflexivity|]. cbn.
  rewrite (H u (or_introl eq_refl)). apply IH. intros v Hv. apply H. now right.
Qed.

Lemma filter_unique {A : Type} (g : A -> string) (x : string) (l : list A) :
  NoDup (map g l) -> (List.length (filter (fun t => (g t =? x)%string) l) <= 1)%nat.
Proof.
  induction l as [|t l IH]; cbn; [lia|]. intros Hn.
  inversion Hn as [|? ? Ht Hl]; subst.
  destruct (String.eqb_spec (g t) x) as [E|_]; [|now apply IH].
  rewrite filter_none; [cbn; lia|].
  intros u Hu. apply String.eqb_neq. intros Eu. apply Ht.
  rewrite E, <- Eu. now apply in_map.
Qed.

(** X19: in a state where the purchase ids are distinct, GET
    /transactions?purchase-id=X with the owner's token answers 200 with at
    most one transaction. *)
Theorem transactions_of_purchase_id (regex : string -> option (string -> bool))
    (req : Request) (s : PetOrder.Order) (x : string) :
  ids_recorded s ->
  owner_pc req = Some PetOrder.OWNER_PASSWORD ->
  args req = [("purchase-id", x)] ->
  exists l, PetOrder.get_transactions regex req s = ((JArr l, 200), s) /\
            (List.length l <= 1)%nat.
Proof.
  intros [Hn _] Hown Hargs. unfold PetOrder.get_transactions.
  rewrite Hown, Hargs, String.eqb_refl. cbn [negb PetOrder.build_query].
  cbn [String.eqb Ascii.eqb Bool.eqb]. unfold PetOrder.find. cbn.
  eexists. split; [reflexivity|]. rewrite length_map.
  exact (filter_unique PetOrder.purchase_id x _ Hn).
Qed.

(** ** Purchases: where the pet comes from *)

Lemma names_loop_hit (pets : list string) (pet_name : json) (n : string) :
  PetOrder.names_loop pets pet_name = Val (Some n) ->
  In n pets /\ exists w, pet_name = JStr w /\ lower n = lower w.
Proof.
  induction pets as [|x pets IH]; cbn; [discriminate|].
  destruct pet_name as [| | |w| |]; cbn; try discriminate.
  destruct (String.eqb_spec (lower x) (lower w)) as [E|_].
  - intros H. injection H as <-. split; [now left | now exists w].
  - intros H. destruct (IH H) as [Hin Hw]. split; [now right | exact Hw].
Qed.

Lemma lookups_of_nil (nums : list json) : lookups_of nums [].
Proof. intros c []. Qed.

Lemma lookups_of_app (nums : list json) (q1 q2 : list PetOrder.call) :
  lookups_of nums q1 -> lookups_of nums q2 -> lookups_of nums (q1 ++ q2).
Proof. intros H1 H2 c Hc. apply in_app_or in Hc. destruct Hc; auto. Qed.

Lemma lookups_of_more (n : json) (nums : list json) (q : list PetOrder.call) :
  lookups_of nums q -> lookups_of (n :: nums) q.
Proof.
  intros H c Hc. destruct (H c Hc) as [Hd [m [Hm Hu]]].
  split; [exact Hd|]. exists m. split; [now right | exact Hu].
Qed.

(** One more turn before a loop that is done. *)
Lemma loop_done_step (peers : PetOrder.Peers) (pet_type_name pet_name : json)
    (n : json) (nums : list json) (available available' : list PetOrder.found)
    (s s' : PetOrder.Order) (p : list PetOrder.call)
    (r : outcome (PetOrder.found + list PetOrder.found) * PetOrder.Order) :
  PetOrder.calls s' = PetOrder.calls s ++ p ->
  same_db s s' ->
  lookups_of (n :: nums) p ->
  (forall x, In x available' ->
     In x available \/ (offered peers pet_type_name x /\ fst (fst x) = n)) ->
  loop_done peers pet_type_name pet_name nums available' s' r ->
  loop_done peers pet_type_name pet_name (n :: nums) available s r.
Proof.
  intros Hc Hdb Hp Hav [q [Hq [Hdb' [Hl Hr]]]].
  exists (p ++ q). split; [now rewrite Hq, Hc, app_assoc|].
  split; [eapply same_db_trans; eassumption|].
  split; [apply lookups_of_app; [exact Hp | now apply lookups_of_more]|].
  destruct (fst r) as [[x|l]|]; [| |exact I].
  - destruct Hr as [Ho [Hin Hn]]. split; [exact Ho|]. split; [now right | exact Hn].
  - intros x Hx. destruct (Hr x Hx) as [Hx'|[Ho Hin]].
    + destruct (Hav x Hx') as [Hx''|[Ho Hn]]; [now left|].
      right. split; [exact Ho | now left].
    + right. split; [exact Ho | now right].
Qed.

Lemma sent_calls (q : list PetOrder.call) (s : PetOrder.Order) :
  PetOrder.calls (sent q s) = PetOrder.calls s ++ q /\ same_db s (sent q s).
Proof. split; [reflexivity | now split]. Qed.

Lemma stores_loop_done (peers : PetOrder.Peers) (pet_type_name pet_name : json)
    (stores : list (json * option PetOrder.url)) :
  (forall n ou, In (n, ou) stores -> ou = PetOrder.get_store_url n) ->
  forall (available : list PetOrder.found) (s : PetOrder.Order),
    loop_done peers pet_type_name pet_name (map fst stores) available s
      (PetOrder.stores_loop peers stores pet_type_name pet_name available s).
Proof.
  induction stores as [|[n ou] rest IH]; intros Hcons available s.
  - exists []. cbn. rewrite app_nil_r.
    split; [reflexivity|]. split; [apply same_db_refl|].
    split; [apply lookups_of_nil | auto].
  - assert (Hrest : forall m ou', In (m, ou') rest -> ou' = PetOrder.get_store_url m)
      by (intros m ou' H; apply Hcons; now right).
    specialize (IH Hrest).
    pose proof (Hcons n ou (or_introl eq_refl)) as Hou.
    cbn [map fst PetOrder.stores_loop].
    (* the turn ends without a pet of this store *)
    assert (Skip : forall p,
              lookups_of (n :: map fst rest) p ->
              loop_done peers pet_type_name pet_name (n :: map fst rest) available s
                (PetOrder.stores_loop peers rest pet_type_name pet_name available
                   (sent p s))).
    { intros p Hp.
      apply (loop_done_step _ _ _ _ _ available available s (sent p s) p);
        [reflexivity | now split | exact Hp | auto | apply IH]. }
    unfold bind at 1. unfold PetOrder.find_pet_type_id.
    destruct ou as [u|].
    2:{ cbn [ret].
        apply (loop_done_step _ _ _ _ _ available available s s []);
          [now rewrite app_nil_r | apply same_db_refl | apply lookups_of_nil | auto | apply IH]. }
    unfold bind. rewrite send_sent.
    assert (L1 : lookups_of (n :: map fst rest) [PetOrder.GET_pet_types u]).
    { intros c [<-|[]]. split; [reflexivity|]. exists n. split; [now left | now rewrite <- Hou]. }
    destruct (PetOrder.pet_types_of peers u) as [[code types]|] eqn:Etypes;
      [|apply Skip, L1].
    destruct (Z.eqb_spec code 200) as [->|_]; cbn [negb ret]; [|apply Skip, L1].
    destruct (PetOrder.types_loop types pet_type_name) as [id|] eqn:Eid; [|apply Skip, L1].
    destruct (id =? "")%string; [apply Skip, L1|].
    unfold PetOrder.get_pets_of_type, bind. rewrite send_sent, sent_sent. cbn [app].
    assert (L2 : lookups_of (n :: map fst rest)
                   [PetOrder.GET_pet_types u; PetOrder.GET_pets u id]).
    { intros c [<-|[<-|[]]]; (split; [reflexivity|]); exists n;
        (split; [now left | now rewrite <- Hou]). }
    destruct (PetOrder.pets_of peers u id) as [[code' pets]|] eqn:Epets; [|apply Skip, L2].
    destruct (Z.eqb_spec code' 200) as [->|_]; cbn [negb ret]; [|apply Skip, L2].
    destruct pets as [|pet pets]; [apply Skip, L2|].
    assert (Hoff : forall n0, In n0 (pet :: pets) -> offered peers pet_type_name (n, id, n0)).
    { intros n0 Hn0. exists u, types, (pet :: pets). rewrite <- Hou. auto. }
    assert (Hnames : forall hit,
              PetOrder.names_loop (pet :: pets) pet_name = hit ->
              loop_done peers pet_type_name pet_name (n :: map fst rest) available s
                ((let (o, s') := lift hit (sent [PetOrder.GET_pet_types u; PetOrder.GET_pets u id] s) in
                  match o with
                  | Val a =>
                      match a with
                      | Some n0 => ret (inl (n, id, n0))
                      | None =>
                          PetOrder.stores_loop peers rest pet_type_name pet_name available
                      end s'
                  | Exc => (Exc, s')
                  end))).
    { intros [[n0|]|] Hhit; unfold lift.
      - destruct (names_loop_hit _ _ _ Hhit) as [Hin [w [-> Hw]]].
        exists [PetOrder.GET_pet_types u; PetOrder.GET_pets u id]. cbn.
        split; [reflexivity|]. split; [now split|]. split; [exact L2|].
        split; [now apply Hoff|]. split; [now left | exact Hw].
      - apply Skip, L2.
      - exists [PetOrder.GET_pet_types u; PetOrder.GET_pets u id]. cbn.
        split; [reflexivity|]. split; [now split|]. split; [exact L2 | exact I]. }
    destruct pet_name; try (apply Hnames; reflexivity).
    apply (loop_done_step _ _ _ _ _ available
             (available ++ map (fun n0 => (n, id, n0)) (pet :: pets)) s
             (sent [PetOrder.GET_pet_types u; PetOrder.GET_pets u id] s)
             [PetOrder.GET_pet_types u; PetOrder.GET_pets u id]);
      [reflexivity | now split | exact L2 | | apply IH].
    intros x Hx. apply in_app_or in Hx. destruct Hx as [Hx|Hx]; [now left|].
    apply in_map_iff in Hx. destruct Hx as [n0 [<- Hn0]].
    right. split; [now apply Hoff | reflexivity].
Qed.

Lemma find_available_pet_done (peers : PetOrder.Peers) (pet_type_name store pet_name : json)
    (s : PetOrder.Order) :
  let r := PetOrder.find_available_pet peers pet_type_name store pet_name s in
  exists q,
    PetOrder.calls (snd r) = PetOrder.calls s ++ q /\
    same_db s (snd r) /\
    lookups_of (stores_for store) q /\
    match fst r with
    | Val (Some x) =>
        offered peers pet_type_name x /\ In (fst (fst x)) (stores_for store) /\
        named pet_name x
    | _ => True
    end.
Proof.
  cbv zeta. unfold PetOrder.find_available_pet, bind.
  set (stores := match store with
                 | JNull => [(JNum 1, Some PetOrder.PET_STORE1_URL);
                             (JNum 2, Some PetOrder.PET_STORE2_URL)]
                 | _ => [(store, PetOrder.get_store_url store)]
                 end).
  assert (Hcons : forall n ou, In (n, ou) stores -> ou = PetOrder.get_store_url n).
  { intros n ou. subst stores.
    destruct store; cbn; intros H;
      repeat (destruct H as [H|H]; [injection H as <- <-; reflexivity|]); destruct H. }
  assert (Hnums : map fst stores = stores_for store) by (subst stores; now destruct store).
  pose proof (stores_loop_done peers pet_type_name pet_name stores Hcons [] s) as H.
  rewrite Hnums in H. destruct H as [q [Hq [Hdb [Hl Hr]]]].
  destruct (PetOrder.stores_loop peers stores pet_type_name pet_name [] s)
    as [[[x|l]|] s1]; cbn [fst snd] in *; exists q.
  - cbn. auto.
  - assert (Hpick : forall y, In y l -> offered peers pet_type_name y /\
                                        In (fst (fst y)) (stores_for store)).
    { intros y Hy. destruct (Hr y Hy) as [[]|K]; exact K. }
    destruct pet_name; cbn -[PetOrder.random_choice]; auto.
    destruct l as [|a l]; cbn -[PetOrder.random_choice]; auto.
    repeat (split; [assumption|]).
    destruct (PetOrder.random_choice peers (a :: l)) as [y|] eqn:Ey; [|exact I].
    unfold PetOrder.random_choice in Ey. apply nth_error_In in Ey.
    destruct (Hpick y Ey) as [Ho Hin]. auto.
  - cbn. auto.
Qed.

(** What POST /purchases has done when it answers: it has been rejected
    before any request was sent, or it has looked a pet up in the stores
    asked for and, if it has found one on offer, has sent one deletion;
    it answers 201 only after a deletion answered 204, and then with the
    transaction recorded. *)
Lemma create_purchase_effect (peers : PetOrder.Peers) (req : Request) (s : PetOrder.Order) :
  let r := PetOrder.create_purchase peers req s in
  (PetOrder.calls (snd r) = PetOrder.calls s /\ status (fst r) <> 201) \/
  exists kv purchaser pet_type q,
    body req = Some (JObj kv) /\
    assoc "purchaser" kv = Some purchaser /\
    assoc "pet-type" kv = Some pet_type /\
    lookups_of (stores_for (field "store" kv)) q /\
    ((PetOrder.calls (snd r) = PetOrder.calls s ++ q /\ status (fst r) <> 201) \/
     exists store_num pet_type_id pet_name u,
       offered peers pet_type (store_num, pet_type_id, pet_name) /\
       In store_num (stores_for (field "store" kv)) /\
       named (field "pet-name" kv) (store_num, pet_type_id, pet_name) /\
       PetOrder.get_store_url store_num = Some u /\
       PetOrder.calls (snd r)
       = PetOrder.calls s ++ q ++ [PetOrder.DELETE_pet u pet_type_id pet_name] /\
       (status (fst r) <> 201 \/
        (PetOrder.deleted peers u pet_type_id pet_name = Some 204 /\
         fst r = (JObj [("purchaser", purchaser); ("pet-type", pet_type);
                        ("store", store_num); ("pet-name", JStr pet_name);
                        ("purchase-id",
                         JStr (str (inc_seq (PetOrder.counters_collection s))))], 201) /\
         PetOrder.transactions_collection (snd r)
         = PetOrder.transactions_collection s ++
           [{| PetOrder.purchaser := purchaser;
               PetOrder.pet_type := pet_type;
               PetOrder.store := store_num;
               PetOrder.purchase_id := str (inc_seq (PetOrder.counters_collection s)) |}]))).
Proof.
  cbv zeta.
  unfold PetOrder.create_purchase, try_except, bind, get_json, lift.
  destruct (negb (is_json req)); [left; split; [reflexivity | discriminate]|].
  destruct (body req) as [data|] eqn:Hb; [|left; split; [reflexivity | discriminate]].
  cbn [ret].
  destruct (negb (truthy data)); [left; split; [reflexivity | discriminate]|].
  destruct (py_in "purchaser" data) as [[|]|] eqn:Epu;
    try (left; split; [reflexivity | discriminate]).
  destruct (py_in "pet-type" data) as [[|]|] eqn:Ept;
    try (left; split; [reflexivity | discriminate]).
  cbn [negb orb].
  destruct (PetOrder.keys_allowed data) as [[|]|] eqn:Eall;
    try (left; split; [reflexivity | discriminate]).
  cbn [negb].
  destruct data as [| | | | |kv]; try discriminate Eall.
  unfold py_item, py_get.
  destruct (assoc "purchaser" kv) as [purchaser|] eqn:Hpu;
    [|left; split; [reflexivity | discriminate]].
  destruct (assoc "pet-type" kv) as [pet_type|] eqn:Hpt;
    [|left; split; [reflexivity | discriminate]].
  fold (field "store" kv). fold (field "pet-name" kv).
  match goal with |- context [if ?c then ret PetOrder.malformed else _] => destruct c end;
    [left; split; [reflexivity | discriminate]|].
  match goal with |- context [if ?c then ret PetOrder.malformed else _] => destruct c end;
    [left; split; [reflexivity | discriminate]|].
  destruct (find_available_pet_done peers pet_type (field "store" kv) (field "pet-name" kv) s)
    as [q [Hq [[Htr Hco] [Hl Hr]]]].
  destruct (PetOrder.find_available_pet peers pet_type (field "store" kv)
              (field "pet-name" kv) s) as [[[[[store_num pet_type_id] pet_name]|]|] s1];
    cbn [fst snd] in *; right; exists kv, purchaser, pet_type, q;
    do 3 (split; [first [reflexivity | assumption]|]);
    (split; [exact Hl|]);
    try (left; split; [exact Hq | discriminate]).
  destruct Hr as [Ho [Hin Hn]].
  assert (Hu : exists u, PetOrder.get_store_url store_num = Some u).
  { destruct Ho as [u [types [pets [Hu _]]]]. now exists u. }
  destruct Hu as [u Hu]. rewrite Hu.
  right. exists store_num, pet_type_id, pet_name, u.
  repeat (split; [assumption|]).
  unfold PetOrder.delete_pet, bind. rewrite send_sent.
  destruct (PetOrder.deleted peers u pet_type_id pet_name) as [code|] eqn:Edel.
  2:{ cbn. rewrite Hq, <- app_assoc. split; [reflexivity|].
      left. discriminate. }
  cbn [ret]. destruct (Z.eqb_spec code 204) as [->|Hne]; cbn [negb].
  - unfold bind, PetOrder.get_next_purchase_id.
    match goal with |- context [PetOrder.stored ?x] => destruct (PetOrder.stored x) end;
      cbn; rewrite Hq, <- app_assoc; (split; [reflexivity|]).
    + right. split; [reflexivity|]. rewrite Hco, Htr. split; reflexivity.
    + left. discriminate.
  - cbn. rewrite Hq, <- app_assoc. split; [reflexivity|]. left. discriminate.
Qed.

(** X20: whatever the answer, POST /purchases sends requests only to the
    stores that the request concerns: the store of its 'store' field when
    it has one, stores 1 and 2 when it has none, and no store at all when
    the body is not an object. *)
Theorem purchase_contacts_only_asked_stores (peers : PetOrder.Peers) (req : Request)
    (s : PetOrder.Order) :
  exists q,
    PetOrder.calls (snd (PetOrder.create_purchase peers req s)) = PetOrder.calls s ++ q /\
    forall c, In c q ->
      exists n, In n (asked req) /\ PetOrder.get_store_url n = Some (call_url c).
Proof.
  destruct (create_purchase_effect peers req s)
    as [[Hc _]|[kv [purchaser [pet_type [q [Hb [_ [_ [Hl H]]]]]]]]].
  - exists []. rewrite Hc, app_nil_r. split; [reflexivity|]. intros c [].
  - unfold asked. rewrite Hb.
    destruct H as [[Hc _]|[n [id [name [u [_ [Hin [_ [Hu [Hc _]]]]]]]]]].
    + exists q. split; [exact Hc|]. intros c Hq. now destruct (Hl c Hq).
    + exists (q ++ [PetOrder.DELETE_pet u id name]). split; [exact Hc|].
      intros c Hq. apply in_app_or in Hq. destruct Hq as [Hq|[<-|[]]].
      * now destruct (Hl c Hq).
      * exists n. split; [exact Hin | exact Hu].
Qed.

(** X21: when POST /purchases answers 201, the pet that the answer names
    was on offer: the store of the answer had listed, with status 200, a
    pet type of the requested name (up to case) and that pet among the
    pets of this type; the store is the requested one and the name the
    requested one, up to case, when the request gives them; the deletion
    of the pet in that store, the last request sent, was answered 204. *)
Theorem accepted_purchase_bought_offered_pet (peers : PetOrder.Peers) (req : Request)
    (s : PetOrder.Order) :
  status (fst (PetOrder.create_purchase peers req s)) = 201 ->
  exists kv purchaser pet_type store_num pet_type_id pet_name u q,
    body req = Some (JObj kv) /\
    assoc "purchaser" kv = Some purchaser /\
    assoc "pet-type" kv = Some pet_type /\
    offered peers pet_type (store_num, pet_type_id, pet_name) /\
    In store_num (stores_for (field "store" kv)) /\
    named (field "pet-name" kv) (store_num, pet_type_id, pet_name) /\
    PetOrder.get_store_url store_num = Some u /\
    PetOrder.deleted peers u pet_type_id pet_name = Some 204 /\
    lookups_of (stores_for (field "store" kv)) q /\
    PetOrder.calls (snd (PetOrder.create_purchase peers req s))
    = PetOrder.calls s ++ q ++ [PetOrder.DELETE_pet u pet_type_id pet_name] /\
    fst (fst (PetOrder.create_purchase peers req s))
    = JObj [("purchaser", purchaser); ("pet-type", pet_type);
            ("store", store_num); ("pet-name", JStr pet_name);
            ("purchase-id", JStr (str (inc_seq (PetOrder.counters_collection s))))].
Proof.
  intros H201.
  destruct (create_purchase_effect peers req s)
    as [[_ Hn]|[kv [purchaser [pet_type [q [Hb [Hpu [Hpt [Hl H]]]]]]]]];
    [contradiction|].
  destruct H as [[_ Hn]|[n [id [name [u [Ho [Hin [Hna [Hu [Hc H]]]]]]]]]];
    [contradiction|].
  destruct H as [Hn|[Hd [Hr _]]]; [contradiction|].
  exists kv, purchaser, pet_type, n, id, name, u, q.
  rewrite Hr. repeat (split; [assumption|]). reflexivity.
Qed.

(** X22: a purchase can be looked up. After any requests to a new order
    service, when POST /purchases answers 201 with a purchase, GET
    /transactions?purchase-id=I with the owner's token, where I is the
    purchase id of the answer, returns exactly one transaction: the
    purchaser, pet type, store and purchase id of the answer. *)
Theorem purchase_then_transaction (rs : list OrderService.request) (peers : PetOrder.Peers)
    (regex : string -> option (string -> bool)) (req lookup : Request)
    (purchaser pet_type store_num : json) (pet_name purchase_id : string) :
  let s := OrderService.run rs OrderService.new_order in
  fst (PetOrder.create_purchase peers req s)
  = (JObj [("purchaser", purchaser); ("pet-type", pet_type); ("store", store_num);
           ("pet-name", JStr pet_name); ("purchase-id", JStr purchase_id)], 201) ->
  owner_pc lookup = Some PetOrder.OWNER_PASSWORD ->
  args lookup = [("purchase-id", purchase_id)] ->
  fst (PetOrder.get_transactions regex lookup (snd (PetOrder.create_purchase peers req s)))
  = (JArr [JObj [("purchaser", purchaser); ("pet-type", pet_type); ("store", store_num);
                 ("purchase-id", JStr purchase_id)]], 200).
Proof.
  intros s Hr Ho Ha.
  assert (Hids : ids_recorded s)
    by (apply run_ids_recorded, new_order_ids_recorded).
  destruct (create_purchase_effect peers req s)
    as [[_ Hn]|[kv [pu [pt [q [Hb [Hpu [Hpt [Hl H]]]]]]]]].
  { rewrite Hr in Hn. now contradiction Hn. }
  destruct H as [[_ Hn]|[n [id [name [u [_ [_ [_ [_ [_ H]]]]]]]]]].
  { rewrite Hr in Hn. now contradiction Hn. }
  destruct H as [Hn|[_ [Hr' Ht]]].
  { rewrite Hr in Hn. now contradiction Hn. }
  rewrite Hr in Hr'. injection Hr' as E1 E2 E3 E4 E5. subst.
  unfold PetOrder.get_transactions. rewrite Ho, Ha, Ht.
  cbn -[str filter].
  rewrite filter_app.
  rewrite (filter_none _ (PetOrder.transactions_collection s)).
  - cbn -[str]. rewrite String.eqb_refl. reflexivity.
  - intros t Hin. cbn -[str].
    destruct Hids as [_ Hle].
    destruct (Hle (PetOrder.purchase_id t) (in_map _ _ _ Hin)) as [m [Hm Hlt]].
    rewrite Hm. apply String.eqb_neq. intros E. apply str_inj in E.
    destruct (PetOrder.counters_collection s); cbn in *; lia.
Qed.

(** ** The further properties at work on the example stores *)

Lemma kennel_lower_names : lower_names Examples.kennel.
Proof. intros p [<-|[]]. reflexivity. Qed.

Lemma kennel_ids_distinct :
  NoDup (map PetStore.pt_id (PetStore.pet_types_collection Examples.kennel)).
Proof. cbn. nodup_strings. Qed.

Lemma add_pet_type_failure_adds_nothing_witness :
  let r := PetTypes.add_pet_type StoreExamples.zoo (StoreExamples.typed "Cat")
             Service.new_store in
  PetStore.pet_types_collection (snd r) = PetStore.pet_types_collection Service.new_store /\
  PetStore.pets_collection (snd r) = PetStore.pets_collection Service.new_store /\
  PetStore.images (snd r) = PetStore.images Service.new_store /\
  (PetStore.counters_collection (snd r) = PetStore.counters_collection Service.new_store \/
   PetStore.counters_collection (snd r)
   = Some (inc_seq (PetStore.counters_collection Service.new_store))) /\
  (status (fst r) <> 500 -> snd r = Service.new_store).
Proof.
  apply (add_pet_type_failure_adds_nothing StoreExamples.zoo (StoreExamples.typed "Cat")
           Service.new_store).
  vm_compute. discriminate.
Defined.

Lemma add_pet_type_rejects_known_type_witness :
  PetTypes.add_pet_type StoreExamples.zoo (StoreExamples.typed "DOG") Examples.kennel
  = ((message "error" "Pet type already exists", 400), Examples.kennel).
Proof.
  apply (add_pet_type_rejects_known_type StoreExamples.zoo (StoreExamples.typed "DOG")
           Examples.kennel "DOG" (Examples.dog ["Rex"])).
  - reflexivity.
  - reflexivity.
  - now left.
  - reflexivity.
Defined.

Lemma add_pet_then_get_witness :
  exists obj,
    fst (PetStore.add_pet Examples.no_fetch "1" (Examples.named "Bo") Examples.kennel)
    = (PetStore.clean_pet obj, 201) /\
    forall n', lower n' = lower (PetStore.name obj) ->
      PetStore.get_pet_by_name "1" n'
        (snd (PetStore.add_pet Examples.no_fetch "1" (Examples.named "Bo") Examples.kennel))
      = ((PetStore.clean_pet obj, 200),
         snd (PetStore.add_pet Examples.no_fetch "1" (Examples.named "Bo") Examples.kennel)).
Proof.
  apply (add_pet_then_get Examples.no_fetch "1" (Examples.named "Bo") Examples.kennel).
  - exact kennel_mirrors.
  - exact kennel_lower_names.
  - reflexivity.
Defined.

Lemma add_pet_then_delete_pet_type_witness :
  PetStore.delete_pet_type "1"
    (snd (PetStore.add_pet Examples.no_fetch "1" (Examples.named "Bo") Examples.kennel))
  = (PetStore.malformed,
     snd (PetStore.add_pet Examples.no_fetch "1" (Examples.named "Bo") Examples.kennel)).
Proof.
  apply (add_pet_then_delete_pet_type Examples.no_fetch "1" (Examples.named "Bo")
           Examples.kennel).
  reflexivity.
Defined.

Lemma delete_pet_then_get_witness :
  PetStore.get_pet_by_name "1" "REX" (snd (PetStore.delete_pet "1" "Rex" Examples.kennel))
  = (PetStore.not_found, snd (PetStore.delete_pet "1" "Rex" Examples.kennel)).
Proof.
  apply (delete_pet_then_get "1" "Rex" Examples.kennel).
  - exact kennel_names_unique.
  - exact kennel_lower_names.
  - reflexivity.
  - reflexivity.
Defined.

Lemma add_pet_type_then_get_witness :
  exists pt,
    fst (PetTypes.add_pet_type StoreExamples.zoo (StoreExamples.typed "dog") Service.new_store)
    = (PetStore.clean_pet_type pt, 201) /\
    PetStore.get_pet_type_by_id (PetStore.pt_id pt)
      (snd (PetTypes.add_pet_type StoreExamples.zoo (StoreExamples.typed "dog")
              Service.new_store))
    = ((PetStore.clean_pet_type pt, 200),
       snd (PetTypes.add_pet_type StoreExamples.zoo (StoreExamples.typed "dog")
              Service.new_store)).
Proof.
  apply (add_pet_type_then_get StoreExamples.zoo (StoreExamples.typed "dog")
           Service.new_store).
  - split; [constructor | intros i []].
  - reflexivity.
Defined.

Lemma delete_pet_type_then_get_witness :
  PetStore.get_pet_type_by_id "2" (snd (PetStore.delete_pet_type "2" Examples.kennel))
  = (PetStore.not_found, snd (PetStore.delete_pet_type "2" Examples.kennel)).
Proof.
  apply (delete_pet_type_then_get "2" Examples.kennel).
  - exact kennel_ids_distinct.
  - reflexivity.
Defined.

Lemma add_pet_then_delete_pet_witness :
  exists obj,
    fst (PetStore.add_pet Examples.no_fetch "1" (Examples.named "Bo") Examples.kennel)
    = (PetStore.clean_pet obj, 201) /\
    forall n', lower n' = lower (PetStore.name obj) ->
      let r := PetStore.delete_pet "1" n'
                 (snd (PetStore.add_pet Examples.no_fetch "1" (Examples.named "Bo")
                         Examples.kennel)) in
      status (fst r) = 204 /\ same_collections Examples.kennel (snd r).
Proof.
  apply (add_pet_then_delete_pet Examples.no_fetch "1" (Examples.named "Bo")
           Examples.kennel).
  - exact kennel_mirrors.
  - exact kennel_lower_names.
  - reflexivity.
Defined.

Lemma get_pets_born_between_witness :
  PetStore.get_pets StoreExamples.january_2020 "1" (StoreExamples.born_after "05-01-2020")
    StoreExamples.litter
  = ((JArr (map PetStore.clean_pet
              (filter (Births.born_between StoreExamples.january_2020 (Some 737429) None)
                 (filter (PetStore.of_type "1")
                    (PetStore.pets_collection StoreExamples.litter)))), 200),
     StoreExamples.litter).
Proof.
  apply (get_pets_born_between StoreExamples.january_2020 "1"
           (StoreExamples.born_after "05-01-2020")
           StoreExamples.litter (Examples.dog ["Rex"; "Max"]) (Some 737429) None).
  - reflexivity.
  - discriminate.
  - reflexivity.
  - reflexivity.
Defined.

Lemma add_pet_keeps_mirror_witness :
  mirrors Examples.kennel /\
  mirrors (snd (PetStore.add_pet Examples.no_fetch "1" (Examples.named "Bo") Examples.kennel)).
Proof.
  split; [exact kennel_mirrors|].
  apply (add_pet_keeps_mirror Examples.no_fetch "1" (Examples.named "Bo") Examples.kennel).
  - exact kennel_ids_distinct.
  - exact kennel_mirrors.
Defined.

Lemma add_pet_keeps_names_unique_witness :
  names_unique Examples.kennel /\
  names_unique
    (snd (PetStore.add_pet Examples.no_fetch "1" (Examples.named "Bo") Examples.kennel)).
Proof.
  split; [exact kennel_names_unique|].
  apply (add_pet_keeps_names_unique Examples.no_fetch "1" (Examples.named "Bo")
           Examples.kennel).
  - exact kennel_mirrors.
  - exact kennel_names_unique.
Defined.

Lemma delete_pet_keeps_mirror_witness :
  mirrors Examples.kennel /\
  mirrors (snd (PetStore.delete_pet "1" "Rex" Examples.kennel)).
Proof.
  split; [exact kennel_mirrors|].
  apply (delete_pet_keeps_mirror "1" "Rex" Examples.kennel).
  - exact kennel_ids_distinct.
  - exact kennel_names_unique.
  - exact kennel_mirrors.
Defined.


Lemma transactions_of_store_witness :
  let s := snd (PetOrder.create_purchase OrderExamples.peers
                  (OrderExamples.buy_dog "application/json") OrderExamples.empty) in
  (int64 1 = true ->
   PetOrder.get_transactions LookupExamples.no_regex (LookupExamples.lookup "store" "1") s
   = ((JArr (map PetOrder.view
               (filter (fun t => PetOrder.field_is (PetOrder.is_num 1) (PetOrder.store t))
                  (PetOrder.transactions_collection s))), 200), s)) /\
  (int64 1 = false ->
   status (fst (PetOrder.get_transactions LookupExamples.no_regex
                  (LookupExamples.lookup "store" "1") s)) = 500 /\
   snd (PetOrder.get_transactions LookupExamples.no_regex
          (LookupExamples.lookup "store" "1") s) = s).
Proof.
  apply (transactions_of_store LookupExamples.no_regex (LookupExamples.lookup "store" "1")
           (snd (PetOrder.create_purchase OrderExamples.peers
                   (OrderExamples.buy_dog "application/json") OrderExamples.empty)) "1" 1).
  - reflexivity.
  - reflexivity.
  - reflexivity.
Defined.

Lemma transactions_of_purchase_id_witness :
  let s := snd (PetOrder.create_purchase OrderExamples.peers
                  (OrderExamples.buy_dog "application/json") OrderExamples.empty) in
  exists l,
    PetOrder.get_transactions LookupExamples.no_regex
      (LookupExamples.lookup "purchase-id" "1") s = ((JArr l, 200), s) /\
    (List.length l <= 1)%nat.
Proof.
  apply (transactions_of_purchase_id LookupExamples.no_regex
           (LookupExamples.lookup "purchase-id" "1")
           (snd (PetOrder.create_purchase OrderExamples.peers
                   (OrderExamples.buy_dog "application/json") OrderExamples.empty)) "1").
  - exact (run_ids_recorded
             [OrderService.POST_purchases OrderExamples.peers
                (OrderExamples.buy_dog "application/json")]
             OrderService.new_order new_order_ids_recorded).
  - reflexivity.
  - reflexivity.
Defined.

Lemma accepted_purchase_bought_offered_pet_witness :
  let req := OrderExamples.buy_dog "application/json" in
  let s := OrderExamples.empty in
  exists kv purchaser pet_type store_num pet_type_id pet_name u q,
    body req = Some (JObj kv) /\
    assoc "purchaser" kv = Some purchaser /\
    assoc "pet-type" kv = Some pet_type /\
    offered OrderExamples.peers pet_type (store_num, pet_type_id, pet_name) /\
    In store_num (stores_for (field "store" kv)) /\
    OrderService.named (field "pet-name" kv) (store_num, pet_type_id, pet_name) /\
    PetOrder.get_store_url store_num = Some u /\
    PetOrder.deleted OrderExamples.peers u pet_type_id pet_name = Some 204 /\
    lookups_of (stores_for (field "store" kv)) q /\
    PetOrder.calls (snd (PetOrder.create_purchase OrderExamples.peers req s))
    = PetOrder.calls s ++ q ++ [PetOrder.DELETE_pet u pet_type_id pet_name] /\
    fst (fst (PetOrder.create_purchase OrderExamples.peers req s))
    = JObj [("purchaser", purchaser); ("pet-type", pet_type);
            ("store", store_num); ("pet-name", JStr pet_name);
            ("purchase-id", JStr (str (inc_seq (PetOrder.counters_collection s))))].
Proof.
  apply (accepted_purchase_bought_offered_pet OrderExamples.peers
           (OrderExamples.buy_dog "application/json") OrderExamples.empty).
  reflexivity.
Defined.

Lemma purchase_then_transaction_witness :
  fst (PetOrder.get_transactions LookupExamples.no_regex
         (LookupExamples.lookup "purchase-id" "1")
         (snd (PetOrder.create_purchase OrderExamples.peers
                 (OrderExamples.buy_dog "application/json") OrderService.new_order)))
  = (JArr [JObj [("purchaser", JStr "Ann"); ("pet-type", JStr "dog"); ("store", JNum 1);
                 ("purchase-id", JStr "1")]], 200).
Proof.
  apply (purchase_then_transaction [] OrderExamples.peers LookupExamples.no_regex
           (OrderExamples.buy_dog "application/json")
           (LookupExamples.lookup "purchase-id" "1")
           (JStr "Ann") (JStr "dog") (JNum 1) "Rex" "1").
  - reflexivity.
  - reflexivity.
  - reflexivity.
Defined.
